(** * MoneyPrinterTurbo: the video assembly pipeline

    A shallow embedding of [app/models/schema.py], [app/services/video.py]
    and [app/services/task.py], and the properties of the assembly
    pipeline that were checked against it.

    Conventions of the embedding.
    - Numbers are rationals ([Q]); pixel counts that Python keeps as [int]
      are [Z].  The lengths of clips and of the audio, in seconds, are
      added, subtracted and compared exactly.  The progress of a task and
      the scaling of a frame are computed as Python computes them, in
      binary64: every operation is followed by the rounding of [Float64].
    - A Python exception is a value of [Exn]; a computation that may raise
      or may loop returns a [Run].  Loops written with [while] take a fuel
      argument and answer [OutOfFuel] when it is used up.
    - The [random] module is a stream of draws ([Rng]) that is threaded
      through the code, so that every function stays executable.
    - moviepy clips are terms: every moviepy call of the source is a
      constructor, and [duration] and [size] read a term the way moviepy
      computes the attribute. *)

From Stdlib Require Import ZArith QArith Qround Qminmax Qpower Lqa Lia.
From Stdlib Require Import List String Ascii Bool Sorted DecimalString.
Import ListNotations.

Set Implicit Arguments.

(* ================================================================= *)
(** * Part I: definitions *)
(* ================================================================= *)

(** ** Python runtime: exceptions, results, comparisons *)

Inductive Exn : Type :=
| ZeroDivisionError
| AttributeError
| IndexError
| ValueError
| TypeError
| OSError.

Inductive Run (A : Type) : Type :=
| Returned (a : A)
| Raised (e : Exn)
| OutOfFuel.

Arguments Returned {A} a.
Arguments Raised {A} e.
Arguments OutOfFuel {A}.

Definition run_bind {A B : Type} (m : Run A) (k : A -> Run B) : Run B :=
  match m with
  | Returned a => k a
  | Raised e => Raised e
  | OutOfFuel => OutOfFuel
  end.

Declare Scope run_scope.
Delimit Scope run_scope with run.
Notation "x <- m ;; k" := (run_bind m (fun x => k))
  (at level 61, m at next level, right associativity) : run_scope.
Notation "' p <- m ;; k" := (run_bind m (fun p => k))
  (at level 61, p pattern, m at next level, right associativity) : run_scope.

(** [a < b] on numbers, as a boolean. *)
Definition Qltb (a b : Q) : bool := negb (Qle_bool b a).

(** Python's [min(a, b)] and [max(a, b)]: the first argument is kept
    unless the second is strictly smaller (greater). *)
Definition py_min (a b : Q) : Q := if Qltb b a then b else a.
Definition py_max (a b : Q) : Q := if Qltb a b then b else a.

(** Python's [int(x)] on a float: truncation towards zero. *)
Definition py_int (x : Q) : Z := Z.quot (Qnum x) (Zpos (Qden x)).

(** [a / b] with Python's [ZeroDivisionError]. *)
Definition py_div (a b : Q) : Run Q :=
  if Qeq_bool b 0 then Raised ZeroDivisionError else Returned (a / b).

(** ** Python [float]: binary64

    A finite [float] is the rational it stands for, and an operation on
    floats is the exact operation followed by [round], the rounding of
    IEEE 754 to the nearest number of 53 bits, a tie going to the even
    one, with the subnormal numbers below [2 ^ -1022].  Numbers beyond
    the largest binary64 number (about [1.8e308]) are outside the
    embedding: the code never comes near them. *)

Module Float64.

(** [floor (log2 q)] for [0 < q]. *)
Definition ilog2 (q : Q) : Z :=
  let e := (Z.log2 (Qnum q) - Z.log2 (Z.pos (Qden q)))%Z in
  if Qle_bool (2 ^ e) q then e else (e - 1)%Z.

(** The nearest integer, a tie going to the even one. *)
Definition rint (q : Q) : Z :=
  let f := Qfloor q in
  match Qcompare (q - inject_Z f) (1 # 2) with
  | Lt => f
  | Gt => (f + 1)%Z
  | Eq => if Z.even f then f else (f + 1)%Z
  end.

(** The exponent of the last of the 53 bits of a number of the size of
    [q], and not below that of the subnormal numbers. *)
Definition ulp_exponent (q : Q) : Z := Z.max (ilog2 q - 52) (-1074).

Definition round_pos (q : Q) : Q :=
  let e := ulp_exponent q in
  inject_Z (rint (q / 2 ^ e)) * 2 ^ e.

Definition round (q : Q) : Q :=
  match Qcompare q 0 with
  | Eq => 0
  | Gt => round_pos q
  | Lt => - round_pos (- q)
  end.

(** [x + y], [x - y], [x * y] on floats. *)
Definition add (x y : Q) : Q := round (x + y).
Definition sub (x y : Q) : Q := round (x - y).
Definition mul (x y : Q) : Q := round (x * y).

(** [x / y] on floats, and on two [int]s: the quotient rounded once,
    [ZeroDivisionError] for a divisor 0. *)
Definition div (x y : Q) : Run Q :=
  if Qeq_bool y 0 then Raised ZeroDivisionError
  else Returned (round (x / y)).

(** A number that is not negative and that binary64 holds: 53 bits and
    an exponent not below the subnormal one. *)
Definition representable (y : Q) : Prop :=
  exists k e : Z,
    y == inject_Z k * 2 ^ e /\ (0 <= k < 2 ^ 53)%Z /\ (-1074 <= e)%Z.

End Float64.

(** ** The [random] module *)

Module Random.

(** The generator: the draws still to come. *)
Definition Rng : Type := list nat.

(** [_randbelow(n)]: the next draw, reduced into [range(n)]. *)
Definition randbelow (n : nat) (rng : Rng) : nat * Rng :=
  match rng with
  | [] => (0%nat, [])
  | r :: rest => (Nat.modulo r n, rest)
  end.

(** [random.choice(seq)]: [seq[randbelow(len(seq))]], [IndexError] on an
    empty sequence. *)
Definition choice {A : Type} (seq : list A) (rng : Rng) : Run (A * Rng) :=
  match seq with
  | [] => Raised IndexError
  | _ =>
      let '(i, rng') := randbelow (List.length seq) rng in
      match nth_error seq i with
      | Some x => Returned (x, rng')
      | None => Raised IndexError
      end
  end.

Fixpoint list_set {A : Type} (i : nat) (v : A) (x : list A) : list A :=
  match x, i with
  | [], _ => []
  | _ :: t, O => v :: t
  | h :: t, S i' => h :: list_set i' v t
  end.

(** [x[i], x[j] = x[j], x[i]] *)
Definition swap {A : Type} (i j : nat) (x : list A) : list A :=
  match nth_error x i, nth_error x j with
  | Some xi, Some xj => list_set j xi (list_set i xj x)
  | _, _ => x
  end.

(** [for i in reversed(range(1, len(x))): j = randbelow(i + 1); swap] *)
Fixpoint shuffle_from {A : Type} (i : nat) (x : list A) (rng : Rng)
  : list A * Rng :=
  match i with
  | O => (x, rng)
  | S i' =>
      let '(j, rng') := randbelow (S i) rng in
      shuffle_from i' (swap i j x) rng'
  end.

Definition shuffle {A : Type} (x : list A) (rng : Rng) : list A * Rng :=
  shuffle_from (List.length x - 1) x rng.

End Random.

(** ** [app/models/schema.py] *)

Module Schema.

Inductive VideoConcatMode : Type := random | sequential.

Inductive VideoTransitionMode : Type :=
| none | shuffle | fade_in | fade_out | slide_in | slide_out.

Inductive VideoAspect : Type := landscape | portrait | square.

(** The [.value] of the enumeration members. *)
Definition concat_value (m : VideoConcatMode) : string :=
  match m with
  | random => "random"
  | sequential => "sequential"
  end.

Definition transition_value (m : VideoTransitionMode) : option string :=
  match m with
  | none => None
  | shuffle => Some "Shuffle"%string
  | fade_in => Some "FadeIn"%string
  | fade_out => Some "FadeOut"%string
  | slide_in => Some "SlideIn"%string
  | slide_out => Some "SlideOut"%string
  end.

Definition aspect_value (a : VideoAspect) : string :=
  match a with
  | landscape => "16:9"
  | portrait => "9:16"
  | square => "1:1"
  end.

Definition to_resolution (self : VideoAspect) : Z * Z :=
  if String.eqb (aspect_value self) (aspect_value landscape) then (1920, 1080)%Z
  else if String.eqb (aspect_value self) (aspect_value portrait) then (1080, 1920)%Z
  else if String.eqb (aspect_value self) (aspect_value square) then (1080, 1080)%Z
  else (1080, 1920)%Z.

(** [VideoConcatMode(s)]: the member whose value is [s]. *)
Definition VideoConcatMode_of_str (s : string) : Run VideoConcatMode :=
  if String.eqb s "random" then Returned random
  else if String.eqb s "sequential" then Returned sequential
  else Raised ValueError.

Definition value_eqb (a b : option string) : bool :=
  match a, b with
  | None, None => true
  | Some x, Some y => String.eqb x y
  | _, _ => false
  end.

Record MaterialInfo : Type := {
  provider : string;
  url : string;
  material_duration : Z
}.

(** [params.video_concat_mode] as [start] may find it: still the string
    of the request, or the enumeration member. *)
Inductive ConcatModeField : Type :=
| mode_str (s : string)
| mode_enum (m : VideoConcatMode).

(** [params.video_terms]: [Optional[str | list]]. *)
Inductive TermsField : Type :=
| terms_none
| terms_str (s : string)
| terms_list (l : list string).

(** The fields of [VideoParams] the pipeline reads.  An [Optional[str]]
    that is [None] is the empty string; [video_materials] is [None] or a
    list. *)
Record VideoParams : Type := {
  video_subject : string;
  video_script : string;
  video_terms : TermsField;
  video_aspect : VideoAspect;
  video_concat_mode : ConcatModeField;
  video_transition_mode : option VideoTransitionMode;
  video_clip_duration : Z;
  video_count : Z;
  video_source : string;
  video_materials : option (list MaterialInfo);
  voice_volume : Q;
  bgm_type : string;
  bgm_file : string;
  bgm_volume : Q;
  subtitle_enabled : bool;
  subtitle_position : string;
  custom_position : Q;
  font_name : string
}.

End Schema.

(** ** moviepy video clips *)

Module Clip.

(** A visual effect of [moviepy.vfx], with its length in seconds and, for
    the slides, the side it moves from or to. *)
Inductive Effect : Type :=
| FadeIn (t : Q)
| FadeOut (t : Q)
| SlideIn (t : Q) (side : string)
| SlideOut (t : Q) (side : string).

#[local] Unset Elimination Schemes.

(** A clip is the term of moviepy calls that built it. *)
Inductive Clip : Type :=
| VideoFileClip (path : string) (file_duration : Q) (w h : Z)
| without_audio (c : Clip)
| subclipped (c : Clip) (start_time end_time : Q)
| with_fps (c : Clip) (fps : Z)
| resized (c : Clip) (new_size : Z * Z)
| ColorClip (size : Z * Z) (color : Z * Z * Z)
| with_duration (c : Clip) (d : Q)
| with_position (c : Clip) (pos : string)
| CompositeVideoClip (cs : list Clip)
| with_effects (c : Clip) (effects : list Effect).

#[local] Set Elimination Schemes.

(** [clip.duration].  [subclipped] sets it to [end_time - start_time],
    [with_duration] sets it, a composite lasts as long as its longest
    layer (every layer starts at 0 here), a [ColorClip] has none until
    [with_duration] gives it one (read as 0), and a fade or a slide
    changes the frames, not the length. *)
Fixpoint duration (c : Clip) : Q :=
  match c with
  | VideoFileClip _ d _ _ => d
  | without_audio c' => duration c'
  | subclipped _ start_time end_time => end_time - start_time
  | with_fps c' _ => duration c'
  | resized c' _ => duration c'
  | ColorClip _ _ => 0
  | with_duration _ d => d
  | with_position c' _ => duration c'
  | CompositeVideoClip cs =>
      fold_right (fun x acc => Qmax (duration x) acc) 0 cs
  | with_effects c' _ => duration c'
  end.

(** [clip.size]: [(w, h)].  A composite built without [size=] takes the
    size of its first layer. *)
Fixpoint size (c : Clip) : Z * Z :=
  match c with
  | VideoFileClip _ _ w h => (w, h)
  | without_audio c' => size c'
  | subclipped c' _ _ => size c'
  | with_fps c' _ => size c'
  | resized _ new_size => new_size
  | ColorClip sz _ => sz
  | with_duration c' _ => size c'
  | with_position c' _ => size c'
  | CompositeVideoClip cs =>
      match cs with
      | [] => (0, 0)%Z
      | first :: _ => size first
      end
  | with_effects c' _ => size c'
  end.

(** The effects a clip carries, outermost first, looking through the
    trims that may follow them. *)
Fixpoint effects_of (c : Clip) : list Effect :=
  match c with
  | with_effects c' es => (es ++ effects_of c')%list
  | subclipped c' _ _ => effects_of c'
  | _ => []
  end.

(** Sum of the durations of a sequence of clips: the length of their
    concatenation. *)
Definition total_duration (cs : list Clip) : Q :=
  fold_right (fun c acc => duration c + acc) 0 cs.

(** A clip with a frame of positive width and height. *)
Definition has_frame (c : Clip) : Prop :=
  (0 < fst (size c))%Z /\ (0 < snd (size c))%Z.

(** A segment as the pool holds them: it has a frame and some length. *)
Definition is_segment (c : Clip) : Prop :=
  has_frame c /\ 0 < duration c.

End Clip.

(** ** [app/services/utils/video_effects.py] *)

Module video_effects.
Import Clip.

(** Modelled from the spec: [video_effects.fadein_transition] is not
    among the sources at hand; a fade-in is an effect over a window of
    [t] seconds from the start of the segment. *)
Definition fadein_transition (clip : Clip) (t : Q) : Clip :=
  with_effects clip [FadeIn t].

(** Modelled from the spec: [video_effects.fadeout_transition] is not
    among the sources at hand; a fade-out is an effect over a window of
    [t] seconds up to the end of the segment. *)
Definition fadeout_transition (clip : Clip) (t : Q) : Clip :=
  with_effects clip [FadeOut t].

(** Modelled from the spec: [video_effects.slidein_transition] is not
    among the sources at hand; a slide-in is an effect over a window of
    [t] seconds from the start of the segment, from the given side. *)
Definition slidein_transition (clip : Clip) (t : Q) (side : string) : Clip :=
  with_effects clip [SlideIn t side].

(** Modelled from the spec: [video_effects.slideout_transition] is not
    among the sources at hand; a slide-out is an effect over a window of
    [t] seconds up to the end of the segment, towards the given side. *)
Definition slideout_transition (clip : Clip) (t : Q) (side : string) : Clip :=
  with_effects clip [SlideOut t side].

End video_effects.

(** ** [app/services/video.py]: [combine_videos] *)

Module Video.
Import Clip Schema.
Local Open Scope run_scope.

(** What [VideoFileClip(video_path)] reads from a file of [video_paths]:
    its length and its native frame size. *)
Record VideoFile : Type := {
  path : string;
  file_duration : Q;
  file_size : Z * Z
}.

(** The local variables the packing loop updates: the final list
    [clips], the running total [video_duration], and the generator. *)
Record PackState : Type := {
  clips : list Clip;
  video_duration : Q;
  rng : Random.Rng
}.

Section combine_videos.

Variable audio_duration : Q.
Variable video_concat_mode : VideoConcatMode.
Variable video_transition_mode : option VideoTransitionMode.
Variable max_clip_duration : Z.
Variables video_width video_height : Z.

(** Lines 103-114: [while start_time < clip_duration], cutting one
    source clip into windows of at most [max_clip_duration]. *)
Fixpoint split_clip (fuel : nat) (clip : Clip) (clip_duration start_time : Q)
         (raw_clips : list Clip) : Run (list Clip) :=
  match fuel with
  | O => OutOfFuel
  | S fuel' =>
      if Qltb start_time clip_duration then
        let end_time :=
          py_min (start_time + inject_Z max_clip_duration) clip_duration in
        let split := subclipped clip start_time end_time in
        let raw_clips := (raw_clips ++ [split])%list in
        if String.eqb (concat_value video_concat_mode)
                      (concat_value sequential)
        then Returned raw_clips
        else split_clip fuel' clip clip_duration end_time raw_clips
      else Returned raw_clips
  end.

(** Lines 95-114: [for video_path in video_paths]. *)
Fixpoint split_all (fuel : nat) (video_paths : list VideoFile)
         (raw_clips : list Clip) : Run (list Clip) :=
  match video_paths with
  | [] => Returned raw_clips
  | video_path :: rest =>
      let clip :=
        without_audio
          (VideoFileClip (path video_path) (file_duration video_path)
                         (fst (file_size video_path))
                         (snd (file_size video_path))) in
      let clip_duration := duration clip in
      raw_clips' <- split_clip fuel clip clip_duration 0 raw_clips ;;
      split_all fuel rest raw_clips'
  end.

(** Lines 134-175: bring a segment to the output frame size.  The
    ratios, the scale factor and the scaled sizes are floats: [int]
    truncates the rounded product, which can lie just below the whole
    number the exact product is. *)
Definition fit_frame (clip : Clip) : Run Clip :=
  let '(clip_w, clip_h) := size clip in
  if negb (clip_w =? video_width)%Z || negb (clip_h =? video_height)%Z then
    clip_ratio <- Float64.div (inject_Z clip_w) (inject_Z clip_h) ;;
    video_ratio <- Float64.div (inject_Z video_width) (inject_Z video_height) ;;
    if Qeq_bool clip_ratio video_ratio then
      Returned (resized clip (video_width, video_height))
    else
      scale_factor <-
        (if Qltb video_ratio clip_ratio
         then Float64.div (inject_Z video_width) (inject_Z clip_w)
         else Float64.div (inject_Z video_height) (inject_Z clip_h)) ;;
      let new_width := py_int (Float64.mul (inject_Z clip_w) scale_factor) in
      let new_height := py_int (Float64.mul (inject_Z clip_h) scale_factor) in
      let clip_resized := resized clip (new_width, new_height) in
      let background :=
        ColorClip (video_width, video_height) (0, 0, 0)%Z in
      Returned
        (CompositeVideoClip
           [ with_duration background (duration clip);
             with_position clip_resized "center" ])
  else Returned clip.

(** Lines 177-201: the transition of one segment.  Reading [.value]
    of Python's [None] raises [AttributeError]. *)
Definition apply_transition (clip : Clip) (rng : Random.Rng)
  : Run (Clip * Random.Rng) :=
  '(shuffle_side, rng) <-
    Random.choice ["left"; "right"; "top"; "bottom"]%string rng ;;
  match video_transition_mode with
  | None => Raised AttributeError
  | Some mode =>
      let v := transition_value mode in
      if value_eqb v (transition_value none) then
        Returned (clip, rng)
      else if value_eqb v (transition_value fade_in) then
        Returned (video_effects.fadein_transition clip 1, rng)
      else if value_eqb v (transition_value fade_out) then
        Returned (video_effects.fadeout_transition clip 1, rng)
      else if value_eqb v (transition_value slide_in) then
        Returned (video_effects.slidein_transition clip 1 shuffle_side, rng)
      else if value_eqb v (transition_value slide_out) then
        Returned (video_effects.slideout_transition clip 1 shuffle_side, rng)
      else if value_eqb v (transition_value shuffle) then
        let transition_funcs :=
          [ (fun c => video_effects.fadein_transition c 1);
            (fun c => video_effects.fadeout_transition c 1);
            (fun c => video_effects.slidein_transition c 1 shuffle_side);
            (fun c => video_effects.slideout_transition c 1 shuffle_side) ] in
        '(shuffle_transition, rng) <- Random.choice transition_funcs rng ;;
        Returned (shuffle_transition clip, rng)
      else Returned (clip, rng)
  end.

(** Lines 123-210: the body of [for clip in raw_clips].  The lengths
    are subtracted and added exactly; Python's floats do the same on
    lengths that are whole numbers of seconds, and round elsewhere. *)
Definition append_clip (clip : Clip) (st : PackState) : Run PackState :=
  let req_dur := inject_Z max_clip_duration in
  let clip :=
    if Qltb (audio_duration - video_duration st) (duration clip) then
      subclipped clip 0 (audio_duration - video_duration st)
    else if Qltb req_dur (duration clip) then
      subclipped clip 0 req_dur
    else clip in
  let clip := with_fps clip 30 in
  clip <- fit_frame clip ;;
  '(clip, rng') <- apply_transition clip (rng st) ;;
  let clip :=
    if Qltb (inject_Z max_clip_duration) (duration clip)
    then subclipped clip 0 (inject_Z max_clip_duration)
    else clip in
  Returned {| clips := (clips st ++ [clip])%list;
              video_duration := video_duration st + duration clip;
              rng := rng' |}.

(** Line 122: [for clip in raw_clips]; nothing leaves the loop early. *)
Fixpoint for_raw_clips (raw_clips : list Clip) (st : PackState)
  : Run PackState :=
  match raw_clips with
  | [] => Returned st
  | clip :: rest =>
      st' <- append_clip clip st ;;
      for_raw_clips rest st'
  end.

(** Line 121: [while video_duration < audio_duration]. *)
Fixpoint pack (fuel : nat) (raw_clips : list Clip) (st : PackState)
  : Run PackState :=
  match fuel with
  | O => OutOfFuel
  | S fuel' =>
      if Qltb (video_duration st) audio_duration then
        st' <- for_raw_clips raw_clips st ;;
        pack fuel' raw_clips st'
      else Returned st
  end.

End combine_videos.

(** The packing loop keeps [video_duration] equal to the length of
    [clips], and never past the audio. *)
Definition packed (audio_duration : Q) (st : PackState) : Prop :=
  total_duration (clips st) == video_duration st
  /\ video_duration st <= audio_duration.

(** [combine_videos]: the segments that are concatenated and written to
    [combined_video_path].  [audio_duration] is the length of
    [AudioFileClip(audio_file)]. *)
Definition combine_videos (fuel : nat)
           (video_paths : list VideoFile)
           (audio_duration : Q)
           (video_aspect : VideoAspect)
           (video_concat_mode : VideoConcatMode)
           (video_transition_mode : option VideoTransitionMode)
           (max_clip_duration : Z)
           (rng : Random.Rng) : Run (list Clip) :=
  _ <- py_div audio_duration (inject_Z (Z.of_nat (List.length video_paths))) ;;
  let '(video_width, video_height) := to_resolution video_aspect in
  raw_clips <- split_all video_concat_mode max_clip_duration fuel video_paths [] ;;
  let '(raw_clips, rng) :=
    if String.eqb (concat_value video_concat_mode) (concat_value random)
    then Random.shuffle raw_clips rng
    else (raw_clips, rng) in
  st <- pack audio_duration video_transition_mode max_clip_duration
             video_width video_height fuel raw_clips
             {| clips := []; video_duration := 0; rng := rng |} ;;
  Returned (map (fun clip => CompositeVideoClip [clip]) (clips st)).

End Video.

(** ** Python strings *)

Module PyStr.
Local Open Scope string_scope.

Definition newline : string := String (ascii_of_nat 10) EmptyString.

(** The white space of ASCII, as [str.strip()] sees it.  The white space
    beyond ASCII that [str.strip()] removes as well (U+0085, U+00A0,
    U+3000 and the like) is not removed here. *)
Definition is_space (c : ascii) : bool :=
  let n := nat_of_ascii c in
  ((9 <=? n)%nat && (n <=? 13)%nat) || ((28 <=? n)%nat && (n <=? 32)%nat).

Fixpoint lstrip (s : string) : string :=
  match s with
  | EmptyString => EmptyString
  | String c s' => if is_space c then lstrip s' else s
  end.

Fixpoint rstrip (s : string) : string :=
  match s with
  | EmptyString => EmptyString
  | String c s' =>
      match rstrip s' with
      | EmptyString => if is_space c then EmptyString else String c EmptyString
      | r => String c r
      end
  end.

(** [s.strip()] *)
Definition strip (s : string) : string := rstrip (lstrip s).

(** A character of ASCII that is printed and is not the space.  No
    [strip] removes it, and in UTF-8 its byte is part of no other
    character. *)
Definition is_graphic (c : ascii) : bool :=
  let n := nat_of_ascii c in (33 <=? n)%nat && (n <=? 126)%nat.

Fixpoint has_graphic (s : string) : bool :=
  match s with
  | EmptyString => false
  | String c s' => is_graphic c || has_graphic s'
  end.

(** [s.split(sep)] for a one-character separator: empty fields are kept. *)
Fixpoint split (sep : ascii) (s : string) : list string :=
  match s with
  | EmptyString => [EmptyString]
  | String c s' =>
      if Ascii.eqb c sep then EmptyString :: split sep s'
      else match split sep s' with
           | h :: t => String c h :: t
           | [] => [String c EmptyString]
           end
  end.

(** A byte that continues a character in UTF-8: [10xxxxxx]. *)
Definition is_continuation (c : ascii) : bool :=
  let n := nat_of_ascii c in (128 <=? n)%nat && (n <? 192)%nat.

Definition continues (s : string) : bool :=
  match s with
  | EmptyString => false
  | String c _ => is_continuation c
  end.

(** [list(s)]: the characters, each a string of one code point.  A
    string is the bytes of its UTF-8 encoding, so a character is a byte
    together with the continuation bytes that follow it. *)
Fixpoint chars (s : string) : list string :=
  match s with
  | EmptyString => []
  | String c s' =>
      match chars s' with
      | h :: t =>
          if continues s' then String c h :: t
          else String c EmptyString :: h :: t
      | [] => [String c EmptyString]
      end
  end.

(** [sep.join(parts)] *)
Definition join (sep : string) (parts : list string) : string :=
  String.concat sep parts.

(** [needle in s] *)
Fixpoint contains (needle s : string) : bool :=
  if String.prefix needle s then true
  else match s with
       | EmptyString => false
       | String _ s' => contains needle s'
       end.

End PyStr.

(** ** [app/services/video.py]: [wrap_text] *)

Module Wrap.
Import PyStr.
Local Open Scope string_scope.

(** The object [ImageFont.truetype(font, fontsize)] returns, as far as
    [wrap_text] uses it: [getbbox(text)] is [(left, top, right, bottom)]. *)
Record ImageFont : Type := {
  getbbox : string -> Z * Z * Z * Z
}.

Section wrap_text.

Variable font : ImageFont.
Variable max_width : Q.

Definition get_text_size (inner_text : string) : Z * Z :=
  let inner_text := strip inner_text in
  let '(x0, y0, x1, y1) := getbbox font inner_text in
  ((x1 - x0)%Z, (y1 - y0)%Z).

Definition fits (txt : string) : bool :=
  Qle_bool (inject_Z (fst (get_text_size txt))) max_width.

(** Lines 255-266: the word loop.  The result is [_txt_],
    [_wrapped_lines_] and [processed] when the loop is left. *)
Fixpoint word_loop (words : list string) (_txt_ : string)
         (_wrapped_lines_ : list string) : string * list string * bool :=
  match words with
  | [] => (_txt_, _wrapped_lines_, true)
  | word :: rest =>
      let _before := _txt_ in
      let _txt_ := _txt_ ++ word ++ " " in
      if fits _txt_ then word_loop rest _txt_ _wrapped_lines_
      else if String.eqb (strip _txt_) (strip word) then
             (_txt_, _wrapped_lines_, false)
           else word_loop rest (word ++ " ")
                          (_wrapped_lines_ ++ [_before])%list
  end.

(** Lines 278-285: the character loop. *)
Fixpoint char_loop (chars : list string) (_txt_ : string)
         (_wrapped_lines_ : list string) : string * list string :=
  match chars with
  | [] => (_txt_, _wrapped_lines_)
  | word :: rest =>
      let _txt_ := _txt_ ++ word in
      if fits _txt_ then char_loop rest _txt_ _wrapped_lines_
      else char_loop rest "" (_wrapped_lines_ ++ [_txt_])%list
  end.

(** Which branch returned, and the list [_wrapped_lines_] it joined. *)
Inductive Wrapped : Type :=
| Unwrapped (text : string)
| ByWords (lines : list string)
| ByChars (lines : list string).

Definition wrap_lines (text : string) : Wrapped :=
  if fits text then Unwrapped text
  else
    let words := split " " text in
    let '(_txt_, _wrapped_lines_, processed) := word_loop words "" [] in
    let _wrapped_lines_ := (_wrapped_lines_ ++ [_txt_])%list in
    if processed then ByWords (map strip _wrapped_lines_)
    else
      let '(_txt_, _wrapped_lines_) := char_loop (chars text) "" [] in
      ByChars (_wrapped_lines_ ++ [_txt_])%list.

(** [wrap_text(text, max_width, font, fontsize)]: the wrapped text and
    the height of the block. *)
Definition wrap_text (text : string) : string * Z :=
  let height := snd (get_text_size text) in
  match wrap_lines text with
  | Unwrapped t => (t, height)
  | ByWords _wrapped_lines_ =>
      (strip (join newline _wrapped_lines_),
       (Z.of_nat (List.length _wrapped_lines_) * height)%Z)
  | ByChars _wrapped_lines_ =>
      (strip (join newline _wrapped_lines_),
       (Z.of_nat (List.length _wrapped_lines_) * height)%Z)
  end.

(** The lines of the text [wrap_text] returns, and their widths as
    [get_text_size] measures them. *)
Definition emitted_lines (text : string) : list string :=
  split (ascii_of_nat 10) (fst (wrap_text text)).

Definition line_width (line : string) : Z := fst (get_text_size line).

(** A line is too wide when [get_text_size] measures more than
    [max_width]. *)
Definition too_wide (line : string) : Prop :=
  max_width < inject_Z (line_width line).

End wrap_text.

(** A font for examples: every character is [glyph_w] pixels wide and
    [glyph_h] high. *)
Definition fixed_width_font (glyph_w glyph_h : Z) : ImageFont :=
  {| getbbox := fun text =>
                  (0, 0, glyph_w * Z.of_nat (String.length text), glyph_h)%Z |}.

End Wrap.

(** ** moviepy audio clips *)

Module Audio.
Local Open Scope run_scope.

Inductive AudioEffect : Type :=
| MultiplyVolume (factor : Q)
| AudioFadeOut (duration : Q)
| AudioLoop (duration : Q).

#[local] Unset Elimination Schemes.

Inductive AudioClip : Type :=
| AudioFileClip (path : string) (file_duration : Q)
| Applied (effect : AudioEffect) (c : AudioClip)
| CompositeAudioClip (cs : list AudioClip).

#[local] Set Elimination Schemes.

(** [clip.duration]: scaling and fading keep it, a loop sets it, a
    composite lasts as long as its longest track. *)
Fixpoint duration (c : AudioClip) : Q :=
  match c with
  | AudioFileClip _ d => d
  | Applied (MultiplyVolume _) c' => duration c'
  | Applied (AudioFadeOut _) c' => duration c'
  | Applied (AudioLoop d) _ => d
  | CompositeAudioClip cs =>
      fold_right (fun x acc => Qmax (duration x) acc) 0 cs
  end.

(** [t] reduced into [[0, d)]: the position inside one repetition. *)
Definition Qmod (t d : Q) : Q := t - d * inject_Z (Qfloor (t / d)).

(** The gain a clip puts on its source at time [t]: a file plays at gain
    1 while it lasts; [MultiplyVolume(f)] multiplies by [f];
    [AudioFadeOut(d)] multiplies by [min((clip.duration - t) / d, 1)];
    [AudioLoop(duration=D)] plays the clip again and again, cut at [D];
    a composite adds its tracks. *)
Fixpoint gain (c : AudioClip) (t : Q) : Q :=
  match c with
  | AudioFileClip _ d => if Qle_bool 0 t && Qltb t d then 1 else 0
  | Applied (MultiplyVolume f) c' => f * gain c' t
  | Applied (AudioFadeOut d) c' =>
      py_min ((duration c' - t) / d) 1 * gain c' t
  | Applied (AudioLoop D) c' =>
      if Qle_bool 0 t && Qltb t D then gain c' (Qmod t (duration c')) else 0
  | CompositeAudioClip cs =>
      fold_right (fun x acc => gain x t + acc) 0 cs
  end.

(** [effect.apply(clip)].  [AudioLoop] computes
    [int(duration / clip.duration) + 1] repetitions, which divides by the
    length of the clip. *)
Definition apply (effect : AudioEffect) (clip : AudioClip) : Run AudioClip :=
  match effect with
  | AudioLoop D =>
      _ <- py_div D (duration clip) ;;
      Returned (Applied effect clip)
  | _ => Returned (Applied effect clip)
  end.

(** [clip.with_effects(effects)]: the effects are applied one after the
    other, in the order of the list. *)
Fixpoint with_effects (clip : AudioClip) (effects : list AudioEffect)
  : Run AudioClip :=
  match effects with
  | [] => Returned clip
  | effect :: rest =>
      clip' <- apply effect clip ;;
      with_effects clip' rest
  end.

End Audio.

(** ** [app/services/video.py]: [get_bgm_file] and [generate_video] *)

Module Render.
Import Schema PyStr Wrap.
Local Open Scope run_scope.
Local Open Scope string_scope.

(** What [generate_video] finds outside the program: the file system,
    the decoders, the font and the text renderer. *)
Record World : Type := {
  (** [os.path.exists(path)] *)
  path_exists : string -> bool;
  (** [glob.glob(os.path.join(utils.song_dir(), "*.mp3"))] *)
  song_files : list string;
  (** [AudioFileClip(path)]: the decoded clip, or the exception *)
  open_audio : string -> Run Audio.AudioClip;
  (** [VideoFileClip(video_path).duration] *)
  open_video_duration : string -> Q;
  (** [SubtitlesClip(subtitle_path).subtitles]: [((start, end), text)] *)
  read_subtitles : string -> list ((Q * Q) * string);
  (** [ImageFont.truetype(font_path, font_size)] *)
  load_font : ImageFont;
  (** [TextClip(text=...).h]: the rendered height of a text block *)
  text_clip_h : string -> Z
}.

(** Lines 33-46. *)
Definition get_bgm_file (w : World) (bgm_type bgm_file : string)
           (rng : Random.Rng) : Run (string * Random.Rng) :=
  if String.eqb bgm_type "" then Returned ("", rng)
  else if negb (String.eqb bgm_file "") && path_exists w bgm_file then
    Returned (bgm_file, rng)
  else if String.eqb bgm_type "random" then
    let files := song_files w in
    Random.choice files rng
  else Returned ("", rng).

(** The second component of [with_position(("center", y))]. *)
Inductive YPos : Type :=
| at_y (y : Q)
| centered.

(** Lines 351-357: the vertical position of a [custom] subtitle. *)
Definition custom_y (video_height clip_h : Z) (custom_position : Q) : Q :=
  let margin := 10%Z in
  let max_y := inject_Z (video_height - clip_h - margin) in
  let min_y := inject_Z margin in
  let custom_y := inject_Z (video_height - clip_h) * (custom_position / 100) in
  py_max min_y (py_min custom_y max_y).

(** A subtitle overlay: the text clip with its time window and place. *)
Record TextOverlay : Type := {
  text : string;
  t_start : Q;
  t_end : Q;
  overlay_duration : Q;
  position : YPos
}.

(** Lines 324-361. *)
Definition create_text_clip (w : World) (params : VideoParams)
           (video_width video_height : Z)
           (subtitle_item : (Q * Q) * string) : TextOverlay :=
  let phrase := snd subtitle_item in
  let max_width := inject_Z video_width * (9 # 10) in
  let '(wrapped_txt, txt_height) := wrap_text (load_font w) max_width phrase in
  let clip_h := text_clip_h w wrapped_txt in
  let duration := snd (fst subtitle_item) - fst (fst subtitle_item) in
  let pos :=
    if String.eqb (subtitle_position params) "bottom" then
      at_y (inject_Z video_height * (95 # 100) - inject_Z clip_h)
    else if String.eqb (subtitle_position params) "top" then
      at_y (inject_Z video_height * (5 # 100))
    else if String.eqb (subtitle_position params) "custom" then
      at_y (custom_y video_height clip_h (custom_position params))
    else centered in
  {| text := wrapped_txt;
     t_start := fst (fst subtitle_item);
     t_end := snd (fst subtitle_item);
     overlay_duration := duration;
     position := pos |}.

(** What [generate_video] hands to [write_videofile]: the subtitle
    overlays, the audio track, and the lines it logged as errors. *)
Record Rendered : Type := {
  text_clips : list TextOverlay;
  video_duration : Q;
  audio : Audio.AudioClip;
  error_log : list string;
  rng_after : Random.Rng
}.

(** Lines 385-397: the background music.  [get_bgm_file] is called
    before the [try]; the [try] covers opening the file, the effects
    and the mix. *)
Definition add_bgm (w : World) (params : VideoParams) (video_duration : Q)
           (audio_clip : Audio.AudioClip) (rng : Random.Rng)
  : Run (Audio.AudioClip * list string * Random.Rng) :=
  '(bgm_file, rng) <- get_bgm_file w (bgm_type params) (bgm_file params) rng ;;
  if negb (String.eqb bgm_file "") then
    let attempt :=
      file <- open_audio w bgm_file ;;
      bgm_clip <-
        Audio.with_effects file
          [ Audio.MultiplyVolume (bgm_volume params);
            Audio.AudioFadeOut 3;
            Audio.AudioLoop video_duration ] ;;
      Returned (Audio.CompositeAudioClip [audio_clip; bgm_clip]) in
    match attempt with
    | Returned mixed => Returned (mixed, [], rng)
    | Raised e => Returned (audio_clip, ["failed to add bgm"], rng)
    | OutOfFuel => OutOfFuel
    end
  else Returned (audio_clip, [], rng).

(** Lines 293-410. *)
Definition generate_video (w : World) (video_path audio_path subtitle_path : string)
           (params : VideoParams) (rng : Random.Rng) : Run Rendered :=
  let '(video_width, video_height) := to_resolution (video_aspect params) in
  let clip_duration := open_video_duration w video_path in
  voice <- open_audio w audio_path ;;
  audio_clip <- Audio.with_effects voice [Audio.MultiplyVolume (voice_volume params)] ;;
  let text_clips :=
    if negb (String.eqb subtitle_path "") && path_exists w subtitle_path then
      map (create_text_clip w params video_width video_height)
          (read_subtitles w subtitle_path)
    else [] in
  let video_duration :=
    fold_right (fun c acc => Qmax (t_end c) acc) clip_duration text_clips in
  '(audio_clip, log, rng) <- add_bgm w params video_duration audio_clip rng ;;
  Returned {| text_clips := text_clips;
              video_duration := video_duration;
              audio := audio_clip;
              error_log := log;
              rng_after := rng |}.

End Render.

(** ** [app/services/task.py] *)

Module Task.
Import Schema PyStr.
Local Open Scope string_scope.

(** [const.TASK_STATE_FAILED], [_COMPLETE], [_PROCESSING]. *)
Inductive TaskState : Type :=
| TASK_STATE_FAILED
| TASK_STATE_COMPLETE
| TASK_STATE_PROCESSING.

(** The calls [start] makes to the task store and to the services, with
    the arguments that matter downstream. *)
Inductive Event : Type :=
| update_task (state : option TaskState) (progress : option Q)
              (fields : list string)
| llm_generate_script
| llm_generate_terms
| write_script_json
| voice_tts
| voice_create_subtitle
| subtitle_create
| subtitle_correct
| preprocess_video (materials : option (list MaterialInfo))
                   (clip_duration : Z)
| download_videos (video_contact_mode : ConcatModeField)
                  (audio_duration : Z) (max_clip_duration : Z)
| combine_videos (index : Z) (video_concat_mode : ConcatModeField)
                 (video_transition_mode : option VideoTransitionMode)
| generate_video (index : Z).

(** What the services answer.  They are outside the pipeline; a run of
    [start] is determined by the request and by these answers. *)
Record Services : Type := {
  (** [llm.generate_script(...)], [None] read as the empty string *)
  script_answer : string;
  (** [llm.generate_terms(...)] *)
  terms_answer : list string;
  (** [voice.tts(...)]: [None], or a sub-maker whose audio lasts so long *)
  tts_answer : option Q;
  (** [config.app.get("subtitle_provider", "").strip().lower()] *)
  subtitle_provider : string;
  (** is [subtitle.srt] there after [voice.create_subtitle]? *)
  edge_file_written : bool;
  (** does [subtitle.file_to_subtitles] return any line? *)
  subtitle_lines_found : bool;
  (** the frame size [preprocess_video] reads from a material *)
  material_size : string -> Z * Z;
  (** is the extension of a material in [const.FILE_TYPE_IMAGES]? *)
  material_is_image : string -> bool;
  (** [material.download_videos(...)], by the concat mode it is given *)
  download_answer : ConcatModeField -> list string;
  (** does [video.combine_videos] raise for this output? *)
  combine_answer : Z -> ConcatModeField -> option VideoTransitionMode -> Run unit;
  (** does [video.generate_video] raise for this output? *)
  render_answer : Z -> Run unit
}.

(** A computation of the orchestrator: the calls it made, in order, and
    how it ended. *)
Definition T (A : Type) : Type := (list Event * Run A)%type.

Definition ret {A : Type} (a : A) : T A := ([], Returned a).

Definition bind {A B : Type} (m : T A) (k : A -> T B) : T B :=
  match m with
  | (es, Returned a) => let '(es', r) := k a in ((es ++ es')%list, r)
  | (es, Raised e) => (es, Raised e)
  | (es, OutOfFuel) => (es, OutOfFuel)
  end.

Definition call (e : Event) : T unit := ([e], Returned tt).

Definition lift {A : Type} (r : Run A) : T A := ([], r).

Declare Scope task_scope.
Delimit Scope task_scope with task.
Notation "x <- m ;; k" := (bind m (fun x => k))
  (at level 61, m at next level, right associativity) : task_scope.
Notation "m ;; k" := (bind m (fun _ => k))
  (at level 61, right associativity) : task_scope.
Local Open Scope task_scope.

(** [f"{task_dir}/{name}-{index}.mp4"] *)
Definition indexed_path (task_dir name : string) (index : Z) : string :=
  task_dir ++ "/" ++ name ++ "-"
    ++ DecimalString.NilZero.string_of_int (Z.to_int index) ++ ".mp4".

Section start.

Variable sv : Services.
Variable task_dir : string.

(** Lines 16-33. *)
Definition generate_script (params : VideoParams) : T (option string) :=
  let video_script := strip (Schema.video_script params) in
  video_script <-
    (if String.eqb video_script "" then
       call llm_generate_script ;; ret (script_answer sv)
     else ret video_script) ;;
  if String.eqb video_script "" then
    call (update_task (Some TASK_STATE_FAILED) None []) ;;
    ret None
  else ret (Some video_script).

(** Lines 36-58.  The separators are the comma and its full-width
    form; the characters of the embedding have only the first. *)
Definition generate_terms (params : VideoParams) (video_script : string)
  : T (option (list string)) :=
  video_terms <-
    match Schema.video_terms params with
    | terms_none => call llm_generate_terms ;; ret (terms_answer sv)
    | terms_str "" => call llm_generate_terms ;; ret (terms_answer sv)
    | terms_list [] => call llm_generate_terms ;; ret (terms_answer sv)
    | terms_str s => ret (map strip (split "," s))
    | terms_list l => ret (map strip l)
    end ;;
  match video_terms with
  | [] =>
      call (update_task (Some TASK_STATE_FAILED) None []) ;;
      ret None
  | _ => ret (Some video_terms)
  end.

(** Lines 61-70. *)
Definition save_script_data : T unit := call write_script_json.

(** Lines 73-93: the audio file and [math.ceil] of its length. *)
Definition generate_audio (params : VideoParams) (video_script : string)
  : T (option (string * Z)) :=
  let audio_file := task_dir ++ "/audio.mp3" in
  call voice_tts ;;
  match tts_answer sv with
  | None =>
      call (update_task (Some TASK_STATE_FAILED) None []) ;;
      ret None
  | Some seconds => ret (Some (audio_file, Qceiling seconds))
  end.

(** Lines 96-123. *)
Definition generate_subtitle (params : VideoParams) : T string :=
  if negb (subtitle_enabled params) then ret ""
  else
    let subtitle_path := task_dir ++ "/subtitle.srt" in
    subtitle_fallback <-
      (if String.eqb (subtitle_provider sv) "edge" then
         call voice_create_subtitle ;;
         ret (negb (edge_file_written sv))
       else ret false) ;;
    (if String.eqb (subtitle_provider sv) "whisper" || subtitle_fallback then
       call subtitle_create ;; call subtitle_correct
     else ret tt) ;;
    if negb (subtitle_lines_found sv) then ret ""
    else ret subtitle_path.

(** [video.preprocess_video] (video.py, lines 413-458): materials
    without a url or smaller than 480 pixels are passed over, an image
    is rendered to a clip and its url replaced; the list that comes
    back has an entry for every entry that went in. *)
Definition preprocess_material (material : MaterialInfo) : MaterialInfo :=
  if String.eqb (url material) "" then material
  else
    let '(width, height) := material_size sv (url material) in
    if (width <? 480)%Z || (height <? 480)%Z then material
    else if material_is_image sv (url material) then
      {| provider := provider material;
         url := url material ++ ".mp4";
         material_duration := material_duration material |}
    else material.

(** Lines 126-156.  [for material in materials] of [preprocess_video]
    raises [TypeError] when the request has no list of materials. *)
Definition get_video_materials (params : VideoParams)
           (video_terms : list string) (audio_duration : Z)
  : T (option (list string)) :=
  if String.eqb (video_source params) "local" then
    call (preprocess_video (video_materials params) (video_clip_duration params)) ;;
    materials <-
      lift (match video_materials params with
            | None => Raised TypeError
            | Some materials => Returned (map preprocess_material materials)
            end) ;;
    match materials with
    | [] =>
        call (update_task (Some TASK_STATE_FAILED) None []) ;;
        ret None
    | _ => ret (Some (map url materials))
    end
  else
    call (download_videos (Schema.video_concat_mode params)
                          (audio_duration * video_count params)
                          (video_clip_duration params)) ;;
    match download_answer sv (Schema.video_concat_mode params) with
    | [] =>
        call (update_task (Some TASK_STATE_FAILED) None []) ;;
        ret None
    | downloaded_videos => ret (Some downloaded_videos)
    end.

(** Lines 170-205: [for i in range(params.video_count)], with [todo]
    outputs still to make and [i] the next one.  [_progress] is a float
    from the first pass on: [50 / params.video_count / 2] is two float
    divisions and [+=] a float addition. *)
Fixpoint for_outputs (params : VideoParams)
         (video_concat_mode : ConcatModeField)
         (video_transition_mode : option VideoTransitionMode)
         (todo : nat) (i : Z) (_progress : Q)
         (final_video_paths combined_video_paths : list string)
  : T (list string * list string) :=
  match todo with
  | O => ret (final_video_paths, combined_video_paths)
  | S todo' =>
      let index := (i + 1)%Z in
      let combined_video_path := indexed_path task_dir "combined" index in
      call (combine_videos index video_concat_mode video_transition_mode) ;;
      lift (combine_answer sv index video_concat_mode video_transition_mode) ;;
      share <- lift (run_bind (Float64.div 50 (inject_Z (video_count params)))
                              (fun q => Float64.div q 2)) ;;
      let _progress := Float64.add _progress share in
      call (update_task None (Some _progress) []) ;;
      let final_video_path := indexed_path task_dir "final" index in
      call (generate_video index) ;;
      lift (render_answer sv index) ;;
      share <- lift (run_bind (Float64.div 50 (inject_Z (video_count params)))
                              (fun q => Float64.div q 2)) ;;
      let _progress := Float64.add _progress share in
      call (update_task None (Some _progress) []) ;;
      for_outputs params video_concat_mode video_transition_mode
                  todo' (i + 1)%Z _progress
                  (final_video_paths ++ [final_video_path])%list
                  (combined_video_paths ++ [combined_video_path])%list
  end.

(** Lines 159-207. *)
Definition generate_final_videos (params : VideoParams)
  : T (list string * list string) :=
  let video_concat_mode :=
    if (video_count params =? 1)%Z then Schema.video_concat_mode params
    else mode_enum random in
  let video_transition_mode := Schema.video_transition_mode params in
  let _progress := 50 in
  for_outputs params video_concat_mode video_transition_mode
              (Z.to_nat (video_count params)) 0%Z _progress [] [].

(** What [start] returns: [None], or the dictionary of the stage it
    stopped at. *)
Inductive Result : Type :=
| result_none
| result_script (script : string)
| result_terms (script : string) (terms : list string)
| result_audio (audio_file : string) (audio_duration : Z)
| result_subtitle (subtitle_path : string)
| result_materials (materials : list string)
| result_videos (videos combined_videos : list string).

(** [params.video_concat_mode = m] *)
Definition set_video_concat_mode (params : VideoParams) (m : ConcatModeField)
  : VideoParams :=
  {| video_subject := video_subject params;
     video_script := Schema.video_script params;
     video_terms := Schema.video_terms params;
     video_aspect := video_aspect params;
     video_concat_mode := m;
     video_transition_mode := Schema.video_transition_mode params;
     video_clip_duration := video_clip_duration params;
     video_count := video_count params;
     video_source := video_source params;
     video_materials := video_materials params;
     voice_volume := voice_volume params;
     bgm_type := bgm_type params;
     bgm_file := bgm_file params;
     bgm_volume := bgm_volume params;
     subtitle_enabled := subtitle_enabled params;
     subtitle_position := subtitle_position params;
     custom_position := custom_position params;
     font_name := font_name params |}.

(** [sm.state.update_task(task_id, state=const.TASK_STATE_FAILED)]
    followed by [return]. *)
Definition fail : T Result :=
  call (update_task (Some TASK_STATE_FAILED) None []) ;;
  ret result_none.

Definition processing (progress : Q) : T unit :=
  call (update_task (Some TASK_STATE_PROCESSING) (Some progress) []).

Definition complete (field : string) (r : Result) : T Result :=
  call (update_task (Some TASK_STATE_COMPLETE) (Some 100) [field]) ;;
  ret r.

(** Lines 302-357: materials and the final videos. *)
Definition start_materials (params : VideoParams) (stop_at : string)
           (video_script : string) (video_terms : list string)
           (audio_file : string) (audio_duration : Z)
           (subtitle_path : string) : T Result :=
  downloaded_videos <- get_video_materials params video_terms audio_duration ;;
  match downloaded_videos with
  | None => fail
  | Some downloaded_videos =>
      if String.eqb stop_at "materials" then
        complete "materials" (result_materials downloaded_videos)
      else
        processing 50 ;;
        paths <- generate_final_videos params ;;
        let '(final_video_paths, combined_video_paths) := paths in
        match final_video_paths with
        | [] => fail
        | _ =>
            call (update_task (Some TASK_STATE_COMPLETE) (Some 100)
                    ["videos"; "combined_videos"; "script"; "terms";
                     "audio_file"; "audio_duration"; "subtitle_path";
                     "materials"]) ;;
            ret (result_videos final_video_paths combined_video_paths)
        end
  end.

(** Lines 260-300: audio and subtitle. *)
Definition start_audio (params : VideoParams) (stop_at : string)
           (video_script : string) (video_terms : list string) : T Result :=
  audio <- generate_audio params video_script ;;
  match audio with
  | None => fail
  | Some (audio_file, audio_duration) =>
      processing 30 ;;
      if String.eqb stop_at "audio" then
        complete "audio_file" (result_audio audio_file audio_duration)
      else
        subtitle_path <- generate_subtitle params ;;
        if String.eqb stop_at "subtitle" then
          complete "subtitle_path" (result_subtitle subtitle_path)
        else
          processing 40 ;;
          start_materials params stop_at video_script video_terms
                          audio_file audio_duration subtitle_path
  end.

(** Lines 237-258: terms, and the script file. *)
Definition start_terms (params : VideoParams) (stop_at : string)
           (video_script : string) : T Result :=
  video_terms <-
    (if negb (String.eqb (video_source params) "local") then
       generate_terms params video_script
     else ret (Some [])) ;;
  match video_terms with
  | None => fail
  | Some video_terms =>
      save_script_data ;;
      if String.eqb stop_at "terms" then
        complete "terms" (result_terms video_script video_terms)
      else
        processing 20 ;;
        start_audio params stop_at video_script video_terms
  end.

(** Lines 210-357. *)
Definition start (params : VideoParams) (stop_at : string) : T Result :=
  processing 5 ;;
  params <-
    match Schema.video_concat_mode params with
    | mode_str s =>
        m <- lift (VideoConcatMode_of_str s) ;;
        ret (set_video_concat_mode params (mode_enum m))
    | mode_enum _ => ret params
    end ;;
  video_script <- generate_script params ;;
  match video_script with
  | None => fail
  | Some video_script =>
      if contains "Error: " video_script then fail
      else
        processing 10 ;;
        if String.eqb stop_at "script" then
          complete "script" (result_script video_script)
        else start_terms params stop_at video_script
  end.

End start.

(** The calls of a run, and its outcome. *)
Definition run_start (sv : Services) (task_dir : string)
           (params : VideoParams) (stop_at : string)
  : list Event * Run Result :=
  start sv task_dir params stop_at.

(** The writes to the task store among the calls of a run. *)
Definition writes (tr : list Event) : list (option TaskState * option Q) :=
  flat_map (fun e => match e with
                     | update_task st pr _ => [(st, pr)]
                     | _ => []
                     end) tr.

(** The progress values written, in order. *)
Definition progress_values (tr : list Event) : list Q :=
  flat_map (fun w => match snd w with
                     | Some p => [p]
                     | None => []
                     end) (writes tr).

(** The concat modes handed to the services that take one. *)
Definition modes_for_materials (tr : list Event) : list ConcatModeField :=
  flat_map (fun e => match e with
                     | download_videos m _ _ => [m]
                     | _ => []
                     end) tr.

Definition modes_for_combine (tr : list Event) : list ConcatModeField :=
  flat_map (fun e => match e with
                     | combine_videos _ m _ => [m]
                     | _ => []
                     end) tr.

(** [params.video_concat_mode] once [start] has turned a string into the
    member it names. *)
Definition configured_concat_mode (params : VideoParams) : ConcatModeField :=
  match Schema.video_concat_mode params with
  | mode_str s =>
      match VideoConcatMode_of_str s with
      | Returned m => mode_enum m
      | _ => mode_str s
      end
  | mode_enum m => mode_enum m
  end.

(** The progress values [ps] never fall, begin at [lo] or above and end
    at [hi] or below. *)
Fixpoint climbs (lo hi : Q) (ps : list Q) : Prop :=
  match ps with
  | [] => lo <= hi
  | p :: rest => lo <= p /\ climbs p hi rest
  end.

(** A call that writes progress 100 writes it with state Complete or
    with no state. *)
Definition hundred_is_complete_or_stateless (e : Event) : Prop :=
  match e with
  | update_task st (Some p) _ =>
      p == 100 -> st = Some TASK_STATE_COMPLETE \/ st = None
  | _ => True
  end.

(** A call that writes state Failed writes no progress. *)
Definition failed_has_no_progress (e : Event) : Prop :=
  match e with
  | update_task (Some TASK_STATE_FAILED) pr _ => pr = None
  | _ => True
  end.

Definition is_failed_write (e : Event) : Prop :=
  match e with
  | update_task (Some TASK_STATE_FAILED) _ _ => True
  | _ => False
  end.

(** A call that writes no progress, and one that writes none or 50 at
    most. *)
Definition writes_no_progress (e : Event) : Prop :=
  match e with
  | update_task _ (Some _) _ => False
  | _ => True
  end.

Definition writes_at_most_fifty (e : Event) : Prop :=
  match e with
  | update_task _ (Some p) _ => p <= 50
  | _ => True
  end.

Definition not_failed_write (e : Event) : Prop := ~ is_failed_write e.

(** A write that carries a state carries a progress between 5 and 100. *)
Definition stated_progress_on_scale (e : Event) : Prop :=
  match e with
  | update_task (Some _) (Some p) _ => 5 <= p /\ p <= 100
  | _ => True
  end.

(** A run either stays at 50 or below, or never writes Failed. *)
Definition half_or_clean {A : Type} (m : T A) : Prop :=
  Forall writes_at_most_fifty (fst m) \/ Forall not_failed_write (fst m).

(** The last call of a computation is the write of Complete and 100. *)
Definition ends_complete {A : Type} (m : T A) : Prop :=
  exists es fields,
    fst m = (es ++ [update_task (Some TASK_STATE_COMPLETE) (Some 100) fields])%list.

(** [body] is the calls [tr] but for a last write of Complete and 100,
    when [tr] ends with one. *)
Definition up_to_last_write (tr body : list Event) : Prop :=
  tr = body
  \/ exists fields,
       tr = (body ++ [update_task (Some TASK_STATE_COMPLETE) (Some 100)
                                  fields])%list.

(** Up to the last write, the progress values of a computation never
    fall and begin at [lo] or above. *)
Definition rises_to_last_write {A : Type} (lo : Q) (m : T A) : Prop :=
  exists body hi,
    up_to_last_write (fst m) body /\ climbs lo hi (progress_values body).

(** A call that takes a concat mode is handed [for_materials] when it
    fetches the materials and [for_combine] when it combines them. *)
Definition mode_handed (for_materials for_combine : ConcatModeField)
           (e : Event) : Prop :=
  match e with
  | download_videos m _ _ => m = for_materials
  | combine_videos _ m _ => m = for_combine
  | _ => True
  end.

End Task.

(** ** The claim about the background track, as it is worded *)

Module Stated.

(** The background track in the order the specification gives: scaled,
    looped to the length of the video, then faded out over the last three
    seconds of the looped track. *)
Definition bgm_scaled_looped_faded (bgm_volume video_duration : Q)
           (file : Audio.AudioClip) : Audio.AudioClip :=
  Audio.Applied (Audio.AudioFadeOut 3)
    (Audio.Applied (Audio.AudioLoop video_duration)
       (Audio.Applied (Audio.MultiplyVolume bgm_volume) file)).

(** C4 as it is worded: with more than one output, every service that
    is handed a concat mode, material acquisition included, is handed
    [random]. *)
Definition concat_mode_coerced_before_stage_one
           (sv : Task.Services) (task_dir : string)
           (params : Schema.VideoParams) (stop_at : string) : Prop :=
  (1 < Schema.video_count params)%Z ->
  let tr := fst (Task.run_start sv task_dir params stop_at) in
  Forall (fun m => m = Schema.mode_enum Schema.random)
         (Task.modes_for_materials tr ++ Task.modes_for_combine tr)%list.

(** C5 as it is worded: the progress values written never fall, stay
    within [[0, 100]], and 100 is written only together with state
    Complete. *)
Definition progress_hundred_only_with_complete
           (sv : Task.Services) (task_dir : string)
           (params : Schema.VideoParams) (stop_at : string) : Prop :=
  let tr := fst (Task.run_start sv task_dir params stop_at) in
  StronglySorted Qle (Task.progress_values tr)
  /\ Forall (fun p => 0 <= p /\ p <= 100) (Task.progress_values tr)
  /\ Forall (fun w => forall p, snd w = Some p -> p == 100 ->
                      fst w = Some Task.TASK_STATE_COMPLETE)
            (Task.writes tr).

End Stated.

(** ** Inputs used in the examples *)

Module Examples.
Import Schema.
Local Open Scope string_scope.

Definition source (p : string) (d : Q) (w h : Z) : Video.VideoFile :=
  {| Video.path := p; Video.file_duration := d; Video.file_size := (w, h) |}.

(** Three portrait sources of ten seconds each. *)
Definition three_sources : list Video.VideoFile :=
  [ source "a.mp4" 10 1080 1920;
    source "b.mp4" 10 1080 1920;
    source "c.mp4" 10 1080 1920 ].

(** A source that decodes to a clip of no length. *)
Definition still_source : Video.VideoFile := source "still.mp4" 0 1080 1920.

(** A landscape source, three seconds long. *)
Definition landscape_source : Video.VideoFile :=
  source "wide.mp4" 3 1920 1080.

(** The windows cut from [three_sources], five seconds each. *)
Definition three_sources_pool : list Clip.Clip :=
  Eval vm_compute in
    match Video.split_all random 5 10 three_sources [] with
    | Returned pool => pool
    | _ => []
    end.

(** A font whose glyphs are 60 pixels wide, as a 60-point CJK face is,
    and the width left to a subtitle on a 1080-pixel frame. *)
Definition wide_font : Wrap.ImageFont := Wrap.fixed_width_font 60%Z 60%Z.

Definition portrait_max_width : Q := inject_Z 1080 * (9 # 10).

(** Twenty characters without a space. *)
Definition unbroken_text : string := "abcdefghijklmnopqrst".

(** A request with the defaults of [VideoParams]. *)
Definition default_params : VideoParams :=
  {| video_subject := "subject";
     video_script := "";
     video_terms := terms_none;
     video_aspect := portrait;
     video_concat_mode := mode_enum random;
     video_transition_mode := None;
     video_clip_duration := 5;
     video_count := 1;
     video_source := "pexels";
     video_materials := None;
     voice_volume := 1;
     bgm_type := "random";
     bgm_file := "";
     bgm_volume := 2 # 10;
     subtitle_enabled := true;
     subtitle_position := "bottom";
     custom_position := 70;
     font_name := "STHeitiMedium.ttc" |}.

(** A machine on which every audio file decodes to ten seconds, the
    combined video lasts 25 seconds, and the song directory holds the
    given files. *)
Definition machine (songs : list string) : Render.World :=
  {| Render.path_exists := fun _ => false;
     Render.song_files := songs;
     Render.open_audio := fun p => Returned (Audio.AudioFileClip p 10);
     Render.open_video_duration := fun _ => 25;
     Render.read_subtitles := fun _ => [];
     Render.load_font := wide_font;
     Render.text_clip_h := fun _ => 60%Z |}.

(** The same machine, but the background track does not decode. *)
Definition machine_bad_song : Render.World :=
  {| Render.path_exists := fun _ => false;
     Render.song_files := ["song.mp3"];
     Render.open_audio :=
       fun p => if String.eqb p "song.mp3" then Raised OSError
                else Returned (Audio.AudioFileClip p 10);
     Render.open_video_duration := fun _ => 25;
     Render.read_subtitles := fun _ => [];
     Render.load_font := wide_font;
     Render.text_clip_h := fun _ => 60%Z |}.

(** Services that all answer without failing. *)
Definition services_ok : Task.Services :=
  {| Task.script_answer := "a script";
     Task.terms_answer := ["sky"];
     Task.tts_answer := Some (7 # 2);
     Task.subtitle_provider := "edge";
     Task.edge_file_written := true;
     Task.subtitle_lines_found := true;
     Task.material_size := fun _ => (1080, 1920)%Z;
     Task.material_is_image := fun _ => false;
     Task.download_answer := fun _ => ["clip.mp4"];
     Task.combine_answer := fun _ _ _ => Returned tt;
     Task.render_answer := fun _ => Returned tt |}.

(** A request for [count] outputs in sequential order, without a
    transition. *)
Definition sequential_params (count : Z) : VideoParams :=
  {| video_subject := "subject";
     video_script := "";
     video_terms := terms_none;
     video_aspect := portrait;
     video_concat_mode := mode_enum sequential;
     video_transition_mode := Some none;
     video_clip_duration := 5;
     video_count := count;
     video_source := "pexels";
     video_materials := None;
     voice_volume := 1;
     bgm_type := "random";
     bgm_file := "";
     bgm_volume := 2 # 10;
     subtitle_enabled := true;
     subtitle_position := "bottom";
     custom_position := 70;
     font_name := "STHeitiMedium.ttc" |}.

Definition landscape_clip : Clip.Clip :=
  Clip.with_fps
    (Clip.subclipped
       (Clip.without_audio (Clip.VideoFileClip "wide.mp4" 3 1920 1080)) 0 3)
    30.

End Examples.

(** ** The pool, source by source *)

Module Segments.
Import Clip Video.

(** [VideoFileClip(video_path).without_audio()] *)
Definition source_clip (f : VideoFile) : Clip :=
  without_audio
    (VideoFileClip (path f) (file_duration f)
                   (fst (file_size f)) (snd (file_size f))).

(** The first window cut from a source: from 0 to the smaller of
    [max_clip_duration] and the length of the source. *)
Definition first_window (max_clip_duration : Z) (f : VideoFile) : Clip :=
  subclipped (source_clip f) 0
             (py_min (0 + inject_Z max_clip_duration) (file_duration f)).

(** A source the loop of line 103 enters: [0 < clip_duration]. *)
Definition has_length (f : VideoFile) : bool := Qltb 0 (file_duration f).

(** The lengths of the sources, added up. *)
Definition sum_durations (video_paths : list VideoFile) : Q :=
  fold_right (fun f acc => file_duration f + acc) 0 video_paths.

(** [windows] are cut from [clip] one after the other: the first begins
    at [from], each of the others begins where the one before it ends,
    none is empty, and the last ends at [to]; there is none when [from]
    has reached [to]. *)
Fixpoint tiles (clip : Clip) (from to : Q) (windows : list Clip) : Prop :=
  match windows with
  | [] => to <= from
  | window :: rest =>
      exists end_time,
        window = subclipped clip from end_time
        /\ from < end_time /\ end_time <= to
        /\ tiles clip end_time to rest
  end.

(** The pool is the windows of the first source, then those of the
    second, and so on, and the windows of a source tile it from 0 to its
    length. *)
Definition tiled_pool (video_paths : list VideoFile) (pool : list Clip)
  : Prop :=
  exists groups : list (list Clip),
    pool = List.concat groups
    /\ Forall2 (fun f windows =>
                  tiles (source_clip f) 0 (file_duration f) windows)
               video_paths groups.

(** A length of a whole number of seconds, below [2 ^ 53]: on such
    lengths the float arithmetic of Python is exact. *)
Definition whole_seconds (d : Q) : Prop :=
  exists n : Z, d == inject_Z n /\ (0 <= n < 2 ^ 53)%Z.

(** A source with a frame of positive width and height. *)
Definition source_has_frame (f : VideoFile) : Prop :=
  (0 < fst (file_size f))%Z /\ (0 < snd (file_size f))%Z.

End Segments.


(** ** [start], taken apart *)

Module Orchestration.
Import Schema PyStr Task.
Local Open Scope string_scope.
Local Open Scope task_scope.

(** Lines 216-217 of [start]: the string of the request is turned into
    the member it names. *)
Definition conversion (params : VideoParams) : T VideoParams :=
  match Schema.video_concat_mode params with
  | mode_str s =>
      m <- lift (VideoConcatMode_of_str s) ;;
      ret (set_video_concat_mode params (mode_enum m))
  | mode_enum _ => ret params
  end.

(** Lines 219-357 of [start]: the stages. *)
Definition stages (sv : Services) (task_dir : string) (params : VideoParams)
           (stop_at : string) : T Result :=
  video_script <- generate_script sv params ;;
  match video_script with
  | None => fail
  | Some video_script =>
      if contains "Error: " video_script then fail
      else
        processing 10 ;;
        if String.eqb stop_at "script" then
          complete "script" (result_script video_script)
        else start_terms sv task_dir params stop_at video_script
  end.

(** A call that writes one of the two final states. *)
Definition writes_final_state (e : Event) : Prop :=
  match e with
  | update_task (Some TASK_STATE_FAILED) _ _ => True
  | update_task (Some TASK_STATE_COMPLETE) _ _ => True
  | _ => False
  end.

Definition no_final_state (e : Event) : Prop := ~ writes_final_state e.

(** The last call of a computation is a write of Failed. *)
Definition ends_failed {A : Type} (m : T A) : Prop :=
  exists es pr fields,
    fst m = (es ++ [update_task (Some TASK_STATE_FAILED) pr fields])%list.

(** How a run ends: with the write of Failed when it returns [None], with
    the write of Complete when it returns a result, and without either
    when it does not return. *)
Definition verdict (m : T Result) : Prop :=
  match snd m with
  | Returned result_none => ends_failed m
  | Returned _ => ends_complete m
  | _ => Forall no_final_state (fst m)
  end.

(** After a write of Failed nothing follows but writes of Failed. *)
Fixpoint halts (tr : list Event) : Prop :=
  match tr with
  | [] => True
  | e :: rest => (is_failed_write e -> Forall is_failed_write rest) /\ halts rest
  end.

(** A call of the assembly stage. *)
Definition is_assembly_call (e : Event) : Prop :=
  match e with
  | combine_videos _ _ _ => True
  | generate_video _ => True
  | _ => False
  end.

(** A material that [preprocess_video] renders to a clip: it has a url,
    is 480 pixels or more both ways, and is an image. *)
Definition rendered_from_image (sv : Services) (m : MaterialInfo) : Prop :=
  url m <> ""
  /\ (480 <= fst (material_size sv (url m)))%Z
  /\ (480 <= snd (material_size sv (url m)))%Z
  /\ material_is_image sv (url m) = true.

(** The path handed back for a material: the url with [.mp4] appended
    for a material rendered from an image, the url as it is for every
    other. *)
Definition handed_back (sv : Services) (m : MaterialInfo) (u : string)
  : Prop :=
  (rendered_from_image sv m /\ u = url m ++ ".mp4")
  \/ (~ rendered_from_image sv m /\ u = url m).

(** The paths [name-1.mp4] ... [name-n.mp4] of a task. *)
Definition numbered_paths (task_dir name : string) (n : nat) : list string :=
  map (fun k => indexed_path task_dir name (Z.of_nat k)) (seq 1 n).

End Orchestration.


(** ** Requests and services for the orchestrator's properties *)

Module Requests.
Import Schema.
Local Open Scope string_scope.

(** Services whose [video.combine_videos] raises. *)
Definition services_combine_raises : Task.Services :=
  {| Task.script_answer := "a script";
     Task.terms_answer := ["sky"];
     Task.tts_answer := Some (7 # 2);
     Task.subtitle_provider := "edge";
     Task.edge_file_written := true;
     Task.subtitle_lines_found := true;
     Task.material_size := fun _ => (1080, 1920)%Z;
     Task.material_is_image := fun _ => false;
     Task.download_answer := fun _ => ["clip.mp4"];
     Task.combine_answer := fun _ _ _ => Raised OSError;
     Task.render_answer := fun _ => Returned tt |}.

(** Services that find a photograph of 300 by 300 pixels and one of 1080
    by 1920 among the local materials. *)
Definition services_local : Task.Services :=
  {| Task.script_answer := "a script";
     Task.terms_answer := ["sky"];
     Task.tts_answer := Some (7 # 2);
     Task.subtitle_provider := "edge";
     Task.edge_file_written := true;
     Task.subtitle_lines_found := true;
     Task.material_size :=
       fun u => if String.eqb u "small.jpg" then (300, 300)%Z
                else (1080, 1920)%Z;
     Task.material_is_image := fun u => negb (String.eqb u "clip.mp4");
     Task.download_answer := fun _ => [];
     Task.combine_answer := fun _ _ _ => Returned tt;
     Task.render_answer := fun _ => Returned tt |}.

Definition local_material (u : string) : MaterialInfo :=
  {| provider := "local"; url := u; material_duration := 0 |}.

(** A request with its own script and three local materials. *)
Definition local_params : VideoParams :=
  {| video_subject := "subject";
     video_script := "  my own script ";
     video_terms := terms_none;
     video_aspect := portrait;
     video_concat_mode := mode_enum random;
     video_transition_mode := None;
     video_clip_duration := 5;
     video_count := 2;
     video_source := "local";
     video_materials :=
       Some [local_material "small.jpg"; local_material "clip.mp4";
             local_material "photo.jpg"];
     voice_volume := 1;
     bgm_type := "random";
     bgm_file := "";
     bgm_volume := 2 # 10;
     subtitle_enabled := true;
     subtitle_position := "bottom";
     custom_position := 70;
     font_name := "STHeitiMedium.ttc" |}.

End Requests.


(* ================================================================= *)
(** * Part II: properties *)
(* ================================================================= *)

(** ** Comparisons, [min] and [max] *)

Lemma Qltb_lt (a b : Q) : Qltb a b = true <-> a < b.
Proof.
  unfold Qltb. rewrite negb_true_iff.
  split; intro H.
  - apply Qnot_le_lt. intro Hle. apply Qle_bool_iff in Hle. congruence.
  - destruct (Qle_bool b a) eqn:E; [|reflexivity].
    apply Qle_bool_iff in E. exfalso. apply (Qlt_not_le _ _ H E).
Qed.

Lemma Qltb_ge (a b : Q) : Qltb a b = false <-> b <= a.
Proof.
  unfold Qltb. rewrite negb_false_iff. apply Qle_bool_iff.
Qed.

Lemma Qltb_spec (a b : Q) : reflect (a < b) (Qltb a b).
Proof.
  destruct (Qltb a b) eqn:E; constructor.
  - now apply Qltb_lt.
  - apply Qltb_ge in E. now apply Qle_not_lt.
Qed.

Lemma py_min_spec (a b : Q) :
  (b < a /\ py_min a b = b) \/ (a <= b /\ py_min a b = a).
Proof.
  unfold py_min. destruct (Qltb_spec b a) as [H|H]; [left|right]; split; auto.
  now apply Qnot_lt_le.
Qed.

Lemma py_max_spec (a b : Q) :
  (a < b /\ py_max a b = b) \/ (b <= a /\ py_max a b = a).
Proof.
  unfold py_max. destruct (Qltb_spec a b) as [H|H]; [left|right]; split; auto.
  now apply Qnot_lt_le.
Qed.

(** ** Subtitle position *)

Section CustomPosition.
Import Render.

Variables video_height clip_h : Z.
Variable custom_position : Q.

Let y := custom_y video_height clip_h custom_position.

Lemma custom_y_lower : inject_Z 10 <= y.
Proof.
  subst y. unfold custom_y.
  destruct (py_max_spec (inject_Z 10)
              (py_min (inject_Z (video_height - clip_h) * (custom_position / 100))
                      (inject_Z (video_height - clip_h - 10))))
    as [[H ->]|[H ->]].
  - now apply Qlt_le_weak.
  - apply Qle_refl.
Qed.

Lemma custom_y_upper_or_margin :
  y <= inject_Z (video_height - clip_h - 10) \/ y = inject_Z 10.
Proof.
  subst y. unfold custom_y.
  set (c := inject_Z (video_height - clip_h) * (custom_position / 100)).
  set (hi := inject_Z (video_height - clip_h - 10)).
  destruct (py_max_spec (inject_Z 10) (py_min c hi)) as [[H ->]|[H ->]].
  - left. destruct (py_min_spec c hi) as [[H1 ->]|[H1 ->]].
    + apply Qle_refl.
    + exact H1.
  - now right.
Qed.

End CustomPosition.

(** C9, as the code has it: the custom subtitle position lies within
    [[10, max(10, H - h - 10)]]; the upper end is [H - h - 10] for every
    block that leaves room for both margins, and for a taller block the
    position is the lower margin. *)
Theorem custom_y_bounds (video_height clip_h : Z) (custom_position : Q) :
  inject_Z 10 <= Render.custom_y video_height clip_h custom_position
  /\ Render.custom_y video_height clip_h custom_position
     <= inject_Z (Z.max 10 (video_height - clip_h - 10)).
Proof.
  split.
  - apply custom_y_lower.
  - destruct (custom_y_upper_or_margin video_height clip_h custom_position)
      as [H|H].
    + eapply Qle_trans; [exact H|].
      rewrite <- Zle_Qle. apply Z.le_max_r.
    + rewrite H. rewrite <- Zle_Qle. apply Z.le_max_l.
Qed.

(** When the block leaves room for both margins, the position is within
    [[10, H - h - 10]]. *)
Lemma custom_y_in_range (video_height clip_h : Z) (custom_position : Q) :
  (clip_h <= video_height - 20)%Z ->
  inject_Z 10 <= Render.custom_y video_height clip_h custom_position
  /\ Render.custom_y video_height clip_h custom_position
     <= inject_Z (video_height - clip_h - 10).
Proof.
  intro Hroom. split; [apply custom_y_lower|].
  destruct (custom_y_upper_or_margin video_height clip_h custom_position)
    as [H|H]; [exact H|].
  rewrite H. rewrite <- Zle_Qle. lia.
Qed.

(** A block taller than [H - 20] is placed at the lower margin. *)
Lemma custom_y_tall_block (video_height clip_h : Z) (custom_position : Q) :
  (video_height - 20 < clip_h)%Z ->
  Render.custom_y video_height clip_h custom_position = inject_Z 10.
Proof.
  intro Htall.
  destruct (custom_y_upper_or_margin video_height clip_h custom_position)
    as [H|H]; [|exact H].
  exfalso.
  pose proof (custom_y_lower video_height clip_h custom_position) as Hlo.
  pose proof (Qle_trans _ _ _ Hlo H) as Hbad.
  rewrite <- Zle_Qle in Hbad. lia.
Qed.

(** C9, as stated, fails: on a 1920-pixel frame a block 1910 pixels high
    is placed at 10, above the stated upper bound [1920 - 1910 - 10 = 0]. *)
Lemma custom_y_exceeds_upper_bound :
  ~ (inject_Z 10 <= Render.custom_y 1920 1910 70
     /\ Render.custom_y 1920 1910 70 <= inject_Z (1920 - 1910 - 10)).
Proof.
  intros [_ H]. vm_compute in H. apply H. reflexivity.
Qed.

(** ** Frame normalisation *)

Lemma py_div_returns (a b : Q) : ~ b == 0 -> py_div a b = Returned (a / b).
Proof.
  intro Hb. unfold py_div.
  destruct (Qeq_bool b 0) eqn:E; [|reflexivity].
  apply Qeq_bool_iff in E. contradiction.
Qed.

Lemma py_div_raises (a b : Q) : b == 0 -> py_div a b = Raised ZeroDivisionError.
Proof.
  intro Hb. unfold py_div.
  apply Qeq_bool_iff in Hb. now rewrite Hb.
Qed.

Lemma inject_Z_nonzero (n : Z) : (0 < n)%Z -> ~ inject_Z n == 0.
Proof.
  intros Hn Heq. unfold Qeq in Heq. simpl in Heq. lia.
Qed.

Lemma same_size_dec (w h W H : Z) :
  negb (w =? W)%Z || negb (h =? H)%Z = false <-> (w, h) = (W, H).
Proof.
  rewrite orb_false_iff, !negb_false_iff, !Z.eqb_eq.
  split; [intros [-> ->]; reflexivity | intro E; inversion E; auto].
Qed.

(** ** Rounding to binary64 *)

Section Rounding.
Import Float64.

Lemma pow2_pos (e : Z) : 0 < 2 ^ e.
Proof. now apply Qpower_0_lt. Qed.

Lemma pow2_plus (a b : Z) : 2 ^ (a + b) == 2 ^ a * 2 ^ b.
Proof. now apply Qpower_plus. Qed.

Lemma pow2_succ (a : Z) : 2 ^ (a + 1) == 2 * 2 ^ a.
Proof. rewrite pow2_plus. change (2 ^ 1) with (2 * 1). ring. Qed.

Lemma pow2_le (a b : Z) : (a <= b)%Z -> 2 ^ a <= 2 ^ b.
Proof. intro H. apply Qpower_le_compat_l; [exact H|discriminate]. Qed.

Lemma pow2_inject (a : Z) : (0 <= a)%Z -> inject_Z (2 ^ a) == 2 ^ a.
Proof. intro H. now rewrite Zpower_Qpower. Qed.

Lemma pow2_lt_inv (a b : Z) : 2 ^ a < 2 ^ b -> (a < b)%Z.
Proof. intro H. apply (Qpower_lt_compat_l_inv 2); [exact H|reflexivity]. Qed.

(** Division by a power of two and back. *)
Lemma scale_back (x : Q) (e : Z) : x / 2 ^ e * 2 ^ e == x.
Proof. field. apply Qpower_not_0. discriminate. Qed.

Lemma scale_le (k : Z) (x : Q) (e : Z) :
  inject_Z k * 2 ^ e <= x -> inject_Z k <= x / 2 ^ e.
Proof.
  intro H. apply Qle_shift_div_l; [apply pow2_pos|exact H].
Qed.

Lemma scale_lt (x : Q) (e b : Z) :
  x < 2 ^ (b + e) -> x / 2 ^ e < 2 ^ b.
Proof.
  intro H. apply Qlt_shift_div_r; [apply pow2_pos|].
  now rewrite <- pow2_plus.
Qed.

Lemma ilog2_spec (q : Q) :
  0 < q -> 2 ^ ilog2 q <= q /\ q < 2 ^ (ilog2 q + 1).
Proof.
  intro Hq. unfold ilog2.
  destruct q as [n d]. cbn [Qnum Qden].
  assert (Hn : (0 < n)%Z) by (unfold Qlt in Hq; cbn in Hq; lia).
  set (a := Z.log2 n). set (b := Z.log2 (Z.pos d)).
  assert (Ha0 : (0 <= a)%Z) by apply Z.log2_nonneg.
  assert (Hb0 : (0 <= b)%Z) by apply Z.log2_nonneg.
  destruct (Z.log2_spec n Hn) as [Ha1 Ha2]. fold a in Ha1, Ha2.
  destruct (Z.log2_spec (Z.pos d) eq_refl) as [Hb1 Hb2]. fold b in Hb1, Hb2.
  assert (HA : 0 < 2 ^ a) by apply pow2_pos.
  assert (HB : 0 < 2 ^ b) by apply pow2_pos.
  assert (EA : inject_Z (2 ^ a) == 2 ^ a) by now apply pow2_inject.
  assert (EB : inject_Z (2 ^ b) == 2 ^ b) by now apply pow2_inject.
  assert (EA' : inject_Z (2 ^ Z.succ a) == 2 * 2 ^ a)
    by (rewrite pow2_inject by lia; apply pow2_succ).
  assert (EB' : inject_Z (2 ^ Z.succ b) == 2 * 2 ^ b)
    by (rewrite pow2_inject by lia; apply pow2_succ).
  assert (N1 : 2 ^ a <= inject_Z n) by (rewrite <- EA; now rewrite <- Zle_Qle).
  assert (N2 : inject_Z n < 2 * 2 ^ a)
    by (rewrite <- EA'; now rewrite <- Zlt_Qlt).
  assert (D1 : 2 ^ b <= inject_Z (Z.pos d))
    by (rewrite <- EB; now rewrite <- Zle_Qle).
  assert (D2 : inject_Z (Z.pos d) < 2 * 2 ^ b)
    by (rewrite <- EB'; now rewrite <- Zlt_Qlt).
  assert (Eq : n # d == inject_Z n / inject_Z (Z.pos d)) by apply Qmake_Qdiv.
  assert (HD : 0 < inject_Z (Z.pos d)) by reflexivity.
  assert (Ee : 2 ^ (a - b) == 2 ^ a / 2 ^ b)
    by (apply Qpower_minus; discriminate).
  assert (Lo : 2 ^ (a - b) < 2 * (n # d)).
  { rewrite Ee, Eq. apply Qlt_shift_div_r; [exact HB|].
    assert (E : 2 * (inject_Z n / inject_Z (Z.pos d)) * 2 ^ b
                == (2 * inject_Z n * 2 ^ b) / inject_Z (Z.pos d))
      by (field; discriminate).
    rewrite E. apply Qlt_shift_div_l; [exact HD|]. nra. }
  assert (Hi : (n # d) < 2 * 2 ^ (a - b)).
  { rewrite Ee, Eq. apply Qlt_shift_div_r; [exact HD|].
    assert (E : 2 * (2 ^ a / 2 ^ b) * inject_Z (Z.pos d)
                == (2 * 2 ^ a * inject_Z (Z.pos d)) / 2 ^ b)
      by (field; apply Qpower_not_0; discriminate).
    rewrite E. apply Qlt_shift_div_l; [exact HB|]. nra. }
  destruct (Qle_bool (2 ^ (a - b)) (n # d)) eqn:C.
  - apply Qle_bool_iff in C. split; [exact C|].
    rewrite pow2_succ. exact Hi.
  - assert (C' : ~ 2 ^ (a - b) <= n # d)
      by (intro H; apply Qle_bool_iff in H; congruence).
    apply Qnot_le_lt in C'.
    replace (a - b - 1 + 1)%Z with (a - b)%Z by lia.
    split; [|exact C'].
    assert (E : 2 ^ (a - b) == 2 * 2 ^ (a - b - 1)).
    { rewrite <- pow2_succ. now replace (a - b - 1 + 1)%Z with (a - b)%Z by lia. }
    rewrite E in Lo. lra.
Qed.

Lemma ilog2_mono (p x : Q) : 0 < p -> p <= x -> (ilog2 p <= ilog2 x)%Z.
Proof.
  intros Hp Hx.
  destruct (ilog2_spec Hp) as [P1 _].
  assert (Hx0 : 0 < x) by lra.
  destruct (ilog2_spec Hx0) as [_ X2].
  assert (H : 2 ^ ilog2 p < 2 ^ (ilog2 x + 1)) by lra.
  apply pow2_lt_inv in H. lia.
Qed.

Lemma rint_floor (q : Q) : (Qfloor q <= rint q <= Qfloor q + 1)%Z.
Proof.
  unfold rint. destruct (Qcompare _ _); [destruct (Z.even _)| |]; lia.
Qed.

Lemma floor_above (k : Z) (q : Q) : inject_Z k <= q -> (k <= Qfloor q)%Z.
Proof.
  intro H. apply Qfloor_resp_le in H. now rewrite Qfloor_Z in H.
Qed.

Lemma floor_below (k : Z) (q : Q) : q < inject_Z k -> (Qfloor q < k)%Z.
Proof.
  intro H. rewrite Zlt_Qlt.
  apply Qle_lt_trans with q; [apply Qfloor_le|exact H].
Qed.

Lemma round_positive (x : Q) : 0 < x -> round x = round_pos x.
Proof.
  intro H. unfold round. apply Qgt_alt in H. now rewrite H.
Qed.

Lemma round_pos_nonneg (x : Q) : 0 < x -> 0 <= round_pos x.
Proof.
  intro H. unfold round_pos.
  apply Qmult_le_0_compat; [|apply Qlt_le_weak, pow2_pos].
  assert (H0 : (0 <= Qfloor (x / 2 ^ ulp_exponent x))%Z).
  { apply floor_above. apply Qle_shift_div_l; [apply pow2_pos|].
    change (inject_Z 0) with 0. lra. }
  pose proof (rint_floor (x / 2 ^ ulp_exponent x)) as [Hr _].
  change 0 with (inject_Z 0). rewrite <- Zle_Qle. lia.
Qed.

Lemma round_nonneg (x : Q) : 0 <= x -> 0 <= round x.
Proof.
  intro H. unfold round. destruct (Qcompare x 0) eqn:C.
  - apply Qle_refl.
  - apply Qlt_alt in C. lra.
  - apply Qgt_alt in C. now apply round_pos_nonneg.
Qed.

(** Rounding never goes below a representable number that the exact
    value has reached. *)
Lemma round_above (y x : Q) :
  representable y -> 0 < y -> y <= x -> y <= round x.
Proof.
  intros [k [e [Hy [Hk He]]]] Hy0 Hyx.
  assert (Hx0 : 0 < x) by lra.
  rewrite (round_positive Hx0). unfold round_pos.
  set (ex := ulp_exponent x).
  pose proof (rint_floor (x / 2 ^ ex)) as [Hr _].
  pose proof (pow2_pos ex) as Hpex.
  destruct (Z_le_gt_dec ex e) as [Hee|Hee].
  - (* y is a multiple of the last place of x *)
    assert (Ek : y == inject_Z (k * 2 ^ (e - ex)) * 2 ^ ex).
    { rewrite Hy, inject_Z_mult, pow2_inject by lia.
      rewrite <- Qmult_assoc, <- pow2_plus.
      now replace (e - ex + ex)%Z with e by lia. }
    assert (Hf : (k * 2 ^ (e - ex) <= Qfloor (x / 2 ^ ex))%Z).
    { apply floor_above, scale_le. rewrite <- Ek. exact Hyx. }
    rewrite Ek. apply Qmult_le_compat_r; [|now apply Qlt_le_weak].
    rewrite <- Zle_Qle. lia.
  - (* y lies below the binade of x *)
    assert (Hex : ex = (ilog2 x - 52)%Z) by (unfold ex, ulp_exponent in *; lia).
    destruct (ilog2_spec Hx0) as [X1 _].
    assert (Hf : (2 ^ 52 <= Qfloor (x / 2 ^ ex))%Z).
    { apply floor_above, scale_le. rewrite pow2_inject by lia.
      rewrite <- pow2_plus. now replace (52 + ex)%Z with (ilog2 x) by lia. }
    assert (Hy2 : y <= 2 ^ 53 * 2 ^ e).
    { rewrite Hy. apply Qmult_le_compat_r; [|apply Qlt_le_weak, pow2_pos].
      rewrite <- (pow2_inject (a:=53)) by lia. rewrite <- Zle_Qle. lia. }
    assert (Hy3 : 2 ^ 53 * 2 ^ e <= 2 ^ 52 * 2 ^ ex).
    { rewrite <- !pow2_plus. apply pow2_le. lia. }
    apply Qle_trans with (2 ^ 52 * 2 ^ ex); [lra|].
    apply Qmult_le_compat_r; [|now apply Qlt_le_weak].
    rewrite <- (pow2_inject (a:=52)) by lia. rewrite <- Zle_Qle. lia.
Qed.

Lemma round_representable (x : Q) : 0 < x -> representable (round x).
Proof.
  intro Hx0. rewrite (round_positive Hx0). unfold round_pos.
  set (ex := ulp_exponent x). set (m := rint (x / 2 ^ ex)).
  assert (Hex : (-1074 <= ex)%Z) by (unfold ex, ulp_exponent; lia).
  assert (Hex' : (ilog2 x - 52 <= ex)%Z) by (unfold ex, ulp_exponent; lia).
  destruct (ilog2_spec Hx0) as [_ X2].
  pose proof (rint_floor (x / 2 ^ ex)) as [Hr1 Hr2]. fold m in Hr1, Hr2.
  assert (Hf0 : (0 <= Qfloor (x / 2 ^ ex))%Z).
  { apply floor_above. apply Qle_shift_div_l; [apply pow2_pos|].
    change (inject_Z 0) with 0. lra. }
  assert (Hf1 : (Qfloor (x / 2 ^ ex) < 2 ^ 53)%Z).
  { apply floor_below. rewrite pow2_inject by lia. apply scale_lt.
    apply Qlt_le_trans with (2 ^ (ilog2 x + 1)); [exact X2|].
    apply pow2_le. lia. }
  destruct (Z.eq_dec m (2 ^ 53)) as [Hm|Hm].
  - exists (2 ^ 52)%Z, (ex + 1)%Z. split; [|split; lia].
    rewrite Hm, pow2_succ, !pow2_inject by lia.
    change (2 ^ 53) with (2 * 2 ^ 52). ring.
  - exists m, ex. split; [reflexivity|split; lia].
Qed.

(** Adding a number that is not negative to a binary64 number never
    gives less. *)
Lemma add_above (p s : Q) :
  representable p -> 0 < p -> 0 <= s -> p <= add p s.
Proof.
  intros Hp Hp0 Hs. unfold add. apply round_above; [exact Hp|exact Hp0|lra].
Qed.

Lemma add_representable (p s : Q) :
  0 < p -> 0 <= s -> representable (add p s).
Proof. intros Hp Hs. unfold add. apply round_representable. lra. Qed.

Lemma integer_representable (n : Z) :
  (0 <= n < 2 ^ 53)%Z -> representable (inject_Z n).
Proof.
  intro H. exists n, 0%Z. split; [|split; [exact H|lia]].
  change (2 ^ 0) with 1. ring.
Qed.


Lemma ilog2_unique (q : Q) (e : Z) :
  0 < q -> 2 ^ e <= q -> q < 2 ^ (e + 1) -> ilog2 q = e.
Proof.
  intros Hq H1 H2. destruct (ilog2_spec Hq) as [S1 S2].
  assert (A : 2 ^ e < 2 ^ (ilog2 q + 1)) by lra.
  assert (B : 2 ^ ilog2 q < 2 ^ (e + 1)) by lra.
  apply pow2_lt_inv in A. apply pow2_lt_inv in B. lia.
Qed.

Lemma ilog2_comp (x y : Q) : 0 < x -> x == y -> ilog2 x = ilog2 y.
Proof.
  intros Hx E. assert (Hy : 0 < y) by now rewrite <- E.
  destruct (ilog2_spec Hy) as [S1 S2].
  apply ilog2_unique; [exact Hx| |]; now rewrite E.
Qed.

Lemma rint_comp (x y : Q) : x == y -> rint x = rint y.
Proof.
  intro E. unfold rint. rewrite (Qfloor_comp _ _ E).
  assert (C : Qcompare (x - inject_Z (Qfloor y)) (1 # 2)
              = Qcompare (y - inject_Z (Qfloor y)) (1 # 2))
    by now rewrite E.
  now rewrite C.
Qed.

Lemma round_pos_comp (x y : Q) : 0 < x -> x == y -> round_pos x = round_pos y.
Proof.
  intros Hx E. unfold round_pos, ulp_exponent.
  rewrite (ilog2_comp Hx E).
  set (e := Z.max (ilog2 y - 52) (-1074)).
  assert (E' : x / 2 ^ e == y / 2 ^ e) by now rewrite E.
  now rewrite (rint_comp E').
Qed.

(** Two numbers that are equal round to the same float. *)
Lemma round_comp (x y : Q) : x == y -> round x = round y.
Proof.
  intro E. unfold round.
  assert (C : Qcompare x 0 = Qcompare y 0) by now rewrite E.
  rewrite <- C. destruct (Qcompare x 0) eqn:Cx; [reflexivity| |].
  - apply Qlt_alt in Cx. f_equal. apply round_pos_comp; [lra|now rewrite E].
  - apply Qgt_alt in Cx. now apply round_pos_comp.
Qed.

Lemma float_div_returns (a b : Q) :
  ~ b == 0 -> Float64.div a b = Returned (round (a / b)).
Proof.
  intro Hb. unfold Float64.div.
  destruct (Qeq_bool b 0) eqn:E; [|reflexivity].
  apply Qeq_bool_iff in E. contradiction.
Qed.

End Rounding.



(** The letterboxed clip of the example: a 1920 x 1080 source in a
    1080 x 1920 frame is scaled to 1080 x 607 over the black canvas. *)
Example fit_frame_letterbox :
  Video.fit_frame 1080 1920 Examples.landscape_clip
  = Returned
      (Clip.CompositeVideoClip
         [ Clip.with_duration (Clip.ColorClip (1080, 1920) (0, 0, 0))%Z (3 - 0);
           Clip.with_position
             (Clip.resized Examples.landscape_clip (1080, 607)%Z) "center" ]).
Proof. reflexivity. Qed.

(** The scaled size is what [int] makes of the float product: a clip of
    854 by 480 in a frame of 1920 by 1080 is scaled by the float
    [1920 / 854], and [854 * (1920 / 854)] is a float just below 1920. *)
Example fit_frame_float_sizes :
  Video.fit_frame 1920 1080 (Clip.VideoFileClip "small.mp4" 3 854 480)
  = Returned
      (Clip.CompositeVideoClip
         [ Clip.with_duration (Clip.ColorClip (1920, 1080) (0, 0, 0))%Z 3;
           Clip.with_position
             (Clip.resized (Clip.VideoFileClip "small.mp4" 3 854 480)
                           (1919, 1079)%Z) "center" ]).
Proof. vm_compute. reflexivity. Qed.

(** ** The [random] module: what a shuffle keeps *)

Section RandomFacts.
Import Random.
Context {A : Type}.

Lemma list_set_length (i : nat) (v : A) (x : list A) :
  List.length (list_set i v x) = List.length x.
Proof.
  revert i. induction x as [|h t IH]; intros [|i]; simpl; auto.
Qed.

Lemma list_set_Forall (P : A -> Prop) (i : nat) (v : A) (x : list A) :
  P v -> Forall P x -> Forall P (list_set i v x).
Proof.
  intros Hv. revert i.
  induction x as [|h t IH]; intros [|i] Hx; simpl; auto;
    inversion Hx; subst; constructor; auto.
Qed.

Lemma swap_length (i j : nat) (x : list A) :
  List.length (swap i j x) = List.length x.
Proof.
  unfold swap.
  destruct (nth_error x i); [|reflexivity].
  destruct (nth_error x j); [|reflexivity].
  now rewrite !list_set_length.
Qed.

Lemma swap_Forall (P : A -> Prop) (i j : nat) (x : list A) :
  Forall P x -> Forall P (swap i j x).
Proof.
  intro Hx. unfold swap.
  destruct (nth_error x i) as [xi|] eqn:Ei; [|exact Hx].
  destruct (nth_error x j) as [xj|] eqn:Ej; [|exact Hx].
  rewrite Forall_forall in Hx.
  apply list_set_Forall; [apply Hx; eapply nth_error_In; eauto|].
  apply list_set_Forall; [apply Hx; eapply nth_error_In; eauto|].
  now apply Forall_forall.
Qed.

Lemma shuffle_from_length (i : nat) (x : list A) (rng : Rng) :
  List.length (fst (shuffle_from i x rng)) = List.length x.
Proof.
  revert x rng. induction i as [|i IH]; intros x rng; [reflexivity|].
  cbn [shuffle_from].
  destruct (randbelow (S (S i)) rng) as [j rng'].
  rewrite IH. apply swap_length.
Qed.

Lemma shuffle_from_Forall (P : A -> Prop) (i : nat) (x : list A) (rng : Rng) :
  Forall P x -> Forall P (fst (shuffle_from i x rng)).
Proof.
  revert x rng. induction i as [|i IH]; intros x rng Hx; [exact Hx|].
  cbn [shuffle_from].
  destruct (randbelow (S (S i)) rng) as [j rng'].
  apply IH. now apply swap_Forall.
Qed.

Lemma shuffle_length (x : list A) (rng : Rng) :
  List.length (fst (shuffle x rng)) = List.length x.
Proof. apply shuffle_from_length. Qed.

Lemma shuffle_Forall (P : A -> Prop) (x : list A) (rng : Rng) :
  Forall P x -> Forall P (fst (shuffle x rng)).
Proof. apply shuffle_from_Forall. Qed.

Lemma randbelow_lt (n : nat) (rng : Rng) :
  (0 < n)%nat -> (fst (randbelow n rng) < n)%nat.
Proof.
  intro Hn. destruct rng as [|r rest]; simpl; [exact Hn|].
  apply Nat.mod_upper_bound. lia.
Qed.

(** [random.choice] of a non-empty sequence returns one of its items. *)
Lemma choice_returns (seq : list A) (rng : Rng) :
  seq <> [] ->
  exists x rng', choice seq rng = Returned (x, rng') /\ In x seq.
Proof.
  intro Hne. unfold choice.
  destruct seq as [|a seq']; [contradiction|].
  set (s := a :: seq') in *.
  pose proof (@randbelow_lt (List.length s) rng) as Hlt.
  destruct (randbelow (List.length s) rng) as [i rng'].
  simpl fst in Hlt.
  destruct (nth_error s i) as [x|] eqn:Ei.
  - exists x, rng'. split; [reflexivity|]. eapply nth_error_In; eauto.
  - apply nth_error_None in Ei.
    assert (0 < List.length s)%nat by (subst s; simpl; lia).
    specialize (Hlt H). lia.
Qed.

End RandomFacts.

(** ** [combine_videos]: the pool and the packing loop *)

Lemma to_resolution_positive (a : Schema.VideoAspect) :
  (0 < fst (Schema.to_resolution a))%Z /\ (0 < snd (Schema.to_resolution a))%Z.
Proof. destruct a; vm_compute; auto. Qed.

Section PoolFacts.
Import Clip Video.

Variable video_concat_mode : Schema.VideoConcatMode.
Variable max_clip_duration : Z.

Lemma split_clip_Forall (P : Clip -> Prop) (clip : Clip) :
  (forall s e, P (subclipped clip s e)) ->
  forall fuel clip_duration start_time raw_clips out,
    Forall P raw_clips ->
    split_clip video_concat_mode max_clip_duration fuel clip clip_duration
               start_time raw_clips = Returned out ->
    Forall P out.
Proof.
  intros Hwin. induction fuel as [|fuel IH];
    intros clip_duration start_time raw_clips out Hraw Hrun;
    cbn [split_clip] in Hrun; [discriminate|].
  destruct (Qltb start_time clip_duration).
  - assert (Hraw' : Forall P
              (raw_clips ++
               [subclipped clip start_time
                  (py_min (start_time + inject_Z max_clip_duration)
                          clip_duration)])).
    { apply Forall_app. split; [exact Hraw|]. constructor; auto. }
    destruct (String.eqb _ _).
    + inversion Hrun; subst. exact Hraw'.
    + eapply IH; eauto.
  - inversion Hrun; subst. exact Hraw.
Qed.

Lemma split_all_Forall (P : Clip -> Prop) (fuel : nat) :
  forall video_paths raw_clips out,
    Forall (fun f => forall s e,
              P (subclipped
                   (without_audio
                      (VideoFileClip (path f) (file_duration f)
                                     (fst (file_size f)) (snd (file_size f))))
                   s e)) video_paths ->
    Forall P raw_clips ->
    split_all video_concat_mode max_clip_duration fuel video_paths raw_clips
      = Returned out ->
    Forall P out.
Proof.
  induction video_paths as [|f rest IH]; intros raw_clips out Hfiles Hraw Hrun;
    cbn [split_all] in Hrun.
  - inversion Hrun; subst. exact Hraw.
  - inversion Hfiles as [|? ? Hf Hrest]; subst.
    destruct (split_clip video_concat_mode max_clip_duration fuel _ _ 0 raw_clips)
      as [raw'| |] eqn:E; cbn [run_bind] in Hrun; try discriminate.
    apply (IH raw' out Hrest); [|exact Hrun].
    eapply split_clip_Forall; [exact Hf|exact Hraw|exact E].
Qed.

(** A source that has no length gives no window. *)
Lemma split_all_no_window (fuel : nat) :
  forall video_paths raw_clips,
    Forall (fun f => file_duration f <= 0) video_paths ->
    video_paths <> [] ->
    split_all video_concat_mode max_clip_duration fuel video_paths raw_clips
    = match fuel with O => OutOfFuel | S _ => Returned raw_clips end.
Proof.
  induction video_paths as [|f rest IH]; intros raw_clips Hfiles Hne;
    [contradiction|].
  inversion Hfiles as [|? ? Hf Hrest]; subst.
  cbn [split_all]. destruct fuel as [|fuel]; [reflexivity|].
  cbn [split_clip duration].
  assert (E : Qltb 0 (file_duration f) = false) by now apply Qltb_ge.
  rewrite E. cbn [run_bind].
  destruct rest as [|g rest']; [reflexivity|].
  apply IH; [exact Hrest|discriminate].
Qed.

Lemma split_all_fuel (video_paths : list VideoFile) (raw_clips out : list Clip) :
  video_paths <> [] ->
  split_all video_concat_mode max_clip_duration 0 video_paths raw_clips
    <> Returned out.
Proof.
  destruct video_paths; [contradiction|]. intros _. discriminate.
Qed.

End PoolFacts.

Section PackFacts.
Import Clip Video.

Variable audio_duration : Q.
Variable video_transition_mode : option Schema.VideoTransitionMode.
Variable max_clip_duration : Z.
Variables video_width video_height : Z.

Hypothesis width_positive : (0 < video_width)%Z.
Hypothesis height_positive : (0 < video_height)%Z.

Let pack := pack audio_duration video_transition_mode max_clip_duration
                 video_width video_height.

(** With nothing in the pool the [for] loop adds nothing, and the
    [while] loop finds its condition unchanged for ever. *)
Lemma pack_empty_pool (fuel : nat) (st : PackState) :
  video_duration st < audio_duration ->
  pack fuel [] st = OutOfFuel.
Proof.
  intro Hlt. subst pack.
  induction fuel as [|fuel IH]; [reflexivity|].
  cbn [Video.pack for_raw_clips run_bind].
  apply Qltb_lt in Hlt. rewrite Hlt. exact IH.
Qed.

(** The normaliser returns for every clip that has a frame; it keeps
    the length of the clip. *)
Lemma fit_frame_returns (clip : Clip) :
  Clip.has_frame clip ->
  exists out,
    fit_frame video_width video_height clip = Returned out
    /\ size out = (video_width, video_height)
    /\ (0 <= duration clip -> duration out == duration clip).
Proof.
  intros [Hw Hh]. unfold fit_frame.
  destruct (size clip) as [w h] eqn:Hsize. simpl in Hw, Hh.
  destruct (negb (w =? video_width)%Z || negb (h =? video_height)%Z) eqn:Esame.
  - rewrite (float_div_returns _ (inject_Z_nonzero Hh)).
    rewrite (float_div_returns _ (inject_Z_nonzero height_positive)).
    cbn [run_bind].
    destruct (Qeq_bool _ _).
    + eexists; split; [reflexivity|]. split; [reflexivity|].
      intros _. reflexivity.
    + destruct (Qltb _ _).
      * rewrite (float_div_returns _ (inject_Z_nonzero Hw)). cbn [run_bind].
        eexists; split; [reflexivity|]. split; [reflexivity|].
        intro Hd. cbn [duration fold_right].
        rewrite (Q.max_l (duration clip) 0) by exact Hd.
        now rewrite Q.max_id.
      * rewrite (float_div_returns _ (inject_Z_nonzero Hh)). cbn [run_bind].
        eexists; split; [reflexivity|]. split; [reflexivity|].
        intro Hd. cbn [duration fold_right].
        rewrite (Q.max_l (duration clip) 0) by exact Hd.
        now rewrite Q.max_id.
  - apply same_size_dec in Esame.
    exists clip. split; [reflexivity|]. split; [congruence|].
    intros _. reflexivity.
Qed.

End PackFacts.

(** *** An empty pool *)

(** Sources without length give an empty pool, and [combine_videos] then
    neither returns nor raises, whatever the fuel. *)
Lemma combine_videos_no_window_diverges
      (video_paths : list Video.VideoFile) (audio_duration : Q)
      (video_aspect : Schema.VideoAspect)
      (video_concat_mode : Schema.VideoConcatMode)
      (video_transition_mode : option Schema.VideoTransitionMode)
      (max_clip_duration : Z) (rng : Random.Rng) :
  video_paths <> [] ->
  Forall (fun f => Video.file_duration f <= 0) video_paths ->
  0 < audio_duration ->
  forall fuel,
    Video.combine_videos fuel video_paths audio_duration video_aspect
                         video_concat_mode video_transition_mode
                         max_clip_duration rng = OutOfFuel.
Proof.
  intros Hne Hstill Haudio fuel. unfold Video.combine_videos.
  rewrite py_div_returns.
  2:{ apply inject_Z_nonzero. destruct video_paths; [contradiction|].
      simpl List.length. lia. }
  cbn [run_bind].
  destruct (Schema.to_resolution video_aspect) as [W H].
  rewrite split_all_no_window by assumption.
  destruct fuel as [|fuel]; [reflexivity|].
  cbn [run_bind].
  destruct (String.eqb _ _); cbn [Random.shuffle Random.shuffle_from List.length Nat.sub];
    now rewrite pack_empty_pool.
Qed.

(** C2, at the input where the code parts from it: one source of no
    length and twelve seconds of audio.  The pool is empty, and for every
    amount of fuel [combine_videos] is still running: it raises nothing. *)
Theorem combine_videos_empty_pool_hangs :
  forall fuel,
    Video.combine_videos fuel [Examples.still_source] 12 Schema.portrait
                         Schema.random (Some Schema.none) 5 [] = OutOfFuel.
Proof.
  intro fuel. apply combine_videos_no_window_diverges.
  - discriminate.
  - repeat constructor. discriminate.
  - reflexivity.
Qed.

(** With no source at all the division by [len(video_paths)] raises. *)
Lemma combine_videos_no_source_raises
      (fuel : nat) (audio_duration : Q) (video_aspect : Schema.VideoAspect)
      (video_concat_mode : Schema.VideoConcatMode)
      (video_transition_mode : option Schema.VideoTransitionMode)
      (max_clip_duration : Z) (rng : Random.Rng) :
  Video.combine_videos fuel [] audio_duration video_aspect video_concat_mode
                       video_transition_mode max_clip_duration rng
  = Raised ZeroDivisionError.
Proof. reflexivity. Qed.

(** *** The segment that is trimmed *)

(** C1, at the input where the code parts from it: three sources of ten
    seconds, windows of five, audio of twelve seconds.  The third segment
    is trimmed to the two seconds that remain, and the loop then appends
    the three segments left in the pool, each trimmed to nothing. *)
Theorem combine_videos_appends_after_trim :
  exists out,
    Video.combine_videos 10 Examples.three_sources 12 Schema.portrait
                         Schema.random (Some Schema.none) 5 [] = Returned out
    /\ map (fun c => Qred (Clip.duration c)) out = [5; 5; 2; 0; 0; 0]
    /\ Qred (Clip.total_duration out) = 12.
Proof.
  eexists. split; [vm_compute; reflexivity|]. split; vm_compute; reflexivity.
Qed.

(** *** Transitions *)

Lemma cons_not_self {A : Type} (x : A) (l : list A) : x :: l <> l.
Proof.
  intro E. apply (f_equal (@List.length A)) in E. simpl in E. lia.
Qed.

Section TransitionFacts.
Import Clip Video Schema.

Variable audio_duration : Q.
Variable max_clip_duration : Z.
Variables video_width video_height : Z.
Hypothesis width_positive : (0 < video_width)%Z.
Hypothesis height_positive : (0 < video_height)%Z.

(** Python's [None] has no [.value]. *)
Lemma apply_transition_None (clip : Clip) (rng : Random.Rng) :
  apply_transition None clip rng = Raised AttributeError.
Proof.
  unfold apply_transition.
  destruct (@choice_returns string ["left"; "right"; "top"; "bottom"]%string rng)
    as (side & rng' & -> & _); [discriminate|].
  reflexivity.
Qed.

(** A member of the enumeration never raises; only [none] leaves the
    clip without a further effect. *)
Lemma apply_transition_member (mode : VideoTransitionMode) (clip : Clip)
      (rng : Random.Rng) :
  exists out rng',
    apply_transition (Some mode) clip rng = Returned (out, rng')
    /\ (effects_of out = effects_of clip <-> mode = none)
    /\ duration out = duration clip
    /\ size out = size clip.
Proof.
  unfold apply_transition.
  destruct (@choice_returns string ["left"; "right"; "top"; "bottom"]%string rng)
    as (side & rng' & -> & _); [discriminate|].
  cbn [run_bind].
  destruct mode; cbn [transition_value value_eqb String.eqb Ascii.eqb Bool.eqb];
    try (eexists; eexists; split; [reflexivity|];
         split; [|split; reflexivity];
         split; [intro E; try reflexivity; exfalso;
                 cbn in E; exact (cons_not_self E)
                |intro E; try reflexivity; discriminate E]).
  (* shuffle *)
  match goal with
  | |- context [Random.choice ?fs rng'] =>
      destruct (@choice_returns _ fs rng') as (f & rng'' & -> & Hin);
        [discriminate|]
  end.
  cbn [run_bind].
  exists (f clip), rng''. split; [reflexivity|].
  simpl in Hin.
  destruct Hin as [<-|[<-|[<-|[<-|[]]]]];
    (split; [|split; reflexivity]);
    (split; [intro E; exfalso; cbn in E; exact (cons_not_self E)
            |intro E; discriminate E]).
Qed.

(** With [None] for the transition mode the first segment is never
    appended. *)
Lemma append_clip_None_raises (clip : Clip) (st : PackState) :
  Clip.has_frame clip ->
  append_clip audio_duration None max_clip_duration video_width video_height
              clip st = Raised AttributeError.
Proof.
  intro Hframe. unfold append_clip.
  match goal with
  | |- context [fit_frame _ _ ?c] =>
      destruct (@fit_frame_returns video_width video_height
                  height_positive c)
        as (out & -> & _)
  end.
  { destruct Hframe as [Hw Hh].
    destruct (Qltb _ _); [|destruct (Qltb _ _)]; split; exact Hw || exact Hh. }
  cbn [run_bind]. now rewrite apply_transition_None.
Qed.

Lemma pack_None_raises (fuel : nat) (clip : Clip) (rest : list Clip)
      (st : PackState) :
  Clip.has_frame clip ->
  video_duration st < audio_duration ->
  pack audio_duration None max_clip_duration video_width video_height
       (S fuel) (clip :: rest) st = Raised AttributeError.
Proof.
  intros Hframe Hlt. cbn [pack for_raw_clips].
  apply Qltb_lt in Hlt. rewrite Hlt.
  now rewrite append_clip_None_raises.
Qed.

End TransitionFacts.

(** C10: called with [None] for [video_transition_mode] (the default of
    the function and of [VideoParams]), [combine_videos] raises
    [AttributeError] as soon as the pool it built holds a segment: nothing
    is appended and no clip is passed on without a transition; a clip is
    passed on without one only for the member [VideoTransitionMode.none]. *)
Theorem combine_videos_None_transition
        (fuel : nat) (video_paths : list Video.VideoFile) (audio_duration : Q)
        (video_aspect : Schema.VideoAspect)
        (video_concat_mode : Schema.VideoConcatMode)
        (max_clip_duration : Z) (rng : Random.Rng) (pool : list Clip.Clip) :
  Video.split_all video_concat_mode max_clip_duration fuel video_paths []
    = Returned pool ->
  pool <> [] ->
  0 < audio_duration ->
  Forall (fun f => (0 < fst (Video.file_size f))%Z
                   /\ (0 < snd (Video.file_size f))%Z) video_paths ->
  Video.combine_videos fuel video_paths audio_duration video_aspect
                       video_concat_mode None max_clip_duration rng
    = Raised AttributeError
  /\ forall (mode : Schema.VideoTransitionMode) (clip : Clip.Clip)
            (rng0 : Random.Rng),
       exists out rng1,
         Video.apply_transition (Some mode) clip rng0 = Returned (out, rng1)
         /\ (Clip.effects_of out = Clip.effects_of clip
             <-> mode = Schema.none).
Proof.
  intros Hsplit Hpool Haudio Hframes. split.
  - assert (Hfiles : video_paths <> []).
    { intro E. subst. cbn in Hsplit. inversion Hsplit. congruence. }
    destruct fuel as [|fuel].
    { exfalso. revert Hsplit. now apply split_all_fuel. }
    assert (Hpf : Forall Clip.has_frame pool).
    { eapply split_all_Forall; [|constructor|exact Hsplit].
      eapply Forall_impl; [|exact Hframes].
      intros f Hf s e. exact Hf. }
    unfold Video.combine_videos.
    rewrite py_div_returns.
    2:{ apply inject_Z_nonzero. destruct video_paths; [contradiction|].
        simpl List.length. lia. }
    cbn [run_bind].
    destruct (to_resolution_positive video_aspect) as [HW HH].
    destruct (Schema.to_resolution video_aspect) as [W H]. simpl in HW, HH.
    rewrite Hsplit. cbn [run_bind].
    assert (Hstart : forall (pool' : list Clip.Clip) (rng' : Random.Rng),
               Forall Clip.has_frame pool' -> List.length pool' = List.length pool ->
               Video.pack audio_duration None max_clip_duration W H (S fuel) pool'
                 {| Video.clips := []; Video.video_duration := 0; Video.rng := rng' |}
               = Raised AttributeError).
    { intros pool' rng' Hf Hlen.
      destruct pool' as [|c rest].
      - destruct pool; [contradiction|discriminate].
      - inversion Hf; subst. now apply pack_None_raises. }
    destruct (String.eqb _ _).
    + pose proof (shuffle_Forall rng Hpf) as Hf.
      pose proof (shuffle_length pool rng) as Hlen.
      destruct (Random.shuffle pool rng) as [pool' rng'].
      now rewrite Hstart.
    + now rewrite Hstart.
  - intros mode clip rng0.
    destruct (apply_transition_member mode clip rng0)
      as (out & rng1 & Hrun & Heff & _).
    now exists out, rng1.
Qed.

Lemma combine_videos_None_transition_witness :
  Video.split_all Schema.random 5 10 Examples.three_sources []
    = Returned Examples.three_sources_pool
  /\ Examples.three_sources_pool <> []
  /\ 0 < 12
  /\ Forall (fun f => (0 < fst (Video.file_size f))%Z
                      /\ (0 < snd (Video.file_size f))%Z) Examples.three_sources
  /\ Video.combine_videos 10 Examples.three_sources 12 Schema.portrait
                          Schema.random None 5 [] = Raised AttributeError.
Proof.
  assert (H1 : Video.split_all Schema.random 5 10 Examples.three_sources []
               = Returned Examples.three_sources_pool)
    by (vm_compute; reflexivity).
  assert (H2 : Examples.three_sources_pool <> []) by discriminate.
  assert (H3 : 0 < 12) by reflexivity.
  assert (H4 : Forall (fun f => (0 < fst (Video.file_size f))%Z
                                /\ (0 < snd (Video.file_size f))%Z)
                      Examples.three_sources)
    by (repeat constructor).
  split; [exact H1|]. split; [exact H2|]. split; [exact H3|].
  split; [exact H4|].
  exact (proj1 (@combine_videos_None_transition
                  10 Examples.three_sources 12 Schema.portrait Schema.random
                  5 [] Examples.three_sources_pool H1 H2 H3 H4)).
Defined.

(** ** [wrap_text] *)

Section WrapFacts.
Import Wrap.

Variable font : ImageFont.
Variable max_width : Q.

Lemma fits_false (line : string) :
  fits font max_width line = false <-> too_wide font max_width line.
Proof.
  unfold fits, too_wide, line_width. split; intro H.
  - apply Qnot_le_lt. intro Hle. apply Qle_bool_iff in Hle. congruence.
  - destruct (Qle_bool _ _) eqn:E; [|reflexivity].
    apply Qle_bool_iff in E. exfalso. exact (Qlt_not_le _ _ H E).
Qed.

Lemma fits_true (line : string) :
  fits font max_width line = true <->
  inject_Z (line_width font line) <= max_width.
Proof. unfold fits, line_width. apply Qle_bool_iff. Qed.

(** Every line the character loop closes is closed after the character
    that made it too wide was added. *)
Lemma char_loop_closes_too_late (chars : list string) :
  forall _txt_ _wrapped_lines_,
    Forall (too_wide font max_width) _wrapped_lines_ ->
    Forall (too_wide font max_width)
           (snd (char_loop font max_width chars _txt_ _wrapped_lines_)).
Proof.
  induction chars as [|c rest IH]; intros txt lines Hlines; [exact Hlines|].
  cbn [char_loop].
  destruct (fits font max_width (txt ++ c)) eqn:E.
  - now apply IH.
  - apply IH. apply Forall_app. split; [exact Hlines|].
    constructor; [|constructor]. now apply fits_false.
Qed.

(** The open line of the character loop always fits, if the empty line
    does. *)
Lemma char_loop_open_line_fits (chars : list string) :
  forall _txt_ _wrapped_lines_,
    fits font max_width _txt_ = true ->
    fits font max_width "" = true ->
    fits font max_width
         (fst (char_loop font max_width chars _txt_ _wrapped_lines_)) = true.
Proof.
  induction chars as [|c rest IH]; intros txt lines Htxt Hempty; [exact Htxt|].
  cbn [char_loop].
  destruct (fits font max_width (txt ++ c)) eqn:E; now apply IH.
Qed.

(** In the character fallback every line but the last is too wide. *)
Lemma wrap_lines_by_chars (text : string) (lines : list string) :
  wrap_lines font max_width text = ByChars lines ->
  exists closed last,
    lines = (closed ++ [last])%list
    /\ Forall (too_wide font max_width) closed.
Proof.
  unfold wrap_lines. intro H.
  destruct (fits font max_width text); [discriminate|].
  destruct (word_loop _ _ _ _ _) as [[wtxt wlines] processed].
  destruct processed; [discriminate|].
  pose proof (@char_loop_closes_too_late (PyStr.chars text) "" []
                (Forall_nil _)) as Hclosed.
  destruct (char_loop font max_width (PyStr.chars text) "" [])
    as [ctxt clines].
  inversion H; subst. exists clines, ctxt. split; [reflexivity|exact Hclosed].
Qed.

End WrapFacts.

(** C3, at the input where the code parts from it: twenty characters
    without a space, glyphs 60 pixels wide, and the 972 pixels a subtitle
    may take on a 1080-pixel frame.  The text goes to the character
    fallback, and its first line is closed after the seventeenth
    character: 1020 pixels. *)
Theorem wrap_text_char_fallback_overflows :
  Wrap.wrap_lines Examples.wide_font Examples.portrait_max_width
                  Examples.unbroken_text
    = Wrap.ByChars ["abcdefghijklmnopq"; "rst"]%string
  /\ Wrap.emitted_lines Examples.wide_font Examples.portrait_max_width
                        Examples.unbroken_text
     = ["abcdefghijklmnopq"; "rst"]%string
  /\ map (Wrap.line_width Examples.wide_font)
         (Wrap.emitted_lines Examples.wide_font Examples.portrait_max_width
                             Examples.unbroken_text)
     = [1020; 180]%Z
  /\ Wrap.too_wide Examples.wide_font Examples.portrait_max_width
                   "abcdefghijklmnopq".
Proof.
  repeat split; vm_compute; reflexivity.
Qed.

(** A word that is too wide on its own goes to the character fallback
    only when it opens the text.  After a word that fits it is kept as a
    line of the word wrap. *)
Example wrap_text_wide_word_kept :
  Wrap.wrap_lines Examples.wide_font Examples.portrait_max_width
                  "hi abcdefghijklmnopqrst"
    = Wrap.ByWords ["hi"; "abcdefghijklmnopqrst"]%string
  /\ Wrap.too_wide Examples.wide_font Examples.portrait_max_width
                   "abcdefghijklmnopqrst".
Proof.
  split; vm_compute; reflexivity.
Qed.

(** ** Background music *)

Lemma Qmod_bounds (t d : Q) : 0 < d -> 0 <= Audio.Qmod t d /\ Audio.Qmod t d < d.
Proof.
  intro Hd. unfold Audio.Qmod.
  pose proof (Qfloor_le (t / d)) as Hlo.
  pose proof (Qlt_floor (t / d)) as Hhi.
  rewrite inject_Z_plus in Hhi.
  set (f := inject_Z (Qfloor (t / d))) in *.
  assert (Ht : t == (t / d) * d).
  { field. intro E. rewrite E in Hd. discriminate. }
  set (x := t / d) in *.
  split.
  - rewrite Ht at 1. nra.
  - rewrite Ht at 1. change (inject_Z 1) with 1 in Hhi. nra.
Qed.

(** The track the code builds from a decoded file: scaled, faded over
    the last three seconds of the file, then looped. *)
Lemma with_effects_bgm (file : Audio.AudioClip) (v D : Q) :
  ~ Audio.duration file == 0 ->
  Audio.with_effects file
    [Audio.MultiplyVolume v; Audio.AudioFadeOut 3; Audio.AudioLoop D]
  = Returned (Audio.Applied (Audio.AudioLoop D)
                (Audio.Applied (Audio.AudioFadeOut 3)
                   (Audio.Applied (Audio.MultiplyVolume v) file))).
Proof.
  intro Hd. cbn [Audio.with_effects Audio.apply run_bind Audio.duration].
  now rewrite py_div_returns.
Qed.

(** What the looped track plays at [t]: the place [t mod d] of the faded
    file. *)
Lemma gain_bgm (p : string) (d v D t : Q) :
  0 < d -> 0 <= t -> t < D ->
  Audio.gain (Audio.Applied (Audio.AudioLoop D)
                (Audio.Applied (Audio.AudioFadeOut 3)
                   (Audio.Applied (Audio.MultiplyVolume v)
                      (Audio.AudioFileClip p d)))) t
  == py_min ((d - Audio.Qmod t d) / 3) 1 * v.
Proof.
  intros Hd Ht HtD. cbn [Audio.gain Audio.duration].
  apply Qle_bool_iff in Ht. apply Qltb_lt in HtD. rewrite Ht, HtD.
  cbn [andb].
  destruct (Qmod_bounds t Hd) as [Hlo Hhi].
  apply Qle_bool_iff in Hlo. apply Qltb_lt in Hhi. rewrite Hlo, Hhi.
  cbn [andb]. ring.
Qed.

(** C7, as the code has it: the background track is scaled by
    [bgm_volume], faded out over the last three seconds of the decoded
    file, and only then looped to the length of the video, before it is
    added to the voice.  At time [t] the track therefore plays the place
    [t mod d] of the faded file: there is a fade at the end of every
    repetition, and the end of the video fades only where it falls into
    the last three seconds of a repetition. *)
Theorem generate_video_bgm_faded_then_looped
        (w : Render.World) (params : Schema.VideoParams)
        (video_path audio_path subtitle_path : string) (rng rng' : Random.Rng)
        (bgm : string) (voice : Audio.AudioClip) (d : Q) :
  Render.get_bgm_file w (Schema.bgm_type params) (Schema.bgm_file params) rng
    = Returned (bgm, rng') ->
  bgm <> ""%string ->
  Render.open_audio w audio_path = Returned voice ->
  Render.open_audio w bgm = Returned (Audio.AudioFileClip bgm d) ->
  0 < d ->
  exists r track,
    Render.generate_video w video_path audio_path subtitle_path params rng
      = Returned r
    /\ track
       = Audio.Applied (Audio.AudioLoop (Render.video_duration r))
           (Audio.Applied (Audio.AudioFadeOut 3)
              (Audio.Applied (Audio.MultiplyVolume (Schema.bgm_volume params))
                 (Audio.AudioFileClip bgm d)))
    /\ Render.audio r
       = Audio.CompositeAudioClip
           [ Audio.Applied (Audio.MultiplyVolume (Schema.voice_volume params))
                           voice;
             track ]
    /\ Render.error_log r = []
    /\ (forall t, 0 <= t -> t < Render.video_duration r ->
          Audio.gain track t
          == py_min ((d - Audio.Qmod t d) / 3) 1 * Schema.bgm_volume params)
    /\ (forall t,
          Audio.gain (Render.audio r) t
          == Audio.gain (Audio.Applied
                           (Audio.MultiplyVolume (Schema.voice_volume params))
                           voice) t
             + Audio.gain track t).
Proof.
  intros Hpick Hbgm Hvoice Hfile Hd.
  unfold Render.generate_video.
  destruct (Schema.to_resolution (Schema.video_aspect params)) as [W H].
  rewrite Hvoice. cbn [run_bind Audio.with_effects Audio.apply].
  unfold Render.add_bgm. rewrite Hpick. cbn [run_bind].
  assert (Enon : String.eqb bgm "" = false) by now apply String.eqb_neq.
  rewrite Enon. cbn [negb]. rewrite Hfile. cbn [run_bind].
  rewrite with_effects_bgm.
  2:{ cbn [Audio.duration]. intro E. rewrite E in Hd. discriminate. }
  cbn [run_bind].
  eexists. eexists. split; [reflexivity|].
  cbn [Render.video_duration Render.audio Render.error_log].
  split; [reflexivity|]. split; [reflexivity|]. split; [reflexivity|].
  split.
  - intros t Ht HtD. now apply gain_bgm.
  - intro t. cbn [Audio.gain fold_right]. ring.
Qed.

Lemma generate_video_bgm_faded_then_looped_witness :
  Render.get_bgm_file (Examples.machine ["song.mp3"%string]) "random" "" []
    = Returned ("song.mp3"%string, [])
  /\ "song.mp3"%string <> ""%string
  /\ Render.open_audio (Examples.machine ["song.mp3"%string]) "audio.mp3"
     = Returned (Audio.AudioFileClip "audio.mp3" 10)
  /\ Render.open_audio (Examples.machine ["song.mp3"%string]) "song.mp3"
     = Returned (Audio.AudioFileClip "song.mp3" 10)
  /\ 0 < 10
  /\ exists r,
       Render.generate_video (Examples.machine ["song.mp3"%string])
                             "combined-1.mp4" "audio.mp3" ""
                             Examples.default_params [] = Returned r
       /\ Render.error_log r = [].
Proof.
  assert (H1 : Render.get_bgm_file (Examples.machine ["song.mp3"%string])
                 "random" "" [] = Returned ("song.mp3"%string, []))
    by reflexivity.
  assert (H2 : "song.mp3"%string <> ""%string) by discriminate.
  assert (H3 : Render.open_audio (Examples.machine ["song.mp3"%string])
                 "audio.mp3" = Returned (Audio.AudioFileClip "audio.mp3" 10))
    by reflexivity.
  assert (H4 : Render.open_audio (Examples.machine ["song.mp3"%string])
                 "song.mp3" = Returned (Audio.AudioFileClip "song.mp3" 10))
    by reflexivity.
  assert (H5 : 0 < 10) by reflexivity.
  split; [exact H1|]. split; [exact H2|]. split; [exact H3|].
  split; [exact H4|]. split; [exact H5|].
  destruct (@generate_video_bgm_faded_then_looped
              (Examples.machine ["song.mp3"%string]) Examples.default_params
              "combined-1.mp4" "audio.mp3" "" [] [] "song.mp3"
              (Audio.AudioFileClip "audio.mp3" 10) 10 H1 H2 H3 H4 H5)
    as (r & track & Hrun & _ & _ & Hlog & _).
  exists r. split; [exact Hrun|exact Hlog].
Defined.

(** C7, as stated, fails: with a ten-second song under a 25-second video
    the track the code mixes in is not the one that is scaled, looped and
    then faded.  One second before the end of the first repetition it has
    faded to a third, where the stated track is at full volume; one second
    before the end of the video it is at full volume, where the stated
    track has faded to a third. *)
Lemma bgm_fade_is_not_at_the_end :
  exists r voice track,
    Render.generate_video (Examples.machine ["song.mp3"%string])
                          "combined-1.mp4" "audio.mp3" ""
                          Examples.default_params [] = Returned r
    /\ Render.audio r = Audio.CompositeAudioClip [voice; track]
    /\ track <> Stated.bgm_scaled_looped_faded
                  (2 # 10) 25 (Audio.AudioFileClip "song.mp3" 10)
    /\ Audio.gain track 9 == 1 # 15
    /\ Audio.gain track 24 == 1 # 5
    /\ Audio.gain (Stated.bgm_scaled_looped_faded
                     (2 # 10) 25 (Audio.AudioFileClip "song.mp3" 10)) 9
       == 1 # 5
    /\ Audio.gain (Stated.bgm_scaled_looped_faded
                     (2 # 10) 25 (Audio.AudioFileClip "song.mp3" 10)) 24
       == 1 # 15.
Proof.
  eexists. eexists. eexists.
  split; [vm_compute; reflexivity|].
  split; [reflexivity|].
  split; [discriminate|].
  repeat split; vm_compute; reflexivity.
Qed.

(** *** Failures of the background track *)

(** Whatever goes wrong inside the [try] is caught: once [get_bgm_file]
    has returned, the background music cannot make [generate_video]
    raise. *)
Lemma add_bgm_catches (w : Render.World) (params : Schema.VideoParams)
      (video_duration : Q) (audio_clip : Audio.AudioClip)
      (rng rng' : Random.Rng) (bgm : string) :
  Render.get_bgm_file w (Schema.bgm_type params) (Schema.bgm_file params) rng
    = Returned (bgm, rng') ->
  forall e, Render.add_bgm w params video_duration audio_clip rng <> Raised e.
Proof.
  intros Hpick e. unfold Render.add_bgm. rewrite Hpick. cbn [run_bind].
  destruct (negb (String.eqb bgm "")); [|discriminate].
  destruct (Render.open_audio w bgm) as [file| |]; cbn [run_bind];
    try discriminate.
  destruct (Audio.with_effects file _) as [clip| |]; cbn [run_bind];
    discriminate.
Qed.

(** A song that does not decode is logged, and the voice goes out alone. *)
Example generate_video_bad_song_caught :
  exists r,
    Render.generate_video Examples.machine_bad_song
                          "combined-1.mp4" "audio.mp3" ""
                          Examples.default_params [] = Returned r
    /\ Render.audio r
       = Audio.Applied (Audio.MultiplyVolume 1)
                       (Audio.AudioFileClip "audio.mp3" 10)
    /\ Render.error_log r = ["failed to add bgm"%string].
Proof.
  eexists. split; [vm_compute; reflexivity|]. split; reflexivity.
Qed.

(** [get_bgm_file] is called before the [try]: with [bgm_type] "random",
    no usable [bgm_file] and no song to choose from, [random.choice]
    raises and nothing catches it. *)
Lemma generate_video_no_song_raises
      (w : Render.World) (params : Schema.VideoParams)
      (video_path audio_path subtitle_path : string) (rng : Random.Rng)
      (voice : Audio.AudioClip) :
  Schema.bgm_type params = "random"%string ->
  Schema.bgm_file params = ""%string
  \/ Render.path_exists w (Schema.bgm_file params) = false ->
  Render.song_files w = [] ->
  Render.open_audio w audio_path = Returned voice ->
  Render.generate_video w video_path audio_path subtitle_path params rng
    = Raised IndexError.
Proof.
  intros Htype Hfile Hsongs Hvoice.
  unfold Render.generate_video.
  destruct (Schema.to_resolution (Schema.video_aspect params)) as [W H].
  rewrite Hvoice. cbn [run_bind Audio.with_effects Audio.apply].
  unfold Render.add_bgm, Render.get_bgm_file.
  rewrite Htype, Hsongs. cbn [String.eqb Ascii.eqb Bool.eqb].
  assert (E : negb (String.eqb (Schema.bgm_file params) "")
              && Render.path_exists w (Schema.bgm_file params) = false).
  { destruct Hfile as [-> | ->]; [reflexivity|apply andb_false_r]. }
  rewrite E. reflexivity.
Qed.

(** C8, at the input where the code parts from it: the defaults of
    [VideoParams] ([bgm_type] "random", no [bgm_file]) on a machine whose
    song directory holds no mp3.  [generate_video] raises [IndexError]. *)
Theorem generate_video_empty_song_dir_raises :
  Render.generate_video (Examples.machine []) "combined-1.mp4" "audio.mp3" ""
                        Examples.default_params []
  = Raised IndexError.
Proof. vm_compute. reflexivity. Qed.

(** ** The orchestrator: calls of a run *)

Section TraceLogic.
Import Task.

Lemma bind_events {A B : Type} (m : T A) (k : A -> T B) :
  fst (bind m k)
  = (fst m ++ match snd m with
              | Returned a => fst (k a)
              | _ => []
              end)%list.
Proof.
  destruct m as [es [a|e|]]; cbn [bind fst snd].
  - now destruct (k a).
  - now rewrite app_nil_r.
  - now rewrite app_nil_r.
Qed.

Lemma bind_result {A B : Type} (m : T A) (k : A -> T B) :
  snd (bind m k)
  = match snd m with
    | Returned a => snd (k a)
    | Raised e => Raised e
    | OutOfFuel => OutOfFuel
    end.
Proof.
  destruct m as [es [a|e|]]; cbn [bind fst snd]; try reflexivity.
  now destruct (k a).
Qed.

(** A property of every call carries over a [bind]. *)
Lemma Forall_bind {A B : Type} (P : Event -> Prop) (m : T A) (k : A -> T B) :
  Forall P (fst m) ->
  (forall a, snd m = Returned a -> Forall P (fst (k a))) ->
  Forall P (fst (bind m k)).
Proof.
  intros Hm Hk. rewrite bind_events. apply Forall_app. split; [exact Hm|].
  destruct (snd m) as [a|e|]; [now apply Hk|constructor|constructor].
Qed.

Lemma writes_app (tr tr' : list Event) :
  writes (tr ++ tr') = (writes tr ++ writes tr')%list.
Proof. unfold writes. now rewrite flat_map_app. Qed.

Lemma progress_values_app (tr tr' : list Event) :
  progress_values (tr ++ tr')
  = (progress_values tr ++ progress_values tr')%list.
Proof. unfold progress_values. now rewrite writes_app, flat_map_app. Qed.

End TraceLogic.

(** Takes a goal [Forall P (fst m)] apart along the structure of [m]. *)
Ltac trace_all :=
  repeat first
    [ apply Forall_bind; [|intros ? ?]
    | apply Forall_nil
    | apply Forall_cons; [cbn; auto|]
    | match goal with
      | |- Forall _ (fst (if ?b then _ else _)) => destruct b
      | |- Forall _ (fst (match ?x with _ => _ end)) => destruct x
      | |- Forall _ (fst (let (_, _) := ?x in _)) => destruct x
      end
    | progress cbn [fst Task.call Task.ret Task.lift] ].

(** The same, with [tac] for the property of a single call. *)
Ltac trace_with tac :=
  repeat first
    [ apply Forall_bind; [|intros ? ?]
    | apply Forall_nil
    | apply Forall_cons; [solve [tac]|]
    | match goal with
      | |- Forall _ (fst (if ?b then _ else _)) => destruct b
      | |- Forall _ (fst (match ?x with _ => _ end)) => destruct x
      | |- Forall _ (fst (let (_, _) := ?x in _)) => destruct x
      end
    | progress cbn [fst Task.call Task.ret Task.lift] ].

(** A comparison of two numerals. *)
Ltac qconst :=
  first [ apply Qle_refl
        | apply Qle_bool_iff; reflexivity
        | reflexivity ].

Section ConcatMode.
Import Task Schema.

Variable sv : Services.
Variable task_dir : string.

Lemma generate_script_modes (c d : ConcatModeField) (params : VideoParams) :
  Forall (mode_handed c d) (fst (generate_script sv params)).
Proof. unfold generate_script. trace_all. Qed.

Lemma generate_terms_modes (c d : ConcatModeField) (params : VideoParams)
      (video_script : string) :
  Forall (mode_handed c d) (fst (generate_terms sv params video_script)).
Proof. unfold generate_terms. trace_all. Qed.

Lemma generate_audio_modes (c d : ConcatModeField) (params : VideoParams)
      (video_script : string) :
  Forall (mode_handed c d)
         (fst (generate_audio sv task_dir params video_script)).
Proof. unfold generate_audio. trace_all. Qed.

Lemma generate_subtitle_modes (c d : ConcatModeField) (params : VideoParams) :
  Forall (mode_handed c d) (fst (generate_subtitle sv task_dir params)).
Proof. unfold generate_subtitle. trace_all. Qed.

(** Material acquisition is handed the mode of the request. *)
Lemma get_video_materials_modes (d : ConcatModeField) (params : VideoParams)
      (video_terms : list string) (audio_duration : Z) :
  Forall (mode_handed (video_concat_mode params) d)
         (fst (get_video_materials sv params video_terms audio_duration)).
Proof. unfold get_video_materials. trace_all. Qed.

(** Every pass of the output loop hands on the mode it was given. *)
Lemma for_outputs_modes (c : ConcatModeField) (params : VideoParams)
      (mode : ConcatModeField) (tm : option VideoTransitionMode) (todo : nat) :
  forall i _progress finals combined,
    Forall (mode_handed c mode)
           (fst (for_outputs sv task_dir params mode tm todo i _progress
                             finals combined)).
Proof.
  induction todo as [|todo IH]; intros i pr finals combined.
  - constructor.
  - cbn [for_outputs]. trace_all. apply IH.
Qed.

Lemma generate_final_videos_modes (c : ConcatModeField) (params : VideoParams) :
  Forall (mode_handed c (if (video_count params =? 1)%Z
                         then video_concat_mode params
                         else mode_enum random))
         (fst (generate_final_videos sv task_dir params)).
Proof. unfold generate_final_videos. apply for_outputs_modes. Qed.

(** From the first stage on, with the request as [start] has settled it. *)
Lemma start_materials_modes (params : VideoParams) (stop_at video_script : string)
      (video_terms : list string) (audio_file : string) (audio_duration : Z)
      (subtitle_path : string) :
  Forall (mode_handed (video_concat_mode params)
                      (if (video_count params =? 1)%Z
                       then video_concat_mode params
                       else mode_enum random))
         (fst (start_materials sv task_dir params stop_at video_script
                               video_terms audio_file audio_duration
                               subtitle_path)).
Proof.
  unfold start_materials, fail, complete, processing.
  apply Forall_bind; [apply get_video_materials_modes|intros a _].
  destruct a as [downloaded|]; [|trace_all].
  destruct (String.eqb stop_at "materials"); [trace_all|].
  apply Forall_bind; [trace_all|intros _ _].
  apply Forall_bind; [apply generate_final_videos_modes|intros a _].
  trace_all.
Qed.

Lemma start_audio_modes (params : VideoParams) (stop_at video_script : string)
      (video_terms : list string) :
  Forall (mode_handed (video_concat_mode params)
                      (if (video_count params =? 1)%Z
                       then video_concat_mode params
                       else mode_enum random))
         (fst (start_audio sv task_dir params stop_at video_script video_terms)).
Proof.
  unfold start_audio, fail, complete, processing.
  apply Forall_bind; [apply generate_audio_modes|intros a _].
  destruct a as [[audio_file audio_duration]|]; [|trace_all].
  apply Forall_bind; [trace_all|intros _ _].
  destruct (String.eqb stop_at "audio"); [trace_all|].
  apply Forall_bind; [apply generate_subtitle_modes|intros a _].
  destruct (String.eqb stop_at "subtitle"); [trace_all|].
  apply Forall_bind; [trace_all|intros _ _].
  apply start_materials_modes.
Qed.

Lemma start_terms_modes (params : VideoParams) (stop_at video_script : string) :
  Forall (mode_handed (video_concat_mode params)
                      (if (video_count params =? 1)%Z
                       then video_concat_mode params
                       else mode_enum random))
         (fst (start_terms sv task_dir params stop_at video_script)).
Proof.
  unfold start_terms, fail, complete, processing, save_script_data.
  apply Forall_bind.
  { destruct (negb _); [apply generate_terms_modes|constructor]. }
  intros a _. destruct a as [video_terms|]; [|trace_all].
  apply Forall_bind; [trace_all|intros _ _].
  destruct (String.eqb stop_at "terms"); [trace_all|].
  apply Forall_bind; [trace_all|intros _ _].
  apply start_audio_modes.
Qed.

Lemma start_modes (params : VideoParams) (stop_at : string) :
  Forall (mode_handed (configured_concat_mode params)
                      (if (video_count params =? 1)%Z
                       then configured_concat_mode params
                       else mode_enum random))
         (fst (start sv task_dir params stop_at)).
Proof.
  unfold start, fail, complete, processing.
  apply Forall_bind; [trace_all|intros _ _].
  assert (Hrest : forall params',
             video_concat_mode params' = configured_concat_mode params ->
             video_count params' = video_count params ->
             Forall (mode_handed (configured_concat_mode params)
                       (if (video_count params =? 1)%Z
                        then configured_concat_mode params
                        else mode_enum random))
                    (fst (bind (generate_script sv params')
                            (fun video_script =>
                               match video_script with
                               | None => fail
                               | Some video_script =>
                                   if PyStr.contains "Error: " video_script
                                   then fail
                                   else
                                     bind (processing 10)
                                       (fun _ =>
                                          if String.eqb stop_at "script"
                                          then complete "script"
                                                 (result_script video_script)
                                          else start_terms sv task_dir params'
                                                 stop_at video_script)
                               end)))).
  { intros params' Hmode Hcount.
    unfold fail, complete, processing.
    apply Forall_bind; [apply generate_script_modes|intros a _].
    destruct a as [video_script|]; [|trace_all].
    destruct (PyStr.contains "Error: " video_script); [trace_all|].
    apply Forall_bind; [trace_all|intros _ _].
    destruct (String.eqb stop_at "script"); [trace_all|].
    rewrite <- Hmode, <- Hcount. apply start_terms_modes. }
  unfold configured_concat_mode in *.
  destruct (video_concat_mode params) as [s|m] eqn:Efield.
  - unfold VideoConcatMode_of_str in *.
    destruct (String.eqb s "random");
      [|destruct (String.eqb s "sequential")].
    + apply Forall_bind; [trace_all|intros p' Hp'].
      cbn in Hp'. inversion Hp'; subst p'. apply Hrest; reflexivity.
    + apply Forall_bind; [trace_all|intros p' Hp'].
      cbn in Hp'. inversion Hp'; subst p'. apply Hrest; reflexivity.
    + cbn. constructor.
  - apply Forall_bind; [trace_all|intros p' Hp'].
    cbn in Hp'. inversion Hp'; subst p'. apply Hrest; [exact Efield|reflexivity].
Qed.

Lemma mode_handed_split (c d : ConcatModeField) (tr : list Event) :
  Forall (mode_handed c d) tr ->
  Forall (fun m => m = c) (modes_for_materials tr)
  /\ Forall (fun m => m = d) (modes_for_combine tr).
Proof.
  induction 1 as [|e tr He Htr [IH1 IH2]]; [split; constructor|].
  destruct e; cbn in *; auto.
Qed.

End ConcatMode.

(** C4, as the code has it: the concat mode is coerced once per run, at
    the head of the last stage, into a local of [generate_final_videos]:
    every [combine_videos] call of the run is handed [random] unless the
    output count is 1, and then the mode of the request.  The request is
    left as it was, and material acquisition, the stage before, is handed
    the mode of the request. *)
Theorem concat_mode_coerced_in_last_stage
        (sv : Task.Services) (task_dir : string)
        (params : Schema.VideoParams) (stop_at : string) :
  let tr := fst (Task.run_start sv task_dir params stop_at) in
  Forall (fun m => m = Task.configured_concat_mode params)
         (Task.modes_for_materials tr)
  /\ Forall (fun m => m = if (Schema.video_count params =? 1)%Z
                          then Task.configured_concat_mode params
                          else Schema.mode_enum Schema.random)
            (Task.modes_for_combine tr).
Proof.
  cbv zeta. unfold Task.run_start.
  apply mode_handed_split. apply start_modes.
Qed.

(** C4, as stated, fails: a request for two outputs in sequential order
    reaches material acquisition with [sequential]. *)
Lemma materials_see_configured_mode :
  Task.modes_for_materials
    (fst (Task.run_start Examples.services_ok "/task"
                         (Examples.sequential_params 2) "video"))
    = [Schema.mode_enum Schema.sequential]
  /\ Task.modes_for_combine
       (fst (Task.run_start Examples.services_ok "/task"
                            (Examples.sequential_params 2) "video"))
     = [Schema.mode_enum Schema.random; Schema.mode_enum Schema.random]
  /\ ~ Stated.concat_mode_coerced_before_stage_one
         Examples.services_ok "/task" (Examples.sequential_params 2) "video".
Proof.
  split; [vm_compute; reflexivity|]. split; [vm_compute; reflexivity|].
  intro H. specialize (H eq_refl). cbv zeta in H.
  apply Forall_app in H. destruct H as [H _].
  vm_compute in H. inversion H as [|? ? Hhead _]. discriminate Hhead.
Qed.

(** ** The orchestrator: progress *)

Section Climbing.
Import Task.

Lemma climbs_le (ps : list Q) : forall lo hi, climbs lo hi ps -> lo <= hi.
Proof.
  induction ps as [|p rest IH]; intros lo hi H; cbn in H; [exact H|].
  destruct H as [Hlo Hrest]. eapply Qle_trans; [exact Hlo|]. now apply IH.
Qed.

Lemma climbs_lower (ps : list Q) (lo lo' hi : Q) :
  lo' <= lo -> climbs lo hi ps -> climbs lo' hi ps.
Proof.
  intros Hle H. destruct ps as [|p rest]; cbn in *.
  - eapply Qle_trans; eauto.
  - destruct H as [Hlo Hrest]. split; [eapply Qle_trans; eauto|exact Hrest].
Qed.

Lemma climbs_upper (ps : list Q) : forall lo hi hi',
  hi <= hi' -> climbs lo hi ps -> climbs lo hi' ps.
Proof.
  induction ps as [|p rest IH]; intros lo hi hi' Hle H; cbn in *.
  - eapply Qle_trans; eauto.
  - destruct H as [Hlo Hrest]. split; [exact Hlo|]. eapply IH; eauto.
Qed.

Lemma climbs_app (xs ys : list Q) : forall lo mid hi,
  climbs lo mid xs -> climbs mid hi ys -> climbs lo hi (xs ++ ys).
Proof.
  induction xs as [|x rest IH]; intros lo mid hi Hx Hy; cbn in *.
  - eapply climbs_lower; eauto.
  - destruct Hx as [Hlo Hrest]. split; [exact Hlo|]. eapply IH; eauto.
Qed.

(** A list that climbs is sorted and stays between its bounds. *)
Lemma climbs_sorted (ps : list Q) : forall lo hi,
  climbs lo hi ps ->
  StronglySorted Qle ps /\ Forall (fun p => lo <= p /\ p <= hi) ps.
Proof.
  induction ps as [|p rest IH]; intros lo hi H; cbn in H.
  - split; constructor.
  - destruct H as [Hlo Hrest].
    destruct (IH _ _ Hrest) as [Hs Hb]. split.
    + constructor; [exact Hs|].
      eapply Forall_impl; [|exact Hb]. intros q [Hq _]. exact Hq.
    + constructor.
      * split; [exact Hlo|]. eapply climbs_le; eauto.
      * eapply Forall_impl; [|exact Hb]. intros q [Hq1 Hq2].
        split; [eapply Qle_trans; eauto|exact Hq2].
Qed.

Lemma no_progress_values (tr : list Event) :
  Forall writes_no_progress tr -> progress_values tr = [].
Proof.
  induction 1 as [|e tr He Htr IH]; [reflexivity|].
  change (e :: tr) with ([e] ++ tr)%list. rewrite progress_values_app, IH.
  destruct e; try reflexivity.
  destruct progress; [contradiction|reflexivity].
Qed.

Lemma at_most_fifty_values (tr : list Event) :
  Forall writes_at_most_fifty tr ->
  Forall (fun p => p <= 50) (progress_values tr).
Proof.
  induction 1 as [|e tr He Htr IH]; [constructor|].
  change (e :: tr) with ([e] ++ tr)%list. rewrite progress_values_app.
  apply Forall_app. split; [|exact IH].
  destruct e; try constructor.
  destruct progress; cbn; [|constructor].
  constructor; [exact He|constructor].
Qed.

Lemma no_progress_at_most_fifty (tr : list Event) :
  Forall writes_no_progress tr -> Forall writes_at_most_fifty tr.
Proof.
  apply Forall_impl. intros e He. destruct e; auto.
  destruct progress; [contradiction|exact I].
Qed.

Lemma up_to_last_write_app (es tr body : list Event) :
  up_to_last_write tr body -> up_to_last_write (es ++ tr) (es ++ body).
Proof.
  intros [->|[fields ->]]; [now left|right].
  exists fields. now rewrite app_assoc.
Qed.

(** A stage that writes no progress leaves the judgement to what
    follows it. *)
Lemma rises_after_quiet {A B : Type} (m : T A) (k : A -> T B) (lo : Q) :
  Forall writes_no_progress (fst m) ->
  (forall a, snd m = Returned a -> rises_to_last_write lo (k a)) ->
  rises_to_last_write lo (bind m k).
Proof.
  intros Hq Hk. unfold rises_to_last_write. rewrite bind_events.
  destruct (snd m) as [a|e|].
  - destruct (Hk a eq_refl) as (body & hi & Hbody & Hclimb).
    exists (fst m ++ body)%list, hi.
    split; [now apply up_to_last_write_app|].
    now rewrite progress_values_app, (no_progress_values Hq).
  - exists (fst m), lo. rewrite app_nil_r. split; [now left|].
    rewrite (no_progress_values Hq). apply Qle_refl.
  - exists (fst m), lo. rewrite app_nil_r. split; [now left|].
    rewrite (no_progress_values Hq). apply Qle_refl.
Qed.

Lemma rises_after_write {A : Type} (st : option TaskState) (p : Q)
      (fields : list string) (k : unit -> T A) (lo : Q) :
  lo <= p ->
  rises_to_last_write p (k tt) ->
  rises_to_last_write lo (bind (call (update_task st (Some p) fields)) k).
Proof.
  intros Hlo (body & hi & Hbody & Hclimb).
  unfold rises_to_last_write. rewrite bind_events. cbn [call fst snd].
  exists ([update_task st (Some p) fields] ++ body)%list, hi.
  split; [now apply up_to_last_write_app|].
  rewrite progress_values_app. cbn. split; [exact Hlo|exact Hclimb].
Qed.

(** A stage whose progress values climb, followed by a failure exit or
    by the write of Complete and 100. *)
Lemma rises_before_exit {A B : Type} (m : T A) (k : A -> T B) (lo hi : Q) :
  climbs lo hi (progress_values (fst m)) ->
  (forall a, snd m = Returned a ->
     Forall writes_no_progress (fst (k a))
     \/ exists fields,
          fst (k a) = [update_task (Some TASK_STATE_COMPLETE) (Some 100)
                                   fields]) ->
  rises_to_last_write lo (bind m k).
Proof.
  intros Hm Hk. unfold rises_to_last_write. rewrite bind_events.
  destruct (snd m) as [a|e|].
  - destruct (Hk a eq_refl) as [Hq|[fields Hc]].
    + exists (fst m ++ fst (k a))%list, hi. split; [now left|].
      now rewrite progress_values_app, (no_progress_values Hq), app_nil_r.
    + exists (fst m), hi. split; [right; exists fields; now rewrite Hc|].
      exact Hm.
  - exists (fst m), hi. rewrite app_nil_r. split; [now left|exact Hm].
  - exists (fst m), hi. rewrite app_nil_r. split; [now left|exact Hm].
Qed.

End Climbing.

Section Progress.
Import Task Schema.

Variable sv : Services.
Variable task_dir : string.

(** *** The stages before the last write no progress of their own *)

Lemma generate_script_quiet (params : VideoParams) :
  Forall writes_no_progress (fst (generate_script sv params)).
Proof. unfold generate_script. trace_all. Qed.

Lemma generate_terms_quiet (params : VideoParams) (video_script : string) :
  Forall writes_no_progress (fst (generate_terms sv params video_script)).
Proof. unfold generate_terms. trace_all. Qed.

Lemma generate_audio_quiet (params : VideoParams) (video_script : string) :
  Forall writes_no_progress
         (fst (generate_audio sv task_dir params video_script)).
Proof. unfold generate_audio. trace_all. Qed.

Lemma generate_subtitle_quiet (params : VideoParams) :
  Forall writes_no_progress (fst (generate_subtitle sv task_dir params)).
Proof. unfold generate_subtitle. trace_all. Qed.

Lemma get_video_materials_quiet (params : VideoParams)
      (video_terms : list string) (audio_duration : Z) :
  Forall writes_no_progress
         (fst (get_video_materials sv params video_terms audio_duration)).
Proof. unfold get_video_materials. trace_all. Qed.

(** *** A stage that hands on a value has not written Failed *)

Lemma generate_script_clean (params : VideoParams) (s : string) :
  snd (generate_script sv params) = Returned (Some s) ->
  Forall not_failed_write (fst (generate_script sv params)).
Proof.
  unfold generate_script, not_failed_write.
  destruct (String.eqb (PyStr.strip (video_script params)) "");
    cbn [bind call ret fst snd app];
    match goal with
    | |- context [String.eqb ?x ""] => destruct (String.eqb x "")
    end; cbn; intro H; try discriminate; repeat constructor; auto.
Qed.

Lemma generate_terms_clean (params : VideoParams) (video_script : string)
      (terms : list string) :
  snd (generate_terms sv params video_script) = Returned (Some terms) ->
  Forall not_failed_write (fst (generate_terms sv params video_script)).
Proof.
  unfold generate_terms, not_failed_write.
  destruct (video_terms params) as [|[|c s]|[|t l]];
    cbn [bind call ret fst snd app];
    match goal with
    | |- context [match ?x with [] => _ | _ :: _ => _ end] => destruct x
    end; cbn; intro H; try discriminate; repeat constructor; auto.
Qed.

Lemma generate_audio_clean (params : VideoParams) (video_script : string)
      (a : string * Z) :
  snd (generate_audio sv task_dir params video_script) = Returned (Some a) ->
  Forall not_failed_write
         (fst (generate_audio sv task_dir params video_script)).
Proof.
  unfold generate_audio, not_failed_write.
  destruct (tts_answer sv); cbn; intro H; try discriminate;
    repeat constructor; auto.
Qed.

Lemma generate_subtitle_clean (params : VideoParams) :
  Forall not_failed_write (fst (generate_subtitle sv task_dir params)).
Proof. unfold generate_subtitle, not_failed_write. trace_all. Qed.

Lemma get_video_materials_clean (params : VideoParams)
      (video_terms : list string) (audio_duration : Z) (l : list string) :
  snd (get_video_materials sv params video_terms audio_duration)
    = Returned (Some l) ->
  Forall not_failed_write
         (fst (get_video_materials sv params video_terms audio_duration)).
Proof.
  unfold get_video_materials, not_failed_write.
  destruct (String.eqb (video_source params) "local").
  - destruct (video_materials params) as [ms|]; [|cbn; discriminate].
    destruct (map (preprocess_material sv) ms);
      cbn; intro H; try discriminate; repeat constructor; auto.
  - destruct (download_answer sv (video_concat_mode params));
      cbn; intro H; try discriminate; repeat constructor; auto.
Qed.

(** *** The output loop *)

Lemma share_returns (count : Z) :
  (0 < count)%Z ->
  run_bind (Float64.div 50 (inject_Z count)) (fun q => Float64.div q 2)
  = Returned (Float64.round (Float64.round (50 / inject_Z count) / 2)).
Proof.
  intro Hc. rewrite float_div_returns by now apply inject_Z_nonzero.
  cbn [run_bind]. now rewrite float_div_returns.
Qed.

Lemma share_nonneg (count : Z) :
  (0 < count)%Z ->
  0 <= Float64.round (Float64.round (50 / inject_Z count) / 2).
Proof.
  intro Hc.
  assert (Hq : 0 < inject_Z count) by (unfold Qlt; cbn; lia).
  assert (H1 : 0 <= 50 / inject_Z count).
  { apply Qlt_le_weak, Qlt_shift_div_l; [exact Hq|]. lra. }
  apply round_nonneg in H1.
  apply round_nonneg. apply Qle_shift_div_l; [reflexivity|]. lra.
Qed.

(** One pass of the loop, spelled out. *)
Lemma for_outputs_step (params : VideoParams) (mode : ConcatModeField)
      (tm : option VideoTransitionMode) (todo : nat) (i : Z) (p0 : Q)
      (finals combined : list string) :
  (0 < video_count params)%Z ->
  let share :=
    Float64.round (Float64.round (50 / inject_Z (video_count params)) / 2) in
  let index := (i + 1)%Z in
  let p1 := Float64.add p0 share in
  let p2 := Float64.add p1 share in
  let rest :=
    for_outputs sv task_dir params mode tm todo index p2
                (finals ++ [indexed_path task_dir "final" index])
                (combined ++ [indexed_path task_dir "combined" index]) in
  for_outputs sv task_dir params mode tm (S todo) i p0 finals combined
  = match combine_answer sv index mode tm with
    | Returned _ =>
        match render_answer sv index with
        | Returned _ =>
            ([ combine_videos index mode tm;
               update_task None (Some p1) [];
               generate_video index;
               update_task None (Some p2) [] ] ++ fst rest,
             snd rest)%list
        | Raised e =>
            ([ combine_videos index mode tm;
               update_task None (Some p1) [];
               generate_video index ], Raised e)
        | OutOfFuel =>
            ([ combine_videos index mode tm;
               update_task None (Some p1) [];
               generate_video index ], OutOfFuel)
        end
    | Raised e => ([combine_videos index mode tm], Raised e)
    | OutOfFuel => ([combine_videos index mode tm], OutOfFuel)
    end.
Proof.
  intros Hc share index p1 p2 rest. cbn [for_outputs].
  rewrite (share_returns Hc).
  destruct (combine_answer sv index mode tm) as [[]|e|] eqn:Ec;
    subst index; rewrite Ec; try reflexivity.
  destruct (render_answer sv (i + 1)) as [[]|e|] eqn:Er;
    cbn [bind call lift ret fst snd app]; rewrite ?Er;
    cbn [bind call lift ret fst snd app]; try reflexivity.
  subst rest p2 p1 share. destruct (for_outputs _ _ _ _ _ _ _ _ _ _).
  reflexivity.
Qed.

Section Loop.

Variable params : VideoParams.
Variable mode : ConcatModeField.
Variable tm : option VideoTransitionMode.
Hypothesis count_positive : (0 < video_count params)%Z.

Let share :=
  Float64.round (Float64.round (50 / inject_Z (video_count params)) / 2).

(** The float sum of the loop never falls: a share is not negative, and
    adding it to a float gives a float that is not smaller. *)
Lemma for_outputs_climbs (todo : nat) :
  forall i p0 finals combined,
    Float64.representable p0 -> 0 < p0 ->
    exists hi,
      climbs p0 hi
             (progress_values
                (fst (for_outputs sv task_dir params mode tm todo i p0
                                  finals combined))).
Proof.
  pose proof (share_nonneg count_positive) as Hs. fold share in Hs.
  induction todo as [|todo IH]; intros i p0 finals combined Hrep Hpos.
  - exists p0. cbn. apply Qle_refl.
  - rewrite (for_outputs_step params mode tm todo i p0 finals combined
               count_positive).
    cbv zeta. fold share.
    set (p1 := Float64.add p0 share). set (p2 := Float64.add p1 share).
    assert (H01 : p0 <= p1) by now apply add_above.
    assert (R1 : Float64.representable p1) by now apply add_representable.
    assert (P1 : 0 < p1) by lra.
    assert (H12 : p1 <= p2) by now apply add_above.
    assert (R2 : Float64.representable p2) by now apply add_representable.
    assert (P2 : 0 < p2) by lra.
    destruct (combine_answer sv (i + 1) mode tm) as [[]|e|];
      [|exists p0; cbn; apply Qle_refl|exists p0; cbn; apply Qle_refl].
    destruct (render_answer sv (i + 1)) as [[]|e|];
      [|exists p1; cbn; split; [exact H01|apply Qle_refl]
       |exists p1; cbn; split; [exact H01|apply Qle_refl]].
    destruct (IH (i + 1)%Z p2
                 (finals ++ [indexed_path task_dir "final" (i + 1)])%list
                 (combined ++ [indexed_path task_dir "combined" (i + 1)])%list
                 R2 P2) as [hi Hrest].
    exists hi. cbn [fst]. rewrite progress_values_app. cbn.
    split; [exact H01|]. split; [exact H12|exact Hrest].
Qed.

(** The loop hands back one more path for every output it made. *)
Lemma for_outputs_returned (todo : nat) :
  forall i p0 finals combined finals' combined',
    snd (for_outputs sv task_dir params mode tm todo i p0 finals combined)
      = Returned (finals', combined') ->
    List.length finals' = (List.length finals + todo)%nat.
Proof.
  induction todo as [|todo IH]; intros i p0 finals combined f' c' H.
  - cbn in H. inversion H; subst. lia.
  - rewrite (for_outputs_step params mode tm todo i p0 finals combined count_positive)
      in H.
    destruct (combine_answer sv (i + 1) mode tm) as [[]|e|]; try discriminate.
    destruct (render_answer sv (i + 1)) as [[]|e|]; try discriminate.
    cbn [snd] in H. apply IH in H. rewrite H, length_app. cbn. lia.
Qed.

Lemma for_outputs_clean (todo : nat) :
  forall i p0 finals combined,
    Forall not_failed_write
           (fst (for_outputs sv task_dir params mode tm todo i p0
                             finals combined)).
Proof.
  induction todo as [|todo IH]; intros i p0 finals combined.
  - constructor.
  - cbn [for_outputs]. unfold not_failed_write. trace_all. apply IH.
Qed.

Lemma for_outputs_stateless (todo : nat) :
  forall i p0 finals combined,
    Forall (fun e => hundred_is_complete_or_stateless e
                     /\ failed_has_no_progress e
                     /\ stated_progress_on_scale e)
           (fst (for_outputs sv task_dir params mode tm todo i p0
                             finals combined)).
Proof.
  induction todo as [|todo IH]; intros i p0 finals combined.
  - constructor.
  - cbn [for_outputs]. trace_all. apply IH.
Qed.

End Loop.

(** *** The last stage *)

Lemma fifty_representable : Float64.representable 50.
Proof. apply (integer_representable (n:=50)). split; [lia|reflexivity]. Qed.

Lemma generate_final_videos_climbs (params : VideoParams) :
  exists hi,
    climbs 50 hi (progress_values (fst (generate_final_videos sv task_dir params))).
Proof.
  unfold generate_final_videos.
  destruct (Z_lt_le_dec 0 (video_count params)) as [Hc|Hc].
  - apply for_outputs_climbs;
      [exact Hc|exact fifty_representable|reflexivity].
  - replace (Z.to_nat (video_count params)) with 0%nat by lia.
    exists 50. cbn. apply Qle_refl.
Qed.

Lemma generate_final_videos_clean (params : VideoParams) :
  Forall not_failed_write (fst (generate_final_videos sv task_dir params)).
Proof. unfold generate_final_videos. apply for_outputs_clean. Qed.

Lemma generate_final_videos_stateless (params : VideoParams) :
  Forall (fun e => hundred_is_complete_or_stateless e
                   /\ failed_has_no_progress e
                   /\ stated_progress_on_scale e)
         (fst (generate_final_videos sv task_dir params)).
Proof. unfold generate_final_videos. apply for_outputs_stateless. Qed.

(** The last stage hands back no video only when it made no call. *)
Lemma generate_final_videos_none (params : VideoParams)
      (combined : list string) :
  snd (generate_final_videos sv task_dir params) = Returned ([], combined) ->
  fst (generate_final_videos sv task_dir params) = [].
Proof.
  unfold generate_final_videos. intro H.
  destruct (Z_lt_le_dec 0 (video_count params)) as [Hc|Hc].
  - apply for_outputs_returned in H; [|exact Hc]. cbn in H. lia.
  - now replace (Z.to_nat (video_count params)) with 0%nat by lia.
Qed.

(** *** At 50 or below, or clean *)

Lemma half_or_clean_bind {A B : Type} (m : T A) (k : A -> T B) :
  Forall writes_at_most_fifty (fst m) ->
  (forall a, snd m = Returned a ->
     Forall writes_at_most_fifty (fst (k a))
     \/ (Forall not_failed_write (fst m) /\ half_or_clean (k a))) ->
  half_or_clean (bind m k).
Proof.
  intros Hlow Hk. unfold half_or_clean. rewrite bind_events.
  destruct (snd m) as [a|e|].
  - destruct (Hk a eq_refl) as [Hka|[Hclean [Hka|Hka]]].
    + left. apply Forall_app. now split.
    + left. apply Forall_app. now split.
    + right. apply Forall_app. now split.
  - left. now rewrite app_nil_r.
  - left. now rewrite app_nil_r.
Qed.

Lemma half_or_clean_step {A : Type} (e : Event) (k : unit -> T A) :
  writes_at_most_fifty e -> not_failed_write e ->
  half_or_clean (k tt) ->
  half_or_clean (bind (call e) k).
Proof.
  intros Hlow Hclean Hk. apply half_or_clean_bind.
  - repeat constructor. exact Hlow.
  - intros [] _. right. split; [repeat constructor; exact Hclean|exact Hk].
Qed.

Lemma fail_low : Forall writes_at_most_fifty (fst fail).
Proof. unfold fail. trace_all. Qed.

Lemma complete_clean (field : string) (r : Result) :
  Forall not_failed_write (fst (complete field r)).
Proof. unfold complete, not_failed_write. trace_all. Qed.

Lemma processing_clean (p : Q) :
  not_failed_write (update_task (Some TASK_STATE_PROCESSING) (Some p) []).
Proof. intro H. exact H. Qed.

Lemma start_materials_half_or_clean (params : VideoParams)
      (stop_at video_script : string) (video_terms : list string)
      (audio_file : string) (audio_duration : Z) (subtitle_path : string) :
  half_or_clean (start_materials sv task_dir params stop_at video_script
                                 video_terms audio_file audio_duration
                                 subtitle_path).
Proof.
  unfold start_materials.
  apply half_or_clean_bind.
  { apply no_progress_at_most_fifty, get_video_materials_quiet. }
  intros [downloaded|] Hret; [|left; apply fail_low].
  right. split; [eapply get_video_materials_clean; eauto|].
  destruct (String.eqb stop_at "materials"); [right; apply complete_clean|].
  unfold processing.
  apply half_or_clean_step; [qconst|apply processing_clean|].
  unfold half_or_clean. rewrite bind_events.
  pose proof (generate_final_videos_clean params) as Hclean.
  destruct (snd (generate_final_videos sv task_dir params))
    as [[[|f finals] combined]|e|] eqn:Hr.
  - left. rewrite (generate_final_videos_none params Hr). apply fail_low.
  - right. apply Forall_app. split; [exact Hclean|].
    unfold not_failed_write. trace_all.
  - right. now rewrite app_nil_r.
  - right. now rewrite app_nil_r.
Qed.

Lemma start_audio_half_or_clean (params : VideoParams)
      (stop_at video_script : string) (video_terms : list string) :
  half_or_clean (start_audio sv task_dir params stop_at video_script video_terms).
Proof.
  unfold start_audio.
  apply half_or_clean_bind.
  { apply no_progress_at_most_fifty, generate_audio_quiet. }
  intros [[audio_file audio_duration]|] Hret; [|left; apply fail_low].
  right. split; [eapply generate_audio_clean; eauto|].
  unfold processing.
  apply half_or_clean_step; [qconst|apply processing_clean|].
  destruct (String.eqb stop_at "audio"); [right; apply complete_clean|].
  apply half_or_clean_bind.
  { apply no_progress_at_most_fifty, generate_subtitle_quiet. }
  intros subtitle_path _. right. split; [apply generate_subtitle_clean|].
  destruct (String.eqb stop_at "subtitle"); [right; apply complete_clean|].
  apply half_or_clean_step; [qconst|apply processing_clean|].
  apply start_materials_half_or_clean.
Qed.

Lemma start_terms_half_or_clean (params : VideoParams)
      (stop_at video_script : string) :
  half_or_clean (start_terms sv task_dir params stop_at video_script).
Proof.
  unfold start_terms.
  apply half_or_clean_bind.
  { destruct (negb _); [apply no_progress_at_most_fifty, generate_terms_quiet
                       |constructor]. }
  intros [video_terms|] Hret; [|left; apply fail_low].
  right. split.
  { destruct (negb _); [eapply generate_terms_clean; eauto|constructor]. }
  unfold save_script_data, processing.
  apply half_or_clean_step; [exact I|intro H; exact H|].
  destruct (String.eqb stop_at "terms"); [right; apply complete_clean|].
  apply half_or_clean_step; [qconst|apply processing_clean|].
  apply start_audio_half_or_clean.
Qed.

Lemma start_half_or_clean (params : VideoParams) (stop_at : string) :
  half_or_clean (start sv task_dir params stop_at).
Proof.
  unfold start, processing.
  apply half_or_clean_step; [qconst|apply processing_clean|].
  apply half_or_clean_bind.
  { apply no_progress_at_most_fifty. trace_all. }
  intros params' _. right. split.
  { unfold not_failed_write. trace_all. }
  apply half_or_clean_bind.
  { apply no_progress_at_most_fifty, generate_script_quiet. }
  intros [video_script|] Hret; [|left; apply fail_low].
  destruct (PyStr.contains "Error: " video_script); [left; apply fail_low|].
  right. split; [eapply generate_script_clean; eauto|].
  apply half_or_clean_step; [qconst|apply processing_clean|].
  destruct (String.eqb stop_at "script"); [right; apply complete_clean|].
  apply start_terms_half_or_clean.
Qed.

(** *** Progress climbs up to the last write *)

Lemma fail_rises (lo : Q) : rises_to_last_write lo fail.
Proof.
  exists (fst fail), lo. split; [now left|]. cbn. apply Qle_refl.
Qed.

Lemma complete_rises (lo : Q) (field : string) (r : Result) :
  rises_to_last_write lo (complete field r).
Proof.
  exists [], lo. split; [right; exists [field]; reflexivity|].
  cbn. apply Qle_refl.
Qed.

Lemma start_materials_rises (params : VideoParams)
      (stop_at video_script : string) (video_terms : list string)
      (audio_file : string) (audio_duration : Z) (subtitle_path : string) :
  rises_to_last_write 40
    (start_materials sv task_dir params stop_at video_script video_terms
                     audio_file audio_duration subtitle_path).
Proof.
  unfold start_materials.
  apply rises_after_quiet; [apply get_video_materials_quiet|].
  intros [downloaded|] _; [|apply fail_rises].
  destruct (String.eqb stop_at "materials"); [apply complete_rises|].
  unfold processing. apply rises_after_write; [qconst|].
  destruct (generate_final_videos_climbs params) as [hi Hclimb].
  apply rises_before_exit with (hi := hi); [exact Hclimb|].
  intros [finals combined] _.
  destruct finals; [left; unfold fail; trace_all|].
  right. eexists. reflexivity.
Qed.

Lemma start_audio_rises (params : VideoParams)
      (stop_at video_script : string) (video_terms : list string) :
  rises_to_last_write 20
    (start_audio sv task_dir params stop_at video_script video_terms).
Proof.
  unfold start_audio.
  apply rises_after_quiet; [apply generate_audio_quiet|].
  intros [[audio_file audio_duration]|] _; [|apply fail_rises].
  unfold processing. apply rises_after_write; [qconst|].
  destruct (String.eqb stop_at "audio"); [apply complete_rises|].
  apply rises_after_quiet; [apply generate_subtitle_quiet|].
  intros subtitle_path _.
  destruct (String.eqb stop_at "subtitle"); [apply complete_rises|].
  apply rises_after_write; [qconst|].
  apply start_materials_rises.
Qed.

Lemma start_terms_rises (params : VideoParams) (stop_at video_script : string) :
  rises_to_last_write 10
    (start_terms sv task_dir params stop_at video_script).
Proof.
  unfold start_terms.
  apply rises_after_quiet.
  { destruct (negb _); [apply generate_terms_quiet|constructor]. }
  intros [video_terms|] _; [|apply fail_rises].
  unfold save_script_data.
  apply rises_after_quiet; [trace_all|]. intros _ _.
  destruct (String.eqb stop_at "terms"); [apply complete_rises|].
  unfold processing. apply rises_after_write; [qconst|].
  apply start_audio_rises.
Qed.

Lemma start_rises (params : VideoParams) (stop_at : string) :
  rises_to_last_write 5 (start sv task_dir params stop_at).
Proof.
  unfold start, processing.
  apply rises_after_write; [qconst|].
  apply rises_after_quiet; [trace_all|]. intros params' _.
  apply rises_after_quiet; [apply generate_script_quiet|].
  intros [video_script|] _; [|apply fail_rises].
  destruct (PyStr.contains "Error: " video_script); [apply fail_rises|].
  apply rises_after_write; [qconst|].
  destruct (String.eqb stop_at "script"); [apply complete_rises|].
  apply start_terms_rises.
Qed.

(** *** What a single write carries *)

Lemma start_writes_well_formed (params : VideoParams) (stop_at : string) :
  Forall (fun e => hundred_is_complete_or_stateless e
                   /\ failed_has_no_progress e
                   /\ stated_progress_on_scale e)
         (fst (start sv task_dir params stop_at)).
Proof.
  assert (Hsolve : forall p, ~ p == 100 -> 5 <= p -> p <= 100 ->
            hundred_is_complete_or_stateless
              (update_task (Some TASK_STATE_PROCESSING) (Some p) [])
            /\ failed_has_no_progress
                 (update_task (Some TASK_STATE_PROCESSING) (Some p) [])
            /\ stated_progress_on_scale
                 (update_task (Some TASK_STATE_PROCESSING) (Some p) [])).
  { intros p Hp H5 H100.
    split; [intro H; contradiction|]. split; [exact I|now split]. }
  assert (Hdone : forall fields,
            hundred_is_complete_or_stateless
              (update_task (Some TASK_STATE_COMPLETE) (Some 100) fields)
            /\ failed_has_no_progress
                 (update_task (Some TASK_STATE_COMPLETE) (Some 100) fields)
            /\ stated_progress_on_scale
                 (update_task (Some TASK_STATE_COMPLETE) (Some 100) fields)).
  { intro fields. split; [intros _; now left|]. split; [exact I|].
    split; discriminate. }
  unfold start, start_terms, start_audio, start_materials, fail, complete,
    processing, save_script_data, generate_script, generate_terms,
    generate_audio, generate_subtitle, get_video_materials.
  trace_with ltac:(first [ apply Hsolve; [intro Hq; discriminate Hq
                                         |discriminate|discriminate]
                         | apply Hdone
                         | cbn; auto ]).
  all: try apply generate_final_videos_stateless.
Qed.

End Progress.

(** C5, as the code has it.  In every run of [start] the progress
    values never fall up to the last write of the output loop: only the
    write of Complete and 100 that ends a run can be lower than the one
    before it, since the loop adds the float [50 / video_count / 2] twice
    for every output and the float sum can pass 100.  Every progress
    value is 5 at least; a write that carries a state carries a progress
    between 5 and 100; a call that writes 100 writes it with state
    Complete or with no state at all (the writes of the output loop carry
    none); a call that writes state Failed writes no progress; and a run
    that writes Failed at all has written no progress above 50. *)
Theorem progress_climbs_up_to_last_write
        (sv : Task.Services) (task_dir : string)
        (params : Schema.VideoParams) (stop_at : string) :
  let tr := fst (Task.run_start sv task_dir params stop_at) in
  (exists body,
      Task.up_to_last_write tr body
      /\ StronglySorted Qle (Task.progress_values body))
  /\ Forall (fun p => 5 <= p) (Task.progress_values tr)
  /\ Forall Task.stated_progress_on_scale tr
  /\ Forall Task.hundred_is_complete_or_stateless tr
  /\ Forall Task.failed_has_no_progress tr
  /\ (Exists Task.is_failed_write tr ->
      Forall (fun p => p <= 50) (Task.progress_values tr)).
Proof.
  cbv zeta. unfold Task.run_start.
  destruct (start_rises sv task_dir params stop_at)
    as (body & hi & Hbody & Hclimb).
  destruct (climbs_sorted _ _ _ Hclimb) as [Hsorted Hbounds].
  pose proof (start_writes_well_formed sv task_dir params stop_at) as Hw.
  split; [exists body; split; [exact Hbody|exact Hsorted]|].
  split.
  { assert (Hb : Forall (fun p => 5 <= p) (Task.progress_values body)).
    { eapply Forall_impl; [|exact Hbounds]. now intros p [H _]. }
    destruct Hbody as [->|[fields ->]]; [exact Hb|].
    rewrite progress_values_app. apply Forall_app. split; [exact Hb|].
    repeat constructor. discriminate. }
  split; [eapply Forall_impl; [|exact Hw]; now intros e (_ & _ & H)|].
  split; [eapply Forall_impl; [|exact Hw]; now intros e (H & _)|].
  split; [eapply Forall_impl; [|exact Hw]; now intros e (_ & H & _)|].
  intro Hfailed.
  destruct (start_half_or_clean sv task_dir params stop_at) as [Hlow|Hclean].
  - now apply at_most_fifty_values.
  - exfalso. apply Exists_exists in Hfailed.
    destruct Hfailed as (e & Hin & He).
    rewrite Forall_forall in Hclean. exact (Hclean e Hin He).
Qed.

(** C5, as stated, fails: in a full run for one output the last write of
    the output loop carries progress 100 and no state, before the write
    that carries Complete. *)
Lemma hundred_written_before_complete :
  Forall2 (fun w v => fst w = fst v
                      /\ match snd w, snd v with
                         | Some p, Some q => p == q
                         | None, None => True
                         | _, _ => False
                         end)
    (Task.writes
       (fst (Task.run_start Examples.services_ok "/task"
                            (Examples.sequential_params 1) "video")))
    [ (Some Task.TASK_STATE_PROCESSING, Some 5);
      (Some Task.TASK_STATE_PROCESSING, Some 10);
      (Some Task.TASK_STATE_PROCESSING, Some 20);
      (Some Task.TASK_STATE_PROCESSING, Some 30);
      (Some Task.TASK_STATE_PROCESSING, Some 40);
      (Some Task.TASK_STATE_PROCESSING, Some 50);
      (None, Some 75);
      (None, Some 100);
      (Some Task.TASK_STATE_COMPLETE, Some 100) ]
  /\ ~ Stated.progress_hundred_only_with_complete
         Examples.services_ok "/task" (Examples.sequential_params 1) "video".
Proof.
  split.
  { vm_compute. repeat (constructor; [split; [reflexivity|reflexivity]|]).
    constructor. }
  intros (_ & _ & H). cbv zeta in H.
  rewrite Forall_forall in H.
  assert (Hin : exists p, p == 100
                  /\ In (@None Task.TaskState, Some p)
                        (Task.writes
                           (fst (Task.run_start Examples.services_ok "/task"
                                   (Examples.sequential_params 1) "video")))).
  { eexists. split; [|vm_compute; do 7 right; left; reflexivity].
    reflexivity. }
  destruct Hin as (p & Hp & Hin).
  specialize (H _ Hin _ eq_refl Hp). discriminate H.
Qed.

(** C5, as stated, fails in a second way: in a full run for six outputs
    the float sum of the output loop ends at [100.00000000000003]
    ([100 + 2 ^ -45]), above 100, and the write of Complete and 100 that
    follows is lower: the progress falls. *)
Lemma progress_passes_hundred_and_falls :
  exists before last,
    Task.progress_values
      (fst (Task.run_start Examples.services_ok "/task"
                           (Examples.sequential_params 6) "video"))
    = (before ++ [last; 100])%list
    /\ last == 100 + 1 / inject_Z (2 ^ 45)
    /\ 100 < last
    /\ ~ Stated.progress_hundred_only_with_complete
           Examples.services_ok "/task" (Examples.sequential_params 6) "video".
Proof.
  pose (tr := fst (Task.run_start Examples.services_ok "/task"
                                  (Examples.sequential_params 6) "video")).
  let v := eval vm_compute in (Task.progress_values tr) in pose (ps := v).
  assert (E : Task.progress_values tr = ps) by (vm_compute; reflexivity).
  exists (firstn 17 ps), (nth 17 ps 0).
  assert (Hsplit : ps = (firstn 17 ps ++ [nth 17 ps 0; 100])%list)
    by (vm_compute; reflexivity).
  assert (Hlast : 100 < nth 17 ps 0) by (vm_compute; reflexivity).
  split; [fold tr; rewrite E; exact Hsplit|].
  split; [vm_compute; reflexivity|]. split; [exact Hlast|].
  intros (_ & Hb & _). cbv zeta in Hb. fold tr in Hb. rewrite E, Hsplit in Hb.
  apply Forall_app in Hb. destruct Hb as [_ Hb].
  inversion Hb as [|? ? [_ Hle] _]. subst.
  apply (Qlt_not_le _ _ Hlast Hle).
Qed.

(** ** The packing loop reaches the length of the audio *)

Lemma total_duration_app (xs ys : list Clip.Clip) :
  Clip.total_duration (xs ++ ys)
  == Clip.total_duration xs + Clip.total_duration ys.
Proof.
  unfold Clip.total_duration.
  induction xs as [|x xs IH]; cbn [app fold_right]; [ring|].
  rewrite IH. ring.
Qed.

Section PackTotal.
Import Clip Video.

Variable audio_duration : Q.
Variable mode : Schema.VideoTransitionMode.
Variable max_clip_duration : Z.
Variables video_width video_height : Z.

Hypothesis height_positive : (0 < video_height)%Z.
Hypothesis max_positive : (0 < max_clip_duration)%Z.

Let cap : Q := inject_Z max_clip_duration.

Let cap_positive : 0 < cap.
Proof. subst cap. unfold Qlt. cbn. lia. Qed.

(** One segment more: the loop appends a clip that is no longer than what
    is still missing, and either fills what is missing or adds the
    smaller of the segment and the cap. *)
Lemma append_clip_packed (clip : Clip) (st : PackState) :
  is_segment clip ->
  packed audio_duration st ->
  exists st',
    append_clip audio_duration (Some mode) max_clip_duration
                video_width video_height clip st = Returned st'
    /\ packed audio_duration st'
    /\ video_duration st <= video_duration st'
    /\ (video_duration st' == audio_duration
        \/ video_duration st + py_min (duration clip) cap
           <= video_duration st').
Proof.
  intros [Hframe Hlen] [Htotal Hle].
  unfold append_clip. fold cap.
  set (r := audio_duration - video_duration st).
  assert (Hr : 0 <= r) by (subst r; lra).
  set (trimmed := if Qltb r (duration clip) then subclipped clip 0 r
                  else if Qltb cap (duration clip) then subclipped clip 0 cap
                       else clip).
  assert (Htrim : has_frame (with_fps trimmed 30)
                  /\ 0 <= duration trimmed /\ duration trimmed <= r
                  /\ (duration trimmed == r
                      \/ py_min (duration clip) cap <= duration trimmed)).
  { subst trimmed. unfold py_min.
    destruct (Qltb_spec r (duration clip)) as [H1|H1].
    - split; [exact Hframe|]. cbn [duration]. repeat split; lra.
    - apply Qnot_lt_le in H1.
      destruct (Qltb_spec cap (duration clip)) as [H2|H2].
      + split; [exact Hframe|]. cbn [duration]. repeat split; lra.
      + apply Qnot_lt_le in H2. split; [exact Hframe|].
        repeat split; lra. }
  destruct Htrim as (Hf & H0 & Hr' & Hprog).
  destruct (@fit_frame_returns video_width video_height height_positive
              (with_fps trimmed 30) Hf) as (fitted & -> & _ & Hdur).
  specialize (Hdur H0). cbn [duration] in Hdur. cbn [run_bind].
  destruct (apply_transition_member mode fitted (rng st))
    as (out & rng' & -> & _ & Hout & _).
  cbn [run_bind].
  set (final := if Qltb cap (duration out) then subclipped out 0 cap else out).
  assert (Hfinal : 0 <= duration final /\ duration final <= r
                   /\ (duration final == r
                       \/ py_min (duration clip) cap <= duration final)).
  { subst final. rewrite Hout.
    destruct (Qltb_spec cap (duration fitted)) as [H3|H3].
    - cbn [duration].
      split; [lra|]. split; [lra|].
      right.
      destruct (py_min_spec (duration clip) cap) as [[? ->]|[? ->]]; lra.
    - apply Qnot_lt_le in H3. rewrite ?Hout.
      split; [lra|]. split; [lra|].
      destruct Hprog as [Hp|Hp]; [left|right]; lra. }
  destruct Hfinal as (Hf0 & Hfr & Hfprog).
  eexists. split; [reflexivity|].
  cbn [clips video_duration]. unfold packed. cbn [clips video_duration].
  subst r. repeat split.
  - rewrite total_duration_app. unfold total_duration at 2.
    cbn [fold_right]. rewrite Htotal. ring.
  - lra.
  - lra.
  - destruct Hfprog as [Hp|Hp]; [left|right]; lra.
Qed.

(** One pass over the pool. *)
Lemma for_raw_clips_packed (raw_clips : list Clip) :
  forall st,
    Forall is_segment raw_clips ->
    packed audio_duration st ->
    exists st',
      for_raw_clips audio_duration (Some mode) max_clip_duration
                    video_width video_height raw_clips st = Returned st'
      /\ packed audio_duration st'
      /\ video_duration st <= video_duration st'.
Proof.
  induction raw_clips as [|clip rest IH]; intros st Hpool Hst.
  - exists st. split; [reflexivity|]. split; [exact Hst|apply Qle_refl].
  - inversion Hpool as [|? ? Hclip Hrest]; subst.
    destruct (append_clip_packed Hclip Hst) as (st1 & Hrun & Hst1 & Hmono & _).
    destruct (IH st1 Hrest Hst1) as (st2 & Hrun2 & Hst2 & Hmono2).
    exists st2. cbn [for_raw_clips]. rewrite Hrun. cbn [run_bind].
    split; [exact Hrun2|]. split; [exact Hst2|]. lra.
Qed.

(** A pass over a pool that is not empty fills what is missing or adds
    the smaller of its first segment and the cap. *)
Lemma for_raw_clips_progress (clip : Clip) (rest : list Clip) (st : PackState) :
  Forall is_segment (clip :: rest) ->
  packed audio_duration st ->
  exists st',
    for_raw_clips audio_duration (Some mode) max_clip_duration
                  video_width video_height (clip :: rest) st = Returned st'
    /\ packed audio_duration st'
    /\ (video_duration st' == audio_duration
        \/ video_duration st + py_min (duration clip) cap
           <= video_duration st').
Proof.
  intros Hpool Hst.
  inversion Hpool as [|? ? Hclip Hrest]; subst.
  destruct (append_clip_packed Hclip Hst) as (st1 & Hrun & Hst1 & _ & Hprog).
  destruct (for_raw_clips_packed Hrest Hst1) as (st2 & Hrun2 & Hst2 & Hmono2).
  exists st2. cbn [for_raw_clips]. rewrite Hrun. cbn [run_bind].
  split; [exact Hrun2|]. split; [exact Hst2|].
  destruct Hst2 as [_ Hle2].
  destruct Hprog as [Hp|Hp]; [left|right]; lra.
Qed.

(** With [n] passes to spare for what is missing, the loop returns, and
    the clips it returns are as long as the audio. *)
Lemma pack_returns (clip : Clip) (rest : list Clip) (n : nat) :
  Forall is_segment (clip :: rest) ->
  forall st,
    packed audio_duration st ->
    audio_duration - video_duration st
      <= inject_Z (Z.of_nat n) * py_min (duration clip) cap ->
    exists st',
      pack audio_duration (Some mode) max_clip_duration
           video_width video_height (S n) (clip :: rest) st = Returned st'
      /\ total_duration (clips st') == audio_duration.
Proof.
  intro Hpool.
  assert (Hstep : 0 < py_min (duration clip) cap).
  { inversion Hpool as [|? ? [_ Hlen] _]; subst. unfold py_min.
    destruct (Qltb cap (duration clip)); [exact cap_positive|exact Hlen]. }
  induction n as [|n IH]; intros st Hst Hleft; cbn [pack].
  - change (inject_Z (Z.of_nat 0)) with 0 in Hleft.
    destruct (Qltb_spec (video_duration st) audio_duration) as [Hlt|Hge];
      [lra|].
    exists st. split; [reflexivity|]. destruct Hst as [Htotal Hle]. lra.
  - destruct (Qltb_spec (video_duration st) audio_duration) as [Hlt|Hge].
    + destruct (for_raw_clips_progress Hpool Hst)
        as (st1 & -> & Hst1 & Hprog).
      cbn [run_bind]. apply IH; [exact Hst1|].
      rewrite Nat2Z.inj_succ in Hleft. unfold Z.succ in Hleft.
      rewrite inject_Z_plus in Hleft. change (inject_Z 1) with 1 in Hleft.
      assert (Hn : 0 <= inject_Z (Z.of_nat n)) by (unfold Qle; cbn; lia).
      destruct Hprog as [Hp|Hp]; [|lra].
      rewrite Hp. nra.
    + exists st. split; [reflexivity|]. destruct Hst as [Htotal Hle]. lra.
Qed.

(** For every pool of segments that is not empty and every positive
    length of audio there is an amount of fuel with which the packing loop
    returns, and the clips it returns add up to the length of the audio. *)
Lemma pack_reaches_target (clip : Clip) (rest : list Clip) (rng : Random.Rng) :
  Forall is_segment (clip :: rest) ->
  0 < audio_duration ->
  exists fuel st',
    pack audio_duration (Some mode) max_clip_duration
         video_width video_height fuel (clip :: rest)
         {| clips := []; video_duration := 0; rng := rng |} = Returned st'
    /\ total_duration (clips st') == audio_duration.
Proof.
  intros Hpool Haudio.
  assert (Hstep : 0 < py_min (duration clip) cap).
  { inversion Hpool as [|? ? [_ Hlen] _]; subst. unfold py_min.
    destruct (Qltb cap (duration clip)); [exact cap_positive|exact Hlen]. }
  set (step := py_min (duration clip) cap) in *.
  set (n := Z.to_nat (Qceiling (audio_duration / step))).
  exists (S n).
  apply pack_returns; [exact Hpool| |].
  - split; cbn [clips video_duration]; [reflexivity|lra].
  - cbn [video_duration]. fold step. subst n.
    assert (Hc : (0 <= Qceiling (audio_duration / step))%Z).
    { pose proof (Qceiling_resp_le 0 (audio_duration / step)) as H.
      change (Qceiling 0) with 0%Z in H. apply H.
      apply Qle_shift_div_l; [exact Hstep|lra]. }
    rewrite Z2Nat.id by exact Hc.
    pose proof (Qle_ceiling (audio_duration / step)) as Hceil.
    assert (E : audio_duration == audio_duration / step * step).
    { field. intro E. rewrite E in Hstep. discriminate. }
    rewrite E at 1. nra.
Qed.

End PackTotal.

(* ================================================================= *)
(** * Part III: further properties of the code *)
(* ================================================================= *)

(** ** The pool of segments *)

Section Windows.
Import Clip Video Segments.

Variable video_concat_mode : Schema.VideoConcatMode.
Variable max_clip_duration : Z.
Hypothesis max_positive : (0 < max_clip_duration)%Z.

Let cap : Q := inject_Z max_clip_duration.

Let cap_positive : 0 < cap.
Proof. subst cap. unfold Qlt. cbn. lia. Qed.

Let bounded (c : Clip) : Prop := 0 < duration c /\ duration c <= cap.

Lemma split_clip_bounded (clip : Clip) (fuel : nat) :
  forall clip_duration start_time raw_clips out,
    Forall bounded raw_clips ->
    split_clip video_concat_mode max_clip_duration fuel clip clip_duration
               start_time raw_clips = Returned out ->
    Forall bounded out.
Proof.
  induction fuel as [|fuel IH]; intros d s acc out Hacc Hrun;
    cbn [split_clip] in Hrun; [discriminate|].
  fold cap in Hrun.
  destruct (Qltb_spec s d) as [Hlt|Hge].
  - assert (Hw : bounded (subclipped clip s (py_min (s + cap) d))).
    { unfold bounded. cbn [duration].
      destruct (py_min_spec (s + cap) d) as [[H ->]|[H ->]]; split; lra. }
    assert (Hacc' : Forall bounded
                      (acc ++ [subclipped clip s (py_min (s + cap) d)])).
    { apply Forall_app. split; [exact Hacc|]. now constructor. }
    destruct (String.eqb _ _).
    + inversion Hrun; subst. exact Hacc'.
    + eapply IH; eauto.
  - inversion Hrun; subst. exact Hacc.
Qed.

Lemma split_all_bounded (fuel : nat) (video_paths : list VideoFile) :
  forall raw_clips out,
    Forall bounded raw_clips ->
    split_all video_concat_mode max_clip_duration fuel video_paths raw_clips
      = Returned out ->
    Forall bounded out.
Proof.
  induction video_paths as [|f rest IH]; intros acc out Hacc Hrun;
    cbn [split_all] in Hrun.
  - inversion Hrun; subst. exact Hacc.
  - destruct (split_clip video_concat_mode max_clip_duration fuel _ _ 0 acc)
      as [acc'| |] eqn:E; cbn [run_bind] in Hrun; try discriminate.
    apply (IH acc' out); [|exact Hrun].
    eapply split_clip_bounded; eauto.
Qed.

End Windows.

(** X1: every segment of the pool that [combine_videos] cuts from its
    sources has a length above 0 and of at most [max_clip_duration]. *)
Theorem pool_windows_bounded
        (video_concat_mode : Schema.VideoConcatMode) (max_clip_duration : Z)
        (fuel : nat) (video_paths : list Video.VideoFile)
        (pool : list Clip.Clip) :
  (0 < max_clip_duration)%Z ->
  Video.split_all video_concat_mode max_clip_duration fuel video_paths []
    = Returned pool ->
  Forall (fun c => 0 < Clip.duration c
                   /\ Clip.duration c <= inject_Z max_clip_duration) pool.
Proof.
  intros Hmax Hrun.
  eapply split_all_bounded; [exact Hmax|constructor|exact Hrun].
Qed.

Lemma pool_windows_bounded_witness :
  (0 < 5)%Z
  /\ Video.split_all Schema.random 5 10 Examples.three_sources []
     = Returned Examples.three_sources_pool
  /\ Forall (fun c => 0 < Clip.duration c /\ Clip.duration c <= inject_Z 5)
            Examples.three_sources_pool.
Proof.
  assert (H1 : (0 < 5)%Z) by reflexivity.
  assert (H2 : Video.split_all Schema.random 5 10 Examples.three_sources []
               = Returned Examples.three_sources_pool)
    by (vm_compute; reflexivity).
  split; [exact H1|]. split; [exact H2|].
  exact (@pool_windows_bounded Schema.random 5 10 Examples.three_sources
           Examples.three_sources_pool H1 H2).
Defined.

(** X2: in sequential mode the pool holds exactly the first window of
    every source that has a length, in the order of the sources; one unit
    of fuel is enough, since the inner loop is left after its first
    pass. *)
Theorem sequential_pool_first_windows
        (max_clip_duration : Z) (fuel : nat)
        (video_paths : list Video.VideoFile) (raw_clips : list Clip.Clip) :
  Video.split_all Schema.sequential max_clip_duration (S fuel) video_paths
                  raw_clips
  = Returned (raw_clips
              ++ map (Segments.first_window max_clip_duration)
                     (filter Segments.has_length video_paths))%list.
Proof.
  revert raw_clips.
  induction video_paths as [|f rest IH]; intro raw_clips.
  - cbn. now rewrite app_nil_r.
  - cbn [Video.split_all Video.split_clip Clip.duration filter].
    unfold Segments.has_length.
    destruct (Qltb 0 (Video.file_duration f)); cbn [run_bind].
    + cbn [Schema.concat_value String.eqb Ascii.eqb Bool.eqb run_bind].
      rewrite IH. cbn [map]. rewrite <- app_assoc. reflexivity.
    + apply IH.
Qed.

Section Covering.
Import Clip Video Segments.

Variable max_clip_duration : Z.
Hypothesis max_positive : (0 < max_clip_duration)%Z.

Let cap : Q := inject_Z max_clip_duration.

Let cap_positive : 0 < cap.
Proof. subst cap. unfold Qlt. cbn. lia. Qed.

(** In random mode the windows cut from [start_time] on add up to what
    is left of the source. *)
Lemma split_clip_covers (clip : Clip) (fuel : nat) :
  forall clip_duration start_time raw_clips out,
    start_time <= clip_duration ->
    split_clip Schema.random max_clip_duration fuel clip clip_duration
               start_time raw_clips = Returned out ->
    total_duration out
    == total_duration raw_clips + (clip_duration - start_time).
Proof.
  induction fuel as [|fuel IH]; intros d s acc out Hle Hrun;
    cbn [split_clip] in Hrun; [discriminate|].
  fold cap in Hrun.
  destruct (Qltb_spec s d) as [Hlt|Hge].
  - cbn [Schema.concat_value String.eqb Ascii.eqb Bool.eqb] in Hrun.
    apply IH in Hrun.
    + rewrite Hrun, total_duration_app. unfold total_duration at 2.
      cbn [fold_right duration]. ring.
    + destruct (py_min_spec (s + cap) d) as [[H ->]|[H ->]]; lra.
  - inversion Hrun; subst. lra.
Qed.

Lemma split_all_covers (fuel : nat) (video_paths : list VideoFile) :
  forall raw_clips out,
    Forall (fun f => 0 <= file_duration f) video_paths ->
    split_all Schema.random max_clip_duration fuel video_paths raw_clips
      = Returned out ->
    total_duration out == total_duration raw_clips + sum_durations video_paths.
Proof.
  induction video_paths as [|f rest IH]; intros acc out Hlen Hrun;
    cbn [split_all] in Hrun.
  - inversion Hrun; subst. cbn. ring.
  - inversion Hlen as [|? ? Hf Hrest]; subst.
    destruct (split_clip Schema.random max_clip_duration fuel _ _ 0 acc)
      as [acc'| |] eqn:E; cbn [run_bind] in Hrun; try discriminate.
    apply split_clip_covers in E; [|cbn [duration]; exact Hf].
    apply (IH acc' out Hrest) in Hrun.
    rewrite Hrun, E. cbn [duration sum_durations fold_right].
    fold (sum_durations rest). ring.
Qed.

(** The windows of one source follow one another without a gap. *)
Lemma split_clip_tiles (clip : Clip) (fuel : nat) :
  forall clip_duration start_time raw_clips out,
    split_clip Schema.random max_clip_duration fuel clip clip_duration
               start_time raw_clips = Returned out ->
    exists windows,
      out = (raw_clips ++ windows)%list
      /\ Segments.tiles clip start_time clip_duration windows.
Proof.
  induction fuel as [|fuel IH]; intros d s acc out Hrun;
    cbn [split_clip] in Hrun; [discriminate|].
  fold cap in Hrun.
  destruct (Qltb_spec s d) as [Hlt|Hge].
  - cbn [Schema.concat_value String.eqb Ascii.eqb Bool.eqb] in Hrun.
    apply IH in Hrun. destruct Hrun as (ws & Hout & Htiles).
    exists (subclipped clip s (py_min (s + cap) d) :: ws). split.
    + rewrite Hout, <- app_assoc. reflexivity.
    + cbn [Segments.tiles]. exists (py_min (s + cap) d).
      split; [reflexivity|].
      destruct (py_min_spec (s + cap) d) as [[H E]|[H E]];
        rewrite E in *; repeat split; try lra; exact Htiles.
  - inversion Hrun; subst. exists []. split; [now rewrite app_nil_r|].
    cbn [Segments.tiles]. now apply Qnot_lt_le.
Qed.

Lemma split_all_tiles (fuel : nat) (video_paths : list VideoFile) :
  forall raw_clips out,
    split_all Schema.random max_clip_duration fuel video_paths raw_clips
      = Returned out ->
    exists groups,
      out = (raw_clips ++ List.concat groups)%list
      /\ Forall2 (fun f windows =>
                    Segments.tiles (Segments.source_clip f) 0
                                   (file_duration f) windows)
                 video_paths groups.
Proof.
  induction video_paths as [|f rest IH]; intros acc out Hrun;
    cbn [split_all] in Hrun.
  - inversion Hrun; subst. exists []. split; [now rewrite app_nil_r|].
    constructor.
  - destruct (split_clip Schema.random max_clip_duration fuel _ _ 0 acc)
      as [acc'| |] eqn:E; cbn [run_bind] in Hrun; try discriminate.
    apply split_clip_tiles in E. destruct E as (ws & Hacc & Htiles).
    apply IH in Hrun. destruct Hrun as (groups & Hout & Hall).
    exists (ws :: groups). split.
    + rewrite Hout, Hacc. cbn [List.concat]. now rewrite app_assoc.
    + constructor; [exact Htiles|exact Hall].
Qed.

End Covering.

(** X3: in random mode the windows cut from the sources leave nothing
    out and overlap nowhere.  The pool, before it is shuffled, is the
    windows of the first source, then those of the second, and so on;
    the first window of a source begins at 0, every other begins where
    the one before it ends, none is empty, and the last ends with the
    source.  So the segments of the pool add up to the lengths of the
    sources. *)
Theorem random_pool_covers_sources
        (max_clip_duration : Z) (fuel : nat)
        (video_paths : list Video.VideoFile) (pool : list Clip.Clip) :
  (0 < max_clip_duration)%Z ->
  Forall (fun f => 0 <= Video.file_duration f) video_paths ->
  Video.split_all Schema.random max_clip_duration fuel video_paths []
    = Returned pool ->
  Segments.tiled_pool video_paths pool
  /\ Clip.total_duration pool == Segments.sum_durations video_paths.
Proof.
  intros Hmax Hlen Hrun. split.
  - apply split_all_tiles in Hrun; [|exact Hmax].
    destruct Hrun as (groups & Hout & Hall). now exists groups.
  - apply split_all_covers in Hrun; try assumption.
    rewrite Hrun. cbn. ring.
Qed.

Lemma random_pool_covers_sources_witness :
  (0 < 5)%Z
  /\ Forall (fun f => 0 <= Video.file_duration f) Examples.three_sources
  /\ Video.split_all Schema.random 5 10 Examples.three_sources []
     = Returned Examples.three_sources_pool
  /\ Segments.tiled_pool Examples.three_sources Examples.three_sources_pool
  /\ Clip.total_duration Examples.three_sources_pool
     == Segments.sum_durations Examples.three_sources.
Proof.
  assert (H1 : (0 < 5)%Z) by reflexivity.
  assert (H2 : Forall (fun f => 0 <= Video.file_duration f)
                      Examples.three_sources)
    by (repeat constructor; discriminate).
  assert (H3 : Video.split_all Schema.random 5 10 Examples.three_sources []
               = Returned Examples.three_sources_pool)
    by (vm_compute; reflexivity).
  split; [exact H1|]. split; [exact H2|]. split; [exact H3|].
  exact (@random_pool_covers_sources 5 10 Examples.three_sources
           Examples.three_sources_pool H1 H2 H3).
Defined.

(** ** What [combine_videos] hands to the writer *)

Section Appended.
Import Clip Video.

Variable audio_duration : Q.
Variable video_transition_mode : option Schema.VideoTransitionMode.
Variable max_clip_duration : Z.
Variables video_width video_height : Z.

Let cap : Q := inject_Z max_clip_duration.

(** Whenever the normaliser returns, it returns a clip of the size of
    the output frame. *)
Lemma fit_frame_size (clip out : Clip) :
  fit_frame video_width video_height clip = Returned out ->
  size out = (video_width, video_height).
Proof.
  unfold fit_frame. destruct (size clip) as [w h] eqn:Hsize.
  destruct (negb (w =? video_width)%Z || negb (h =? video_height)%Z) eqn:Esame.
  - destruct (Float64.div (inject_Z w) (inject_Z h)); cbn [run_bind];
      try discriminate.
    destruct (Float64.div (inject_Z video_width) (inject_Z video_height));
      cbn [run_bind]; try discriminate.
    destruct (Qeq_bool _ _).
    + intro H. inversion H; subst. reflexivity.
    + destruct (Qltb _ _);
        match goal with
        | |- context [Float64.div ?a ?b] => destruct (Float64.div a b)
        end; cbn [run_bind]; try discriminate;
        intro H; inversion H; subst; reflexivity.
  - intro H. inversion H; subst. rewrite Hsize.
    apply same_size_dec in Esame. now inversion Esame.
Qed.

Lemma apply_transition_size (clip out : Clip) (rng rng' : Random.Rng) :
  apply_transition video_transition_mode clip rng = Returned (out, rng') ->
  size out = size clip.
Proof.
  destruct video_transition_mode as [mode|].
  - destruct (apply_transition_member mode clip rng)
      as (out' & rng'' & -> & _ & _ & Hsize).
    intro H. inversion H; subst. exact Hsize.
  - now rewrite apply_transition_None.
Qed.

(** The clip a pass of the loop appends: no longer than the cap, and of
    the size of the output frame. *)
Let well_cut (c : Clip) : Prop :=
  duration c <= cap /\ size c = (video_width, video_height).

Lemma append_clip_appends (clip : Clip) (st st' : PackState) :
  append_clip audio_duration video_transition_mode max_clip_duration
              video_width video_height clip st = Returned st' ->
  exists c, clips st' = (clips st ++ [c])%list /\ well_cut c.
Proof.
  unfold append_clip. fold cap.
  match goal with
  | |- context [fit_frame _ _ ?c] =>
      destruct (fit_frame video_width video_height c) as [fitted| |] eqn:Efit
  end; cbn [run_bind]; try discriminate.
  apply fit_frame_size in Efit.
  destruct (apply_transition video_transition_mode fitted (rng st))
    as [[out rng']| |] eqn:Etr; cbn [run_bind]; try discriminate.
  apply apply_transition_size in Etr.
  intro H. inversion H; subst. cbn [clips].
  eexists. split; [reflexivity|]. unfold well_cut.
  destruct (Qltb_spec cap (duration out)) as [Hlt|Hge].
  - cbn [duration size]. split; [lra|congruence].
  - split; [now apply Qnot_lt_le|congruence].
Qed.

Lemma for_raw_clips_appends (raw_clips : list Clip) :
  forall st st',
    Forall well_cut (clips st) ->
    for_raw_clips audio_duration video_transition_mode max_clip_duration
                  video_width video_height raw_clips st = Returned st' ->
    Forall well_cut (clips st').
Proof.
  induction raw_clips as [|clip rest IH]; intros st st' Hst Hrun;
    cbn [for_raw_clips] in Hrun.
  - inversion Hrun; subst. exact Hst.
  - destruct (append_clip _ _ _ _ _ clip st) as [st1| |] eqn:E;
      cbn [run_bind] in Hrun; try discriminate.
    apply append_clip_appends in E. destruct E as (c & Hc & Hcut).
    apply (IH st1 st'); [|exact Hrun].
    rewrite Hc. apply Forall_app. split; [exact Hst|now constructor].
Qed.

Lemma pack_appends (fuel : nat) (raw_clips : list Clip) :
  forall st st',
    Forall well_cut (clips st) ->
    pack audio_duration video_transition_mode max_clip_duration
         video_width video_height fuel raw_clips st = Returned st' ->
    Forall well_cut (clips st').
Proof.
  induction fuel as [|fuel IH]; intros st st' Hst Hrun;
    cbn [pack] in Hrun; [discriminate|].
  destruct (Qltb _ _).
  - destruct (for_raw_clips _ _ _ _ _ raw_clips st) as [st1| |] eqn:E;
      cbn [run_bind] in Hrun; try discriminate.
    apply (IH st1 st'); [|exact Hrun].
    eapply for_raw_clips_appends; eauto.
  - inversion Hrun; subst. exact Hst.
Qed.

End Appended.

(** What [combine_videos] returns is what the packing loop collected,
    each clip wrapped into a composite of its own. *)
Lemma combine_videos_returned
      (fuel : nat) (video_paths : list Video.VideoFile) (audio_duration : Q)
      (video_aspect : Schema.VideoAspect)
      (video_concat_mode : Schema.VideoConcatMode)
      (video_transition_mode : option Schema.VideoTransitionMode)
      (max_clip_duration : Z) (rng : Random.Rng) (out : list Clip.Clip) :
  Video.combine_videos fuel video_paths audio_duration video_aspect
                       video_concat_mode video_transition_mode
                       max_clip_duration rng = Returned out ->
  exists pool rng' st,
    Video.pack audio_duration video_transition_mode max_clip_duration
               (fst (Schema.to_resolution video_aspect))
               (snd (Schema.to_resolution video_aspect))
               fuel pool
               {| Video.clips := []; Video.video_duration := 0;
                  Video.rng := rng' |} = Returned st
    /\ out = map (fun clip => Clip.CompositeVideoClip [clip]) (Video.clips st).
Proof.
  unfold Video.combine_videos.
  destruct (py_div _ _); cbn [run_bind]; try discriminate.
  destruct (Schema.to_resolution video_aspect) as [W H].
  destruct (Video.split_all _ _ _ _ _) as [pool| |]; cbn [run_bind];
    try discriminate.
  destruct (if String.eqb _ _ then _ else _) as [pool' rng'].
  destruct (Video.pack _ _ _ _ _ _ _ _) as [st| |] eqn:E; cbn [run_bind];
    try discriminate.
  intro Hout. inversion Hout; subst.
  exists pool', rng', st. split; [exact E|reflexivity].
Qed.

(** X4: no clip that [combine_videos] hands to the writer is longer than
    [max_clip_duration], whatever the sources, the audio and the
    transition. *)
Theorem combine_videos_clips_within_cap
        (fuel : nat) (video_paths : list Video.VideoFile) (audio_duration : Q)
        (video_aspect : Schema.VideoAspect)
        (video_concat_mode : Schema.VideoConcatMode)
        (video_transition_mode : option Schema.VideoTransitionMode)
        (max_clip_duration : Z) (rng : Random.Rng) (out : list Clip.Clip) :
  (0 <= max_clip_duration)%Z ->
  Video.combine_videos fuel video_paths audio_duration video_aspect
                       video_concat_mode video_transition_mode
                       max_clip_duration rng = Returned out ->
  Forall (fun c => Clip.duration c <= inject_Z max_clip_duration) out.
Proof.
  intros Hmax Hrun.
  apply combine_videos_returned in Hrun.
  destruct Hrun as (pool & rng' & st & Hpack & ->).
  apply pack_appends in Hpack; [|constructor].
  apply Forall_map. eapply Forall_impl; [|exact Hpack].
  intros c [Hc _]. cbn [Clip.duration fold_right].
  assert (H0 : 0 <= inject_Z max_clip_duration) by (unfold Qle; cbn; lia).
  apply Q.max_lub; [exact Hc|exact H0].
Qed.

Lemma combine_videos_clips_within_cap_witness :
  (0 <= 5)%Z
  /\ (exists out,
         Video.combine_videos 10 Examples.three_sources 12 Schema.portrait
                              Schema.random (Some Schema.fade_in) 5 []
         = Returned out
         /\ Forall (fun c => Clip.duration c <= inject_Z 5) out).
Proof.
  assert (H1 : (0 <= 5)%Z) by discriminate.
  split; [exact H1|].
  destruct (Video.combine_videos 10 Examples.three_sources 12 Schema.portrait
              Schema.random (Some Schema.fade_in) 5 []) as [out| |] eqn:E.
  - exists out. split; [reflexivity|].
    exact (@combine_videos_clips_within_cap 10 Examples.three_sources 12
             Schema.portrait Schema.random (Some Schema.fade_in) 5 [] out
             H1 E).
  - exfalso. vm_compute in E. discriminate E.
  - exfalso. vm_compute in E. discriminate E.
Defined.

(** X5: every clip that [combine_videos] hands to the writer has the
    frame size of the requested aspect, whatever the frame sizes of the
    sources. *)
Theorem combine_videos_clips_at_resolution
        (fuel : nat) (video_paths : list Video.VideoFile) (audio_duration : Q)
        (video_aspect : Schema.VideoAspect)
        (video_concat_mode : Schema.VideoConcatMode)
        (video_transition_mode : option Schema.VideoTransitionMode)
        (max_clip_duration : Z) (rng : Random.Rng) (out : list Clip.Clip) :
  Video.combine_videos fuel video_paths audio_duration video_aspect
                       video_concat_mode video_transition_mode
                       max_clip_duration rng = Returned out ->
  Forall (fun c => Clip.size c = Schema.to_resolution video_aspect) out.
Proof.
  intro Hrun.
  apply combine_videos_returned in Hrun.
  destruct Hrun as (pool & rng' & st & Hpack & ->).
  apply pack_appends in Hpack; [|constructor].
  apply Forall_map. eapply Forall_impl; [|exact Hpack].
  intros c [_ Hc]. cbn [Clip.size]. rewrite Hc.
  now destruct (Schema.to_resolution video_aspect).
Qed.

Lemma combine_videos_clips_at_resolution_witness :
  exists out,
    Video.combine_videos 10 [Examples.landscape_source] 2 Schema.portrait
                         Schema.random (Some Schema.none) 5 [] = Returned out
    /\ Forall (fun c => Clip.size c = Schema.to_resolution Schema.portrait) out.
Proof.
  destruct (Video.combine_videos 10 [Examples.landscape_source] 2
              Schema.portrait Schema.random (Some Schema.none) 5 [])
    as [out| |] eqn:E.
  - exists out. split; [reflexivity|].
    exact (@combine_videos_clips_at_resolution 10 [Examples.landscape_source]
             2 Schema.portrait Schema.random (Some Schema.none) 5 [] out E).
  - exfalso. vm_compute in E. discriminate E.
  - exfalso. vm_compute in E. discriminate E.
Defined.

(** ** [combine_videos] returns a video as long as the audio *)

Section Fuel.
Import Clip Video Segments.

Variable video_concat_mode : Schema.VideoConcatMode.
Variable max_clip_duration : Z.

Let cap : Q := inject_Z max_clip_duration.

(** More fuel does not change what a loop returned. *)
Lemma split_clip_mono (clip : Clip) (fuel : nat) :
  forall fuel' clip_duration start_time raw_clips out,
    (fuel <= fuel')%nat ->
    split_clip video_concat_mode max_clip_duration fuel clip clip_duration
               start_time raw_clips = Returned out ->
    split_clip video_concat_mode max_clip_duration fuel' clip clip_duration
               start_time raw_clips = Returned out.
Proof.
  induction fuel as [|fuel IH]; intros fuel' d s acc out Hle Hrun;
    cbn [split_clip] in Hrun; [discriminate|].
  destruct fuel' as [|fuel']; [lia|]. cbn [split_clip].
  destruct (Qltb s d); [|exact Hrun].
  destruct (String.eqb _ _); [exact Hrun|].
  apply IH; [lia|exact Hrun].
Qed.

Lemma split_all_mono (fuel fuel' : nat) (video_paths : list VideoFile) :
  forall raw_clips out,
    (fuel <= fuel')%nat ->
    split_all video_concat_mode max_clip_duration fuel video_paths raw_clips
      = Returned out ->
    split_all video_concat_mode max_clip_duration fuel' video_paths raw_clips
      = Returned out.
Proof.
  induction video_paths as [|f rest IH]; intros acc out Hle Hrun;
    cbn [split_all] in *; [exact Hrun|].
  destruct (split_clip video_concat_mode max_clip_duration fuel _ _ 0 acc)
    as [acc'| |] eqn:E; cbn [run_bind] in Hrun; try discriminate.
  erewrite split_clip_mono; [|exact Hle|exact E]. cbn [run_bind].
  now apply IH.
Qed.

Lemma split_clip_unfold (clip : Clip) (fuel : nat) (clip_duration start_time : Q)
      (raw_clips : list Clip) :
  split_clip video_concat_mode max_clip_duration (S fuel) clip clip_duration
             start_time raw_clips
  = if Qltb start_time clip_duration then
      if String.eqb (Schema.concat_value video_concat_mode)
                    (Schema.concat_value Schema.sequential)
      then Returned (raw_clips
                     ++ [subclipped clip start_time
                           (py_min (start_time + cap) clip_duration)])%list
      else split_clip video_concat_mode max_clip_duration fuel clip
                      clip_duration (py_min (start_time + cap) clip_duration)
                      (raw_clips
                       ++ [subclipped clip start_time
                             (py_min (start_time + cap) clip_duration)])%list
    else Returned raw_clips.
Proof. reflexivity. Qed.

Hypothesis max_positive : (0 < max_clip_duration)%Z.

Let cap_positive : 0 < cap.
Proof. subst cap. unfold Qlt. cbn. lia. Qed.

(** The cutting loop returns once the fuel covers the windows that fit
    into what is left of the source. *)
Lemma split_clip_returns (clip : Clip) (clip_duration : Q) (n : nat) :
  forall start_time raw_clips,
    clip_duration - start_time <= inject_Z (Z.of_nat n) * cap ->
    exists out,
      split_clip video_concat_mode max_clip_duration (S n) clip clip_duration
                 start_time raw_clips = Returned out.
Proof.
  induction n as [|n IH]; intros s acc Hleft; rewrite split_clip_unfold.
  - change (inject_Z (Z.of_nat 0)) with 0 in Hleft.
    destruct (Qltb_spec s clip_duration) as [Hlt|Hge]; [lra|].
    now exists acc.
  - destruct (Qltb_spec s clip_duration) as [Hlt|Hge]; [|now exists acc].
    destruct (String.eqb _ _); [eexists; reflexivity|].
    apply IH.
    rewrite Nat2Z.inj_succ in Hleft. unfold Z.succ in Hleft.
    rewrite inject_Z_plus in Hleft. change (inject_Z 1) with 1 in Hleft.
    assert (Hn : 0 <= inject_Z (Z.of_nat n)) by (unfold Qle; cbn; lia).
    destruct (py_min_spec (s + cap) clip_duration) as [[H ->]|[H ->]];
      [nra|lra].
Qed.

Lemma split_clip_terminates (clip : Clip) (clip_duration start_time : Q) :
  exists fuel, forall raw_clips, exists out,
    split_clip video_concat_mode max_clip_duration fuel clip clip_duration
               start_time raw_clips = Returned out.
Proof.
  destruct (Qlt_le_dec start_time clip_duration) as [Hlt|Hge].
  - set (n := Z.to_nat (Qceiling ((clip_duration - start_time) / cap))).
    exists (S n). intro acc. apply split_clip_returns. subst n.
    assert (Hc : (0 <= Qceiling ((clip_duration - start_time) / cap))%Z).
    { pose proof (Qceiling_resp_le 0 ((clip_duration - start_time) / cap)) as H.
      change (Qceiling 0) with 0%Z in H. apply H.
      apply Qle_shift_div_l; [exact cap_positive|lra]. }
    rewrite Z2Nat.id by exact Hc.
    pose proof (Qle_ceiling ((clip_duration - start_time) / cap)) as Hceil.
    assert (E : clip_duration - start_time
                == (clip_duration - start_time) / cap * cap).
    { field. intro E. rewrite E in cap_positive. discriminate. }
    rewrite E at 1. nra.
  - exists 1%nat. intro acc. apply split_clip_returns.
    change (inject_Z (Z.of_nat 0)) with 0. lra.
Qed.

Lemma split_all_terminates (video_paths : list VideoFile) :
  exists fuel, forall raw_clips, exists out,
    split_all video_concat_mode max_clip_duration fuel video_paths raw_clips
      = Returned out.
Proof.
  induction video_paths as [|f rest [fuel_rest IH]].
  - exists 0%nat. intro acc. now exists acc.
  - destruct (split_clip_terminates (source_clip f) (duration (source_clip f)) 0)
      as [fuel_f Hf].
    exists (Nat.max fuel_f fuel_rest). intro acc. cbn [split_all].
    destruct (Hf acc) as [acc' Hacc'].
    fold (source_clip f).
    erewrite split_clip_mono;
      [|exact (Nat.le_max_l fuel_f fuel_rest)|exact Hacc'].
    cbn [run_bind].
    destruct (IH acc') as [out Hout]. exists out.
    eapply split_all_mono; [exact (Nat.le_max_r fuel_f fuel_rest)|exact Hout].
Qed.

(** Cutting never drops a segment, and a source of positive length adds
    one. *)
Lemma split_clip_grows (clip : Clip) (fuel : nat) :
  forall clip_duration start_time raw_clips out,
    split_clip video_concat_mode max_clip_duration fuel clip clip_duration
               start_time raw_clips = Returned out ->
    (List.length raw_clips <= List.length out)%nat
    /\ (start_time < clip_duration ->
        (List.length raw_clips < List.length out)%nat).
Proof.
  induction fuel as [|fuel IH]; intros d s acc out Hrun;
    cbn [split_clip] in Hrun; [discriminate|].
  destruct (Qltb_spec s d) as [Hlt|Hge].
  - assert (Hlen : (List.length acc
                    < List.length (acc ++ [subclipped clip s
                        (py_min (s + inject_Z max_clip_duration) d)]))%nat).
    { rewrite length_app. cbn. lia. }
    destruct (String.eqb _ _).
    + inversion Hrun; subst. split; [lia|intros _; exact Hlen].
    + apply IH in Hrun. destruct Hrun as [Hrun _]. split; [lia|intros _; lia].
  - inversion Hrun; subst. split; [lia|intro H; contradiction].
Qed.

Lemma split_all_grows (fuel : nat) (video_paths : list VideoFile) :
  forall raw_clips out,
    split_all video_concat_mode max_clip_duration fuel video_paths raw_clips
      = Returned out ->
    (List.length raw_clips <= List.length out)%nat
    /\ (Exists (fun f => 0 < file_duration f) video_paths ->
        (List.length raw_clips < List.length out)%nat).
Proof.
  induction video_paths as [|f rest IH]; intros acc out Hrun;
    cbn [split_all] in Hrun.
  - inversion Hrun; subst. split; [lia|intro H; inversion H].
  - destruct (split_clip video_concat_mode max_clip_duration fuel _ _ 0 acc)
      as [acc'| |] eqn:E; cbn [run_bind] in Hrun; try discriminate.
    apply split_clip_grows in E. destruct E as [E1 E2].
    apply IH in Hrun. destruct Hrun as [R1 R2].
    split; [lia|]. intro Hex. inversion Hex as [? ? Hf|? ? Hrest]; subst.
    + cbn [duration] in E2. specialize (E2 Hf). lia.
    + specialize (R2 Hrest). lia.
Qed.

End Fuel.

Section Reaching.
Import Clip Video Segments.

Variable audio_duration : Q.
Variable mode : Schema.VideoTransitionMode.
Variable max_clip_duration : Z.
Variables video_width video_height : Z.

Hypothesis height_positive : (0 < video_height)%Z.
Hypothesis max_positive : (0 < max_clip_duration)%Z.

Let pack := pack audio_duration (Some mode) max_clip_duration
                 video_width video_height.

Lemma pack_mono (raw_clips : list Clip) (fuel : nat) :
  forall fuel' st st',
    (fuel <= fuel')%nat ->
    pack fuel raw_clips st = Returned st' ->
    pack fuel' raw_clips st = Returned st'.
Proof.
  subst pack.
  induction fuel as [|fuel IH]; intros fuel' st st' Hle Hrun;
    cbn [Video.pack] in Hrun; [discriminate|].
  destruct fuel' as [|fuel']; [lia|]. cbn [Video.pack].
  destruct (Qltb _ _); [|exact Hrun].
  destruct (for_raw_clips _ _ _ _ _ raw_clips st) as [st1| |];
    cbn [run_bind] in *; try discriminate.
  apply IH; [lia|exact Hrun].
Qed.

(** The loop keeps its total, and appends no clip of negative length. *)
Let kept (st : PackState) : Prop :=
  packed audio_duration st /\ Forall (fun c => 0 <= duration c) (clips st).

Lemma append_clip_kept (clip : Clip) (st st' : PackState) :
  is_segment clip -> kept st ->
  append_clip audio_duration (Some mode) max_clip_duration
              video_width video_height clip st = Returned st' ->
  kept st'.
Proof.
  intros Hclip [Hpacked Hnonneg] Hrun.
  destruct (@append_clip_packed audio_duration mode max_clip_duration
              video_width video_height height_positive max_positive
              clip st Hclip Hpacked) as (st1 & Hrun1 & Hpacked1 & Hmono & _).
  rewrite Hrun in Hrun1. inversion Hrun1; subst st1.
  split; [exact Hpacked1|].
  pose proof Hrun as Happ. apply append_clip_appends in Happ.
  destruct Happ as (c & Hc & _).
  rewrite Hc. apply Forall_app. split; [exact Hnonneg|].
  constructor; [|constructor].
  destruct Hpacked as [Ht _]. destruct Hpacked1 as [Ht1 _].
  rewrite Hc, total_duration_app in Ht1.
  unfold total_duration at 2 in Ht1. cbn [fold_right] in Ht1. lra.
Qed.

Lemma for_raw_clips_kept (raw_clips : list Clip) :
  forall st st',
    Forall is_segment raw_clips -> kept st ->
    for_raw_clips audio_duration (Some mode) max_clip_duration
                  video_width video_height raw_clips st = Returned st' ->
    kept st'.
Proof.
  induction raw_clips as [|clip rest IH]; intros st st' Hpool Hst Hrun;
    cbn [for_raw_clips] in Hrun.
  - inversion Hrun; subst. exact Hst.
  - inversion Hpool as [|? ? Hclip Hrest]; subst.
    destruct (append_clip _ _ _ _ _ clip st) as [st1| |] eqn:E;
      cbn [run_bind] in Hrun; try discriminate.
    apply (IH st1 st' Hrest); [|exact Hrun].
    eapply append_clip_kept; eauto.
Qed.

Lemma pack_kept (raw_clips : list Clip) (fuel : nat) :
  forall st st',
    Forall is_segment raw_clips -> kept st ->
    pack fuel raw_clips st = Returned st' ->
    kept st'.
Proof.
  subst pack.
  induction fuel as [|fuel IH]; intros st st' Hpool Hst Hrun;
    cbn [Video.pack] in Hrun; [discriminate|].
  destruct (Qltb _ _).
  - destruct (for_raw_clips _ _ _ _ _ raw_clips st) as [st1| |] eqn:E;
      cbn [run_bind] in Hrun; try discriminate.
    apply (IH st1 st' Hpool); [|exact Hrun].
    eapply for_raw_clips_kept; eauto.
  - inversion Hrun; subst. exact Hst.
Qed.

(** Wrapping each clip into a composite of its own keeps the total. *)
Lemma total_duration_wrapped (cs : list Clip) :
  Forall (fun c => 0 <= duration c) cs ->
  total_duration (map (fun clip => CompositeVideoClip [clip]) cs)
  == total_duration cs.
Proof.
  induction 1 as [|c cs Hc Hcs IH]; [reflexivity|].
  unfold total_duration in *. cbn [map fold_right duration].
  rewrite IH. rewrite (Q.max_l (duration c) 0) by exact Hc. reflexivity.
Qed.

(** With enough fuel the packing loop returns clips that, wrapped, are
    as long as the audio. *)
Lemma pack_reaches_audio (raw_clips : list Clip) (rng : Random.Rng) :
  raw_clips <> [] ->
  Forall is_segment raw_clips ->
  0 < audio_duration ->
  exists fuel st',
    pack fuel raw_clips {| clips := []; video_duration := 0; rng := rng |}
      = Returned st'
    /\ total_duration (map (fun clip => CompositeVideoClip [clip]) (clips st'))
       == audio_duration.
Proof.
  intros Hne Hpool Haudio.
  destruct raw_clips as [|clip rest]; [contradiction|].
  destruct (@pack_reaches_target audio_duration mode max_clip_duration
              video_width video_height height_positive max_positive
              clip rest rng Hpool Haudio) as (fuel & st' & Hrun & Htotal).
  exists fuel, st'. split; [exact Hrun|].
  rewrite total_duration_wrapped; [exact Htotal|].
  eapply pack_kept; [exact Hpool| |exact Hrun].
  split; [|constructor]. split; cbn [clips video_duration]; [reflexivity|lra].
Qed.

End Reaching.

(** In exact arithmetic: for sources with frames of positive size, of
    which one at least has a length, a positive [max_clip_duration],
    audio of positive length and any member of [VideoTransitionMode],
    the loops of [combine_videos] come to an end, and the clips add up
    to the length of the audio. *)
Lemma combine_videos_fills_audio
        (video_paths : list Video.VideoFile) (audio_duration : Q)
        (video_aspect : Schema.VideoAspect)
        (video_concat_mode : Schema.VideoConcatMode)
        (mode : Schema.VideoTransitionMode)
        (max_clip_duration : Z) (rng : Random.Rng) :
  Forall Segments.source_has_frame video_paths ->
  Exists (fun f => 0 < Video.file_duration f) video_paths ->
  (0 < max_clip_duration)%Z ->
  0 < audio_duration ->
  exists fuel out,
    Video.combine_videos fuel video_paths audio_duration video_aspect
                         video_concat_mode (Some mode) max_clip_duration rng
      = Returned out
    /\ Clip.total_duration out == audio_duration.
Proof.
  intros Hframes Hlong Hmax Haudio.
  destruct (split_all_terminates video_concat_mode Hmax video_paths)
    as [fuel1 Hsplit].
  destruct (Hsplit []) as [pool Hpool].
  assert (Hseg : Forall Clip.is_segment pool).
  { assert (Hb : Forall (fun c => 0 < Clip.duration c
                                  /\ Clip.duration c
                                     <= inject_Z max_clip_duration) pool)
      by (eapply split_all_bounded; [exact Hmax|constructor|exact Hpool]).
    assert (Hf : Forall Clip.has_frame pool).
    { eapply split_all_Forall; [|constructor|exact Hpool].
      eapply Forall_impl; [|exact Hframes]. intros f Hf s e. exact Hf. }
    rewrite Forall_forall in *. intros c Hc. split; [now apply Hf|].
    now apply Hb. }
  assert (Hne : (0 < List.length pool)%nat).
  { apply split_all_grows in Hpool. destruct Hpool as [_ H].
    specialize (H Hlong). cbn in H. exact H. }
  destruct (to_resolution_positive video_aspect) as [_ HH].
  destruct (Schema.to_resolution video_aspect) as [W H] eqn:Eres.
  cbn [snd] in HH.
  set (shuffled := if String.eqb (Schema.concat_value video_concat_mode)
                                 (Schema.concat_value Schema.random)
                   then Random.shuffle pool rng else (pool, rng)).
  assert (Hseg' : Forall Clip.is_segment (fst shuffled)).
  { subst shuffled. destruct (String.eqb _ _); [|exact Hseg].
    now apply shuffle_Forall. }
  assert (Hne' : fst shuffled <> []).
  { subst shuffled. intro E. apply (f_equal (@List.length _)) in E.
    destruct (String.eqb _ _); [rewrite shuffle_length in E|];
      cbn in E; lia. }
  destruct (@pack_reaches_audio audio_duration mode max_clip_duration
              W H HH Hmax (fst shuffled) (snd shuffled) Hne' Hseg' Haudio)
    as (fuel2 & st' & Hpack & Htotal).
  exists (Nat.max fuel1 fuel2),
         (map (fun clip => Clip.CompositeVideoClip [clip]) (Video.clips st')).
  split; [|exact Htotal].
  assert (Hpack' :
            Video.pack audio_duration (Some mode) max_clip_duration W H
                       (Nat.max fuel1 fuel2) (fst shuffled)
                       {| Video.clips := []; Video.video_duration := 0;
                          Video.rng := snd shuffled |} = Returned st').
  { eapply pack_mono; [exact (Nat.le_max_r fuel1 fuel2)|exact Hpack]. }
  unfold Video.combine_videos.
  rewrite py_div_returns.
  2:{ apply inject_Z_nonzero. destruct video_paths; [inversion Hlong|].
      simpl List.length. lia. }
  cbn [run_bind]. rewrite Eres.
  erewrite split_all_mono; [|exact (Nat.le_max_l fuel1 fuel2)|exact Hpool].
  cbn [run_bind]. fold shuffled.
  destruct shuffled as [pool' rng']. cbn [fst snd] in Hpack'.
  rewrite Hpack'. reflexivity.
Qed.



(** ** [wrap_text]: what the two loops keep *)

Lemma sapp_nil_r (s : string) : (s ++ "")%string = s.
Proof. induction s as [|c s IH]; cbn; [reflexivity|now rewrite IH]. Qed.

Lemma sapp_assoc (a b c : string) :
  ((a ++ b) ++ c)%string = (a ++ (b ++ c))%string.
Proof. induction a as [|x a IH]; cbn; [reflexivity|now rewrite IH]. Qed.

Lemma concat_cons (h : string) (t : list string) :
  String.concat "" (h :: t) = (h ++ String.concat "" t)%string.
Proof. destruct t; cbn; [now rewrite sapp_nil_r|reflexivity]. Qed.

Lemma concat_app (xs ys : list string) :
  String.concat "" (xs ++ ys)
  = (String.concat "" xs ++ String.concat "" ys)%string.
Proof.
  induction xs as [|x xs IH]; [reflexivity|].
  change ((x :: xs) ++ ys)%list with (x :: (xs ++ ys))%list.
  now rewrite !concat_cons, IH, sapp_assoc.
Qed.

(** The characters of a string, put end to end, are the string. *)
Lemma chars_concat (s : string) : String.concat "" (PyStr.chars s) = s.
Proof.
  induction s as [|c s IH]; [reflexivity|].
  cbn [PyStr.chars]. destruct (PyStr.chars s) as [|h t].
  - cbn in IH. now subst s.
  - rewrite concat_cons in IH.
    destruct (PyStr.continues s); rewrite !concat_cons; cbn; now rewrite IH.
Qed.

(** A character of more than one byte is kept whole: [list("a中b")]. *)
Example chars_code_points :
  let zhong := String (ascii_of_nat 228)
                 (String (ascii_of_nat 184)
                    (String (ascii_of_nat 173) EmptyString)) in
  PyStr.chars ("a" ++ zhong ++ "b") = ["a"%string; zhong; "b"%string].
Proof. reflexivity. Qed.

Section WrapLoops.
Import Wrap.

Variable font : ImageFont.
Variable max_width : Q.

(** The character loop drops nothing. *)
Lemma char_loop_content (chars : list string) :
  forall _txt_ _wrapped_lines_,
    (String.concat "" (snd (char_loop font max_width chars _txt_ _wrapped_lines_))
     ++ fst (char_loop font max_width chars _txt_ _wrapped_lines_))%string
    = (String.concat "" _wrapped_lines_ ++ _txt_
       ++ String.concat "" chars)%string.
Proof.
  induction chars as [|c rest IH]; intros txt lines.
  - cbn. now rewrite sapp_nil_r.
  - cbn [char_loop]. rewrite concat_cons.
    destruct (fits font max_width (txt ++ c)).
    + rewrite IH. now rewrite sapp_assoc.
    + rewrite IH, concat_app. cbn [String.concat].
      rewrite !sapp_assoc. reflexivity.
Qed.

(** A line of the wrapped [text] closed one character too late: too
    wide, and not so without its last character, a character being an
    item of [list(text)]. *)
Definition one_too_many (text line : string) : Prop :=
  too_wide font max_width line
  /\ exists before c,
       line = (before ++ c)%string
       /\ In c (PyStr.chars text)
       /\ fits font max_width before = true.

Lemma char_loop_lines (text : string) (chars : list string) :
  forall _txt_ _wrapped_lines_,
    fits font max_width "" = true ->
    fits font max_width _txt_ = true ->
    Forall (one_too_many text) _wrapped_lines_ ->
    Forall (fun c => In c (PyStr.chars text)) chars ->
    Forall (one_too_many text)
           (snd (char_loop font max_width chars _txt_ _wrapped_lines_))
    /\ fits font max_width
            (fst (char_loop font max_width chars _txt_ _wrapped_lines_))
       = true.
Proof.
  induction chars as [|c rest IH]; intros txt lines Hempty Htxt Hlines Hchars.
  - now split.
  - inversion Hchars as [|? ? Hc Hrest]; subst. cbn [char_loop].
    destruct (fits font max_width (txt ++ c)) eqn:E.
    + now apply IH.
    + apply IH; try assumption.
      apply Forall_app. split; [exact Hlines|].
      constructor; [|constructor]. split; [now apply fits_false|].
      now exists txt, c.
Qed.

(** The word loop drops and reorders nothing. *)
Lemma word_loop_content (words : list string) :
  forall _txt_ _wrapped_lines_,
    snd (word_loop font max_width words _txt_ _wrapped_lines_) = true ->
    (String.concat ""
       (snd (fst (word_loop font max_width words _txt_ _wrapped_lines_)))
     ++ fst (fst (word_loop font max_width words _txt_ _wrapped_lines_)))%string
    = (String.concat "" _wrapped_lines_ ++ _txt_
       ++ String.concat "" (map (fun w => w ++ " ")%string words))%string.
Proof.
  induction words as [|word rest IH]; intros txt lines Hdone.
  - cbn. now rewrite sapp_nil_r.
  - cbn [word_loop map] in *. rewrite concat_cons.
    destruct (fits font max_width (txt ++ word ++ " ")).
    + rewrite (IH _ _ Hdone). now rewrite !sapp_assoc.
    + destruct (String.eqb _ _); [discriminate Hdone|].
      rewrite (IH _ _ Hdone), concat_app. cbn [String.concat].
      rewrite !sapp_assoc. reflexivity.
Qed.

End WrapLoops.

(** *** [strip] and [split] *)

Lemma rstrip_app_space (s : string) :
  PyStr.rstrip (s ++ " ") = PyStr.rstrip s.
Proof.
  induction s as [|c s IH]; [reflexivity|].
  cbn [append PyStr.rstrip]. now rewrite IH.
Qed.

Lemma strip_app_space (s : string) : PyStr.strip (s ++ " ") = PyStr.strip s.
Proof.
  unfold PyStr.strip. induction s as [|c s IH]; [reflexivity|].
  cbn [append PyStr.lstrip]. destruct (PyStr.is_space c); [exact IH|].
  change (String c (s ++ " ")) with (String c s ++ " ")%string.
  apply rstrip_app_space.
Qed.

Lemma rstrip_idem (s : string) : PyStr.rstrip (PyStr.rstrip s) = PyStr.rstrip s.
Proof.
  induction s as [|c s IH]; [reflexivity|].
  cbn [PyStr.rstrip].
  destruct (PyStr.rstrip s) as [|x r] eqn:E.
  - destruct (PyStr.is_space c) eqn:Ec; [reflexivity|].
    cbn [PyStr.rstrip]. now rewrite Ec.
  - cbn [PyStr.rstrip] in *. now rewrite IH.
Qed.

Lemma lstrip_head (s : string) :
  PyStr.lstrip s = EmptyString
  \/ exists c t, PyStr.lstrip s = String c t /\ PyStr.is_space c = false.
Proof.
  induction s as [|c s IH]; [now left|].
  cbn [PyStr.lstrip]. destruct (PyStr.is_space c) eqn:Ec; [exact IH|].
  right. now exists c, s.
Qed.

Lemma strip_idem (s : string) : PyStr.strip (PyStr.strip s) = PyStr.strip s.
Proof.
  unfold PyStr.strip.
  destruct (lstrip_head s) as [->|(c & t & -> & Hc)]; [reflexivity|].
  assert (Hl : PyStr.lstrip (PyStr.rstrip (String c t))
               = PyStr.rstrip (String c t)).
  { cbn [PyStr.rstrip]. destruct (PyStr.rstrip t).
    - rewrite Hc. cbn [PyStr.lstrip]. now rewrite Hc.
    - cbn [PyStr.lstrip]. now rewrite Hc. }
  rewrite Hl. apply rstrip_idem.
Qed.

Lemma split_not_nil (sep : ascii) (s : string) : PyStr.split sep s <> [].
Proof.
  destruct s as [|c s]; cbn [PyStr.split]; [discriminate|].
  destruct (Ascii.eqb c sep); [discriminate|].
  destruct (PyStr.split sep s); discriminate.
Qed.

(** The words of a text, each followed by the space it was split at, are
    the text and one space more. *)
Lemma split_spaces (s : string) :
  String.concat "" (map (fun w => w ++ " ")%string (PyStr.split " " s))
  = (s ++ " ")%string.
Proof.
  induction s as [|c s IH]; [reflexivity|].
  cbn [PyStr.split].
  destruct (Ascii.eqb c " ") eqn:Ec.
  - apply Ascii.eqb_eq in Ec. subst c.
    cbn [map]. rewrite concat_cons, IH. reflexivity.
  - destruct (PyStr.split " " s) as [|h t] eqn:E.
    + exfalso. exact (split_not_nil _ _ E).
    + cbn [map] in *. rewrite concat_cons in *.
      cbn [append]. f_equal. exact IH.
Qed.

Section WrapWords.
Import Wrap.

Variable font : ImageFont.
Variable max_width : Q.

Lemma fits_strip_eq (a b : string) :
  PyStr.strip a = PyStr.strip b ->
  fits font max_width a = fits font max_width b.
Proof. unfold fits, get_text_size. now intros ->. Qed.

Lemma fits_strip (a : string) :
  fits font max_width (PyStr.strip a) = fits font max_width a.
Proof. apply fits_strip_eq, strip_idem. Qed.

Lemma fits_space (a : string) :
  fits font max_width (a ++ " ") = fits font max_width a.
Proof. apply fits_strip_eq, strip_app_space. Qed.

(** When every word fits on its own, the word loop runs to its end and
    every line it closes, and the line it is left with, fits. *)
Lemma word_loop_fits (words : list string) :
  forall _txt_ _wrapped_lines_,
    Forall (fun w => fits font max_width w = true) words ->
    fits font max_width _txt_ = true ->
    Forall (fun l => fits font max_width l = true) _wrapped_lines_ ->
    exists txt lines,
      word_loop font max_width words _txt_ _wrapped_lines_ = (txt, lines, true)
      /\ fits font max_width txt = true
      /\ Forall (fun l => fits font max_width l = true) lines.
Proof.
  induction words as [|word rest IH]; intros txt lines Hwords Htxt Hlines.
  - now exists txt, lines.
  - inversion Hwords as [|? ? Hword Hrest]; subst. cbn [word_loop].
    destruct (fits font max_width (txt ++ word ++ " ")) eqn:E.
    + now apply IH.
    + destruct (String.eqb (PyStr.strip (txt ++ word ++ " ")) (PyStr.strip word))
        eqn:Es.
      * apply String.eqb_eq in Es. apply fits_strip_eq in Es. congruence.
      * apply IH; [exact Hrest|now rewrite fits_space|].
        apply Forall_app. split; [exact Hlines|now constructor].
Qed.

End WrapWords.

(** X7: in the character fallback of [wrap_text] no character is lost:
    the lines put end to end are the text.  Every line but the last was
    closed one character too late: it is wider than [max_width], and
    without its last character (an item of [list(text)], a whole code
    point) it would fit; the last line fits. *)
Theorem char_fallback_lines
        (font : Wrap.ImageFont) (max_width : Q) (text : string)
        (lines : list string) :
  Wrap.fits font max_width "" = true ->
  Wrap.wrap_lines font max_width text = Wrap.ByChars lines ->
  String.concat "" lines = text
  /\ exists closed last,
       lines = (closed ++ [last])%list
       /\ Forall (one_too_many font max_width text) closed
       /\ Wrap.fits font max_width last = true.
Proof.
  intros Hempty Hrun. unfold Wrap.wrap_lines in Hrun.
  destruct (Wrap.fits font max_width text); [discriminate|].
  destruct (Wrap.word_loop _ _ _ _ _) as [[wtxt wlines] processed].
  destruct processed; [discriminate|].
  pose proof (char_loop_content font max_width (PyStr.chars text) "" [])
    as Hcontent.
  assert (Hmembers : Forall (fun c => In c (PyStr.chars text))
                            (PyStr.chars text))
    by (apply Forall_forall; auto).
  destruct (@char_loop_lines font max_width text (PyStr.chars text) "" []
              Hempty Hempty (Forall_nil _) Hmembers)
    as [Hclosed Hlast].
  destruct (Wrap.char_loop font max_width (PyStr.chars text) "" [])
    as [ctxt clines].
  cbn [fst snd] in *. inversion Hrun; subst lines. split.
  - rewrite concat_app. cbn [String.concat]. rewrite Hcontent.
    cbn. apply chars_concat.
  - now exists clines, ctxt.
Qed.

Lemma char_fallback_lines_witness :
  Wrap.fits Examples.wide_font Examples.portrait_max_width "" = true
  /\ Wrap.wrap_lines Examples.wide_font Examples.portrait_max_width
                     Examples.unbroken_text
     = Wrap.ByChars ["abcdefghijklmnopq"; "rst"]%string
  /\ String.concat "" ["abcdefghijklmnopq"; "rst"]%string
     = Examples.unbroken_text.
Proof.
  assert (H1 : Wrap.fits Examples.wide_font Examples.portrait_max_width ""
               = true) by (vm_compute; reflexivity).
  assert (H2 : Wrap.wrap_lines Examples.wide_font Examples.portrait_max_width
                               Examples.unbroken_text
               = Wrap.ByChars ["abcdefghijklmnopq"; "rst"]%string)
    by (vm_compute; reflexivity).
  split; [exact H1|]. split; [exact H2|].
  exact (proj1 (@char_fallback_lines Examples.wide_font
                  Examples.portrait_max_width Examples.unbroken_text
                  ["abcdefghijklmnopq"; "rst"]%string H1 H2)).
Defined.

(** X8: when the word loop of [wrap_text] runs to its end, no word is
    lost or moved: its lines, as they are before they are stripped, put
    end to end are the text and the space that follows the last word. *)
Theorem word_wrap_keeps_text
        (font : Wrap.ImageFont) (max_width : Q) (text : string)
        (_txt_ : string) (_wrapped_lines_ : list string) :
  Wrap.word_loop font max_width (PyStr.split " " text) "" []
    = (_txt_, _wrapped_lines_, true) ->
  String.concat "" (_wrapped_lines_ ++ [_txt_]) = (text ++ " ")%string.
Proof.
  intro Hrun.
  pose proof (@word_loop_content font max_width (PyStr.split " " text) "" [])
    as Hcontent.
  rewrite Hrun in Hcontent. cbn [fst snd] in Hcontent.
  specialize (Hcontent eq_refl).
  rewrite concat_app. cbn [String.concat]. rewrite Hcontent.
  cbn. apply split_spaces.
Qed.

Lemma word_wrap_keeps_text_witness :
  Wrap.word_loop (Wrap.fixed_width_font 10 12) 100
                 (PyStr.split " " "the quick brown fox jumps") "" []
    = ("jumps "%string, ["the quick "; "brown fox "]%string, true)
  /\ String.concat "" (["the quick "%string; "brown fox "%string]
                        ++ ["jumps "%string])%list
     = "the quick brown fox jumps "%string.
Proof.
  assert (H1 : Wrap.word_loop (Wrap.fixed_width_font 10 12) 100
                 (PyStr.split " " "the quick brown fox jumps") "" []
               = ("jumps "%string, ["the quick "; "brown fox "]%string, true))
    by (vm_compute; reflexivity).
  split; [exact H1|].
  exact (@word_wrap_keeps_text (Wrap.fixed_width_font 10 12) 100
           "the quick brown fox jumps" "jumps "
           ["the quick "; "brown fox "]%string H1).
Defined.

(** X9: when the text is too wide but each of its words fits on its own,
    [wrap_text] wraps by words, never by characters, and every line it
    returns is at most [max_width] wide. *)
Theorem word_wrap_lines_fit
        (font : Wrap.ImageFont) (max_width : Q) (text : string) :
  Wrap.fits font max_width text = false ->
  Forall (fun w => Wrap.fits font max_width w = true) (PyStr.split " " text) ->
  exists lines,
    Wrap.wrap_lines font max_width text = Wrap.ByWords lines
    /\ Forall (fun l => inject_Z (Wrap.line_width font l) <= max_width) lines.
Proof.
  intros Hwide Hwords. unfold Wrap.wrap_lines. rewrite Hwide.
  destruct (PyStr.split " " text) as [|word rest] eqn:Esplit.
  { exfalso. exact (split_not_nil _ _ Esplit). }
  inversion Hwords as [|? ? Hword Hrest]; subst.
  cbn [Wrap.word_loop].
  assert (Hfirst : Wrap.fits font max_width ("" ++ word ++ " ") = true).
  { cbn [append]. now rewrite fits_space. }
  rewrite Hfirst.
  destruct (@word_loop_fits font max_width rest ("" ++ word ++ " ") []
              Hrest Hfirst (Forall_nil _))
    as (txt & lines & -> & Htxt & Hlines).
  eexists. split; [reflexivity|].
  apply Forall_map. apply Forall_app. split.
  - eapply Forall_impl; [|exact Hlines]. intros l Hl.
    apply fits_true. now rewrite fits_strip.
  - constructor; [|constructor]. apply fits_true. now rewrite fits_strip.
Qed.

Lemma word_wrap_lines_fit_witness :
  Wrap.fits (Wrap.fixed_width_font 10 12) 100 "the quick brown fox jumps"
    = false
  /\ Forall (fun w => Wrap.fits (Wrap.fixed_width_font 10 12) 100 w = true)
            (PyStr.split " " "the quick brown fox jumps")
  /\ exists lines,
       Wrap.wrap_lines (Wrap.fixed_width_font 10 12) 100
                       "the quick brown fox jumps" = Wrap.ByWords lines
       /\ Forall (fun l => inject_Z (Wrap.line_width
                                       (Wrap.fixed_width_font 10 12) l)
                           <= 100) lines.
Proof.
  assert (H1 : Wrap.fits (Wrap.fixed_width_font 10 12) 100
                         "the quick brown fox jumps" = false)
    by (vm_compute; reflexivity).
  assert (H2 : Forall (fun w => Wrap.fits (Wrap.fixed_width_font 10 12) 100 w
                                = true)
                      (PyStr.split " " "the quick brown fox jumps")).
  { assert (E : PyStr.split " " "the quick brown fox jumps"
                = ["the"; "quick"; "brown"; "fox"; "jumps"]%string)
      by (vm_compute; reflexivity).
    rewrite E. repeat (constructor; [vm_compute; reflexivity|]).
    constructor. }
  split; [exact H1|]. split; [exact H2|].
  exact (@word_wrap_lines_fit (Wrap.fixed_width_font 10 12) 100
           "the quick brown fox jumps" H1 H2).
Defined.

(** ** [get_bgm_file] and the background track *)

(** X10: [get_bgm_file] raises exactly when [bgm_type] is "random", no
    usable [bgm_file] is given and the song directory holds no mp3, and
    what it raises is [IndexError]; a path it returns is empty, or the
    existing [bgm_file], or one of the songs of the directory. *)
Theorem get_bgm_file_outcomes
        (w : Render.World) (bgm_type bgm_file : string) (rng : Random.Rng) :
  ((exists e, Render.get_bgm_file w bgm_type bgm_file rng = Raised e)
   <-> bgm_type = "random"%string
       /\ (bgm_file = ""%string \/ Render.path_exists w bgm_file = false)
       /\ Render.song_files w = [])
  /\ (forall e, Render.get_bgm_file w bgm_type bgm_file rng = Raised e ->
                e = IndexError)
  /\ (forall p rng',
        Render.get_bgm_file w bgm_type bgm_file rng = Returned (p, rng') ->
        p = ""%string
        \/ (p = bgm_file /\ Render.path_exists w bgm_file = true)
        \/ In p (Render.song_files w)).
Proof.
  unfold Render.get_bgm_file.
  destruct (String.eqb bgm_type "") eqn:Etype.
  { apply String.eqb_eq in Etype. subst bgm_type.
    split; [|split].
    - split; [intros [e H]; discriminate H|intros [H _]; discriminate H].
    - intros e H. discriminate H.
    - intros p rng' H. inversion H; subst. now left. }
  destruct (negb (String.eqb bgm_file "") && Render.path_exists w bgm_file)
    eqn:Efile.
  { apply andb_true_iff in Efile. destruct Efile as [Hne Hex].
    apply negb_true_iff, String.eqb_neq in Hne.
    split; [|split].
    - split; [intros [e H]; discriminate H|].
      intros (_ & [H|H] & _); [contradiction|congruence].
    - intros e H. discriminate H.
    - intros p rng' H. inversion H; subst. right. left. now split. }
  assert (Hfile : bgm_file = ""%string \/ Render.path_exists w bgm_file = false).
  { apply andb_false_iff in Efile. destruct Efile as [H|H]; [left|now right].
    apply negb_false_iff in H. now apply String.eqb_eq. }
  destruct (String.eqb bgm_type "random") eqn:Erandom.
  - apply String.eqb_eq in Erandom. subst bgm_type.
    destruct (Render.song_files w) as [|song songs] eqn:Esongs.
    + split; [|split].
      * split; [intros _; now repeat split|intros _; now exists IndexError].
      * intros e H. cbn in H. now inversion H.
      * intros p rng' H. discriminate H.
    + destruct (@choice_returns string (song :: songs) rng)
        as (x & rng1 & Hx & Hin); [discriminate|].
      rewrite Hx. split; [|split].
      * split; [intros [e H]; discriminate H|].
        intros (_ & _ & H). discriminate H.
      * intros e H. discriminate H.
      * intros p rng' H. inversion H; subst. right. right. exact Hin.
  - apply String.eqb_neq in Erandom.
    split; [|split].
    + split; [intros [e H]; discriminate H|intros [H _]; contradiction].
    + intros e H. discriminate H.
    + intros p rng' H. inversion H; subst. now left.
Qed.

(** X11: whatever fails inside the [try] of [generate_video] (the
    background file does not open, or it has no length to loop) is
    caught: the function returns, the voice goes out alone, and the
    failure is logged. *)
Theorem generate_video_bgm_failure_caught
        (w : Render.World) (params : Schema.VideoParams)
        (video_path audio_path subtitle_path : string) (rng rng' : Random.Rng)
        (bgm : string) (voice : Audio.AudioClip) :
  Render.open_audio w audio_path = Returned voice ->
  Render.get_bgm_file w (Schema.bgm_type params) (Schema.bgm_file params) rng
    = Returned (bgm, rng') ->
  bgm <> ""%string ->
  (exists e, Render.open_audio w bgm = Raised e)
  \/ (exists file, Render.open_audio w bgm = Returned file
                   /\ Audio.duration file == 0) ->
  exists r,
    Render.generate_video w video_path audio_path subtitle_path params rng
      = Returned r
    /\ Render.audio r
       = Audio.Applied (Audio.MultiplyVolume (Schema.voice_volume params)) voice
    /\ Render.error_log r = ["failed to add bgm"%string].
Proof.
  intros Hvoice Hpick Hbgm Hfail.
  unfold Render.generate_video.
  destruct (Schema.to_resolution (Schema.video_aspect params)) as [W H].
  rewrite Hvoice. cbn [run_bind Audio.with_effects Audio.apply].
  unfold Render.add_bgm. rewrite Hpick. cbn [run_bind].
  assert (Enon : String.eqb bgm "" = false) by now apply String.eqb_neq.
  rewrite Enon. cbn [negb].
  destruct Hfail as [[e He]|(file & Hfile & Hzero)].
  - rewrite He. cbn [run_bind]. eexists. split; [reflexivity|]. now split.
  - rewrite Hfile.
    cbn [run_bind Audio.with_effects Audio.apply Audio.duration].
    rewrite (py_div_raises _ Hzero). cbn [run_bind].
    eexists. split; [reflexivity|]. now split.
Qed.

Lemma generate_video_bgm_failure_caught_witness :
  Render.open_audio Examples.machine_bad_song "audio.mp3"
    = Returned (Audio.AudioFileClip "audio.mp3" 10)
  /\ Render.get_bgm_file Examples.machine_bad_song "random" "" []
     = Returned ("song.mp3"%string, [])
  /\ "song.mp3"%string <> ""%string
  /\ ((exists e, Render.open_audio Examples.machine_bad_song "song.mp3"
                 = Raised e)
      \/ (exists file,
             Render.open_audio Examples.machine_bad_song "song.mp3"
             = Returned file /\ Audio.duration file == 0))
  /\ exists r,
       Render.generate_video Examples.machine_bad_song "combined-1.mp4"
                             "audio.mp3" "" Examples.default_params []
         = Returned r
       /\ Render.error_log r = ["failed to add bgm"%string].
Proof.
  assert (H1 : Render.open_audio Examples.machine_bad_song "audio.mp3"
               = Returned (Audio.AudioFileClip "audio.mp3" 10))
    by reflexivity.
  assert (H2 : Render.get_bgm_file Examples.machine_bad_song "random" "" []
               = Returned ("song.mp3"%string, [])) by reflexivity.
  assert (H3 : "song.mp3"%string <> ""%string) by discriminate.
  assert (H4 : (exists e, Render.open_audio Examples.machine_bad_song
                            "song.mp3" = Raised e)
               \/ (exists file,
                      Render.open_audio Examples.machine_bad_song "song.mp3"
                      = Returned file /\ Audio.duration file == 0))
    by (left; exists OSError; reflexivity).
  split; [exact H1|]. split; [exact H2|]. split; [exact H3|].
  split; [exact H4|].
  destruct (@generate_video_bgm_failure_caught Examples.machine_bad_song
              Examples.default_params "combined-1.mp4" "audio.mp3" ""
              [] [] "song.mp3" (Audio.AudioFileClip "audio.mp3" 10)
              H1 H2 H3 H4) as (r & Hrun & _ & Hlog).
  exists r. split; [exact Hrun|exact Hlog].
Defined.

(** X12: the place of a custom subtitle moves down, never up, as
    [custom_position] grows, for every block that is not higher than the
    frame. *)
Theorem custom_y_monotone (video_height clip_h : Z) (p1 p2 : Q) :
  (clip_h <= video_height)%Z ->
  p1 <= p2 ->
  Render.custom_y video_height clip_h p1
  <= Render.custom_y video_height clip_h p2.
Proof.
  intros Hh Hp. unfold Render.custom_y.
  set (room := inject_Z (video_height - clip_h)).
  assert (Hroom : 0 <= room) by (subst room; unfold Qle; cbn; lia).
  set (hi := inject_Z (video_height - clip_h - 10)).
  assert (Hc : room * (p1 / 100) <= room * (p2 / 100)).
  { assert (H : p1 / 100 <= p2 / 100).
    { unfold Qdiv. apply Qmult_le_compat_r; [exact Hp|discriminate]. }
    nra. }
  set (c1 := room * (p1 / 100)) in *. set (c2 := room * (p2 / 100)) in *.
  destruct (py_min_spec c1 hi) as [[H1 E1]|[H1 E1]];
    destruct (py_min_spec c2 hi) as [[H2 E2]|[H2 E2]];
    rewrite E1, E2;
    match goal with
    | |- py_max ?a ?x <= py_max ?a ?y =>
        destruct (py_max_spec a x) as [[H3 E3]|[H3 E3]];
        destruct (py_max_spec a y) as [[H4 E4]|[H4 E4]];
        rewrite E3; try rewrite E4
    end; lra.
Qed.

Lemma custom_y_monotone_witness :
  (100 <= 1920)%Z
  /\ 30 <= 70
  /\ Render.custom_y 1920 100 30 <= Render.custom_y 1920 100 70.
Proof.
  assert (H1 : (100 <= 1920)%Z) by discriminate.
  assert (H2 : 30 <= 70) by discriminate.
  split; [exact H1|]. split; [exact H2|].
  exact (@custom_y_monotone 1920 100 30 70 H1 H2).
Defined.

(** X13: the background track that [generate_video] mixes in is never
    louder than [bgm_volume] and never inverted: at every moment of the
    video its gain lies between 0 and [bgm_volume]. *)
Theorem bgm_gain_within_volume (p : string) (d v D t : Q) :
  0 < d -> 0 <= v -> 0 <= t -> t < D ->
  0 <= Audio.gain (Audio.Applied (Audio.AudioLoop D)
                     (Audio.Applied (Audio.AudioFadeOut 3)
                        (Audio.Applied (Audio.MultiplyVolume v)
                           (Audio.AudioFileClip p d)))) t
  /\ Audio.gain (Audio.Applied (Audio.AudioLoop D)
                   (Audio.Applied (Audio.AudioFadeOut 3)
                      (Audio.Applied (Audio.MultiplyVolume v)
                         (Audio.AudioFileClip p d)))) t
     <= v.
Proof.
  intros Hd Hv Ht HtD.
  rewrite (gain_bgm p v Hd Ht HtD).
  destruct (Qmod_bounds t Hd) as [Hlo Hhi].
  assert (Hfade : 0 < (d - Audio.Qmod t d) / 3).
  { apply Qlt_shift_div_l; [reflexivity|]. lra. }
  destruct (py_min_spec ((d - Audio.Qmod t d) / 3) 1) as [[H ->]|[H ->]];
    split; nra.
Qed.

Lemma bgm_gain_within_volume_witness :
  0 < 10 /\ 0 <= 2 # 10 /\ 0 <= 9 /\ 9 < 25
  /\ Audio.gain (Audio.Applied (Audio.AudioLoop 25)
                   (Audio.Applied (Audio.AudioFadeOut 3)
                      (Audio.Applied (Audio.MultiplyVolume (2 # 10))
                         (Audio.AudioFileClip "song.mp3" 10)))) 9
     <= 2 # 10.
Proof.
  assert (H1 : 0 < 10) by reflexivity.
  assert (H2 : 0 <= 2 # 10) by discriminate.
  assert (H3 : 0 <= 9) by discriminate.
  assert (H4 : 9 < 25) by reflexivity.
  split; [exact H1|]. split; [exact H2|]. split; [exact H3|].
  split; [exact H4|].
  exact (proj2 (@bgm_gain_within_volume "song.mp3" 10 (2 # 10) 25 9
                  H1 H2 H3 H4)).
Defined.

(** ** The orchestrator: how a run ends *)

Section StartApart.
Import Schema Task Orchestration.

Variable sv : Services.
Variable task_dir : string.

(** [start] is its first write, the conversion, and the stages. *)
Lemma start_split (params : VideoParams) (stop_at : string) :
  start sv task_dir params stop_at
  = bind (processing 5)
      (fun _ => bind (conversion params)
                  (fun params' => stages sv task_dir params' stop_at)).
Proof. reflexivity. Qed.

(** The conversion calls nothing, and changes no field but the mode. *)
Lemma conversion_events (params : VideoParams) : fst (conversion params) = [].
Proof.
  unfold conversion. destruct (video_concat_mode params) as [s|m];
    [|reflexivity].
  destruct (VideoConcatMode_of_str s); reflexivity.
Qed.

Lemma conversion_keeps (params params' : VideoParams) :
  snd (conversion params) = Returned params' ->
  video_source params' = video_source params
  /\ video_script params' = video_script params
  /\ video_terms params' = video_terms params
  /\ video_count params' = video_count params.
Proof.
  unfold conversion. destruct (video_concat_mode params) as [s|m].
  - destruct (VideoConcatMode_of_str s); cbn; intro H; inversion H; subst.
    now repeat split.
  - cbn. intro H. inversion H; subst. now repeat split.
Qed.

(** A property of every call holds of a run if it holds of the first
    write and of the stages, whatever the mode was turned into. *)
Lemma start_all (P : Event -> Prop) (params : VideoParams) (stop_at : string) :
  P (update_task (Some TASK_STATE_PROCESSING) (Some 5) []) ->
  (forall params', snd (conversion params) = Returned params' ->
                   Forall P (fst (stages sv task_dir params' stop_at))) ->
  Forall P (fst (start sv task_dir params stop_at)).
Proof.
  intros Hfirst Hstages. rewrite start_split.
  apply Forall_bind; [repeat constructor; exact Hfirst|intros _ _].
  apply Forall_bind; [rewrite conversion_events; constructor|].
  exact Hstages.
Qed.

End StartApart.

(** X14: a request whose concat mode is a string that names no member of
    [VideoConcatMode] makes [start] raise [ValueError] right after its
    first write: the task is left in state Processing at progress 5, and
    no service is called. *)
Theorem start_unknown_concat_mode_raises
        (sv : Task.Services) (task_dir : string)
        (params : Schema.VideoParams) (stop_at s : string) :
  Schema.video_concat_mode params = Schema.mode_str s ->
  s <> "random"%string -> s <> "sequential"%string ->
  Task.run_start sv task_dir params stop_at
  = ([Task.update_task (Some Task.TASK_STATE_PROCESSING) (Some 5) []],
     Raised ValueError).
Proof.
  intros Hmode Hr Hs. unfold Task.run_start. rewrite start_split.
  unfold Orchestration.conversion, Schema.VideoConcatMode_of_str.
  rewrite Hmode.
  apply String.eqb_neq in Hr. apply String.eqb_neq in Hs. rewrite Hr, Hs.
  reflexivity.
Qed.

Lemma start_unknown_concat_mode_raises_witness :
  Schema.video_concat_mode
    (Task.set_video_concat_mode Examples.default_params
                                (Schema.mode_str "shuffled"))
    = Schema.mode_str "shuffled"
  /\ "shuffled"%string <> "random"%string
  /\ "shuffled"%string <> "sequential"%string
  /\ Task.run_start Examples.services_ok "/task"
       (Task.set_video_concat_mode Examples.default_params
                                   (Schema.mode_str "shuffled")) "video"
     = ([Task.update_task (Some Task.TASK_STATE_PROCESSING) (Some 5) []],
        Raised ValueError).
Proof.
  assert (H1 : Schema.video_concat_mode
                 (Task.set_video_concat_mode Examples.default_params
                                             (Schema.mode_str "shuffled"))
               = Schema.mode_str "shuffled") by reflexivity.
  assert (H2 : "shuffled"%string <> "random"%string) by discriminate.
  assert (H3 : "shuffled"%string <> "sequential"%string) by discriminate.
  split; [exact H1|]. split; [exact H2|]. split; [exact H3|].
  exact (@start_unknown_concat_mode_raises Examples.services_ok "/task"
           (Task.set_video_concat_mode Examples.default_params
                                       (Schema.mode_str "shuffled"))
           "video" "shuffled" H1 H2 H3).
Defined.

Section Verdict.
Import Schema Task Orchestration.

Variable sv : Services.
Variable task_dir : string.

Lemma fail_verdict : verdict fail.
Proof. exists [], None, []. reflexivity. Qed.

Lemma complete_verdict (field : string) (r : Result) :
  r <> result_none -> verdict (complete field r).
Proof.
  intro Hr. unfold verdict. cbn.
  destruct r; try contradiction; exists [], [field]; reflexivity.
Qed.

(** A stage that wrote no final state hands over to what follows; one
    that did is followed by the failure exit. *)
Lemma verdict_bind {A : Type} (m : T A) (k : A -> T Result) :
  (forall a, snd m = Returned a ->
             k a = fail \/ (Forall no_final_state (fst m) /\ verdict (k a))) ->
  ((forall a, snd m <> Returned a) -> Forall no_final_state (fst m)) ->
  verdict (bind m k).
Proof.
  intros Hret Hraise. destruct m as [es [a|e|]].
  - destruct (Hret a eq_refl) as [Hfail|[Hes Hk]].
    + cbn [bind]. rewrite Hfail. cbn. exists es, None, []. reflexivity.
    + cbn [fst] in Hes. cbn [bind]. destruct (k a) as [es' r].
      unfold verdict, ends_failed, ends_complete in *. cbn [fst snd] in *.
      destruct r as [[]|e|];
        try (destruct Hk as [xs [pr [fields Hk]]]; subst es';
             exists (es ++ xs)%list, pr, fields; now rewrite app_assoc);
        try (destruct Hk as [xs [fields Hk]]; subst es';
             exists (es ++ xs)%list, fields; now rewrite app_assoc);
        now apply Forall_app.
  - unfold verdict. cbn. apply Hraise. intros a H. discriminate.
  - unfold verdict. cbn. apply Hraise. intros a H. discriminate.
Qed.

(** The same for a stage that never writes a final state. *)
Lemma verdict_bind_quiet {A : Type} (m : T A) (k : A -> T Result) :
  Forall no_final_state (fst m) ->
  (forall a, snd m = Returned a -> verdict (k a)) ->
  verdict (bind m k).
Proof.
  intros Hm Hk. apply verdict_bind; [|intros _; exact Hm].
  intros a Ha. right. split; [exact Hm|now apply Hk].
Qed.

Lemma processing_unsettled (p : Q) : Forall no_final_state (fst (processing p)).
Proof. repeat constructor. intros []. Qed.

(** *** The stages either fail or leave the state alone *)

Lemma generate_script_unsettled (params : VideoParams) :
  snd (generate_script sv params) = Returned None
  \/ Forall no_final_state (fst (generate_script sv params)).
Proof.
  unfold generate_script.
  destruct (String.eqb (PyStr.strip (video_script params)) "") eqn:E;
    cbn [bind call ret fst snd app].
  - destruct (String.eqb (script_answer sv) ""); cbn; [now left|right].
    repeat constructor. intros [].
  - rewrite E. right. constructor.
Qed.

Lemma generate_terms_unsettled (params : VideoParams) (video_script : string) :
  snd (generate_terms sv params video_script) = Returned None
  \/ Forall no_final_state (fst (generate_terms sv params video_script)).
Proof.
  unfold generate_terms.
  destruct (video_terms params) as [|[|c s]|[|t l]];
    cbn [bind call ret fst snd app];
    match goal with
    | |- context [match ?x with [] => _ | _ :: _ => _ end] => destruct x
    end; cbn; try (now left); right; repeat constructor; intros [].
Qed.

Lemma generate_audio_unsettled (params : VideoParams) (video_script : string) :
  snd (generate_audio sv task_dir params video_script) = Returned None
  \/ Forall no_final_state
            (fst (generate_audio sv task_dir params video_script)).
Proof.
  unfold generate_audio. destruct (tts_answer sv); cbn; [right|now left].
  repeat constructor. intros [].
Qed.

Lemma generate_subtitle_unsettled (params : VideoParams) :
  Forall no_final_state (fst (generate_subtitle sv task_dir params)).
Proof.
  unfold generate_subtitle, no_final_state.
  trace_with ltac:(cbn; intros []).
Qed.

Lemma get_video_materials_unsettled (params : VideoParams)
      (video_terms : list string) (audio_duration : Z) :
  snd (get_video_materials sv params video_terms audio_duration)
    = Returned None
  \/ Forall no_final_state
            (fst (get_video_materials sv params video_terms audio_duration)).
Proof.
  unfold get_video_materials.
  destruct (String.eqb (video_source params) "local").
  - destruct (video_materials params) as [ms|];
      [|right; repeat constructor; intros []].
    destruct (map (preprocess_material sv) ms);
      cbn; [now left|right]; repeat constructor; intros [].
  - destruct (download_answer sv (video_concat_mode params));
      cbn; [now left|right]; repeat constructor; intros [].
Qed.

Lemma for_outputs_unsettled (params : VideoParams) (mode : ConcatModeField)
      (tm : option VideoTransitionMode) (todo : nat) :
  forall i p0 finals combined,
    Forall no_final_state
           (fst (for_outputs sv task_dir params mode tm todo i p0
                             finals combined)).
Proof.
  induction todo as [|todo IH]; intros i p0 finals combined.
  - constructor.
  - cbn [for_outputs]. unfold no_final_state.
    trace_with ltac:(cbn; intros []). apply IH.
Qed.

(** A stage that hands back [Some] has left the state alone. *)
Lemma stage_handover {A : Type} (m : T (option A)) (k : option A -> T Result) :
  snd m = Returned None \/ Forall no_final_state (fst m) ->
  k None = fail ->
  (forall a, snd m = Returned (Some a) -> verdict (k (Some a))) ->
  verdict (bind m k).
Proof.
  intros Hm Hnone Hsome. apply verdict_bind.
  - intros [a|] Ha; [right|now left].
    destruct Hm as [Hm|Hm]; [congruence|]. split; [exact Hm|now apply Hsome].
  - intros Hnot. destruct Hm as [Hm|Hm]; [|exact Hm].
    now destruct (Hnot None).
Qed.

Lemma start_materials_verdict (params : VideoParams) (stop_at : string)
      (video_script : string) (video_terms : list string)
      (audio_file : string) (audio_duration : Z) (subtitle_path : string) :
  verdict (start_materials sv task_dir params stop_at video_script video_terms
                           audio_file audio_duration subtitle_path).
Proof.
  unfold start_materials.
  apply stage_handover;
    [apply get_video_materials_unsettled|reflexivity|intros l _].
  destruct (String.eqb stop_at "materials");
    [apply complete_verdict; discriminate|].
  apply verdict_bind_quiet; [apply processing_unsettled|intros _ _].
  apply verdict_bind_quiet;
    [apply for_outputs_unsettled|intros [finals combined] _].
  destruct finals as [|f finals]; [apply fail_verdict|].
  unfold verdict. cbn. eexists [], _. reflexivity.
Qed.

Lemma start_audio_verdict (params : VideoParams) (stop_at : string)
      (video_script : string) (video_terms : list string) :
  verdict (start_audio sv task_dir params stop_at video_script video_terms).
Proof.
  unfold start_audio.
  apply stage_handover;
    [apply generate_audio_unsettled|reflexivity|intros [file dur] _].
  apply verdict_bind_quiet; [apply processing_unsettled|intros _ _].
  destruct (String.eqb stop_at "audio");
    [apply complete_verdict; discriminate|].
  apply verdict_bind_quiet; [apply generate_subtitle_unsettled|intros path _].
  destruct (String.eqb stop_at "subtitle");
    [apply complete_verdict; discriminate|].
  apply verdict_bind_quiet; [apply processing_unsettled|intros _ _].
  apply start_materials_verdict.
Qed.

Lemma start_terms_verdict (params : VideoParams) (stop_at : string)
      (video_script : string) :
  verdict (start_terms sv task_dir params stop_at video_script).
Proof.
  unfold start_terms.
  apply stage_handover; [|reflexivity|intros terms _].
  - destruct (negb (String.eqb (video_source params) "local"));
      [apply generate_terms_unsettled|right; constructor].
  - apply verdict_bind_quiet; [repeat constructor; intros []|intros _ _].
    destruct (String.eqb stop_at "terms");
      [apply complete_verdict; discriminate|].
    apply verdict_bind_quiet; [apply processing_unsettled|intros _ _].
    apply start_audio_verdict.
Qed.

Lemma stages_verdict (params : VideoParams) (stop_at : string) :
  verdict (stages sv task_dir params stop_at).
Proof.
  unfold stages.
  apply stage_handover;
    [apply generate_script_unsettled|reflexivity|intros script _].
  destruct (PyStr.contains "Error: " script); [apply fail_verdict|].
  apply verdict_bind_quiet; [apply processing_unsettled|intros _ _].
  destruct (String.eqb stop_at "script");
    [apply complete_verdict; discriminate|].
  apply start_terms_verdict.
Qed.

Lemma start_verdict (params : VideoParams) (stop_at : string) :
  verdict (start sv task_dir params stop_at).
Proof.
  rewrite start_split.
  apply verdict_bind_quiet; [apply processing_unsettled|intros _ _].
  apply verdict_bind_quiet; [rewrite conversion_events; constructor|].
  intros params' _. apply stages_verdict.
Qed.

End Verdict.

(** X15: what [start] returns agrees with the last write to the task
    store.  A run that returns [None] ends with a write of state Failed;
    a run that returns a dictionary ends with the write of state Complete
    and progress 100. *)
Theorem start_return_matches_last_write
        (sv : Task.Services) (task_dir : string)
        (params : Schema.VideoParams) (stop_at : string) (r : Task.Result) :
  snd (Task.run_start sv task_dir params stop_at) = Returned r ->
  (r = Task.result_none ->
   Orchestration.ends_failed (Task.run_start sv task_dir params stop_at))
  /\ (r <> Task.result_none ->
      Task.ends_complete (Task.run_start sv task_dir params stop_at)).
Proof.
  intro Hr. unfold Task.run_start in *.
  pose proof (start_verdict sv task_dir params stop_at) as Hv.
  unfold Orchestration.verdict in Hv. rewrite Hr in Hv.
  split; intro H.
  - subst r. exact Hv.
  - destruct r; try exact Hv. now contradiction H.
Qed.

Lemma start_return_matches_last_write_witness :
  snd (Task.run_start Examples.services_ok "/task"
                      Examples.default_params "video")
  = Returned (Task.result_videos ["/task/final-1.mp4"%string]
                                 ["/task/combined-1.mp4"%string])
  /\ Task.ends_complete (Task.run_start Examples.services_ok "/task"
                                        Examples.default_params "video").
Proof.
  assert (H : snd (Task.run_start Examples.services_ok "/task"
                                  Examples.default_params "video")
              = Returned (Task.result_videos ["/task/final-1.mp4"%string]
                                             ["/task/combined-1.mp4"%string]))
    by (vm_compute; reflexivity).
  split; [exact H|].
  apply (proj2 (@start_return_matches_last_write Examples.services_ok "/task"
                  Examples.default_params "video" _ H)).
  discriminate.
Defined.

(** X16: a run of [start] that raises leaves the task unfinished: none of
    its writes to the task store carries state Failed or state Complete,
    so the task stays in state Processing. *)
Theorem start_raise_leaves_processing
        (sv : Task.Services) (task_dir : string)
        (params : Schema.VideoParams) (stop_at : string) (e : Exn) :
  snd (Task.run_start sv task_dir params stop_at) = Raised e ->
  Forall Orchestration.no_final_state
         (fst (Task.run_start sv task_dir params stop_at)).
Proof.
  intro Hr. unfold Task.run_start in *.
  pose proof (start_verdict sv task_dir params stop_at) as Hv.
  unfold Orchestration.verdict in Hv. now rewrite Hr in Hv.
Qed.

Lemma start_raise_leaves_processing_witness :
  snd (Task.run_start Requests.services_combine_raises "/task"
                      Examples.default_params "video")
  = Raised OSError
  /\ Forall Orchestration.no_final_state
            (fst (Task.run_start Requests.services_combine_raises "/task"
                                 Examples.default_params "video")).
Proof.
  assert (H : snd (Task.run_start Requests.services_combine_raises "/task"
                                  Examples.default_params "video")
              = Raised OSError) by (vm_compute; reflexivity).
  split; [exact H|].
  exact (@start_raise_leaves_processing Requests.services_combine_raises
           "/task" Examples.default_params "video" OSError H).
Defined.

(** ** The orchestrator: which services a run calls *)

(** Evaluates the comparisons of two string literals in the goal. *)
Ltac literal_eqb :=
  repeat match goal with
         | |- context [String.eqb ?a ?b] =>
             let v := eval vm_compute in (String.eqb a b) in
             match v with
             | true => change (String.eqb a b) with true
             | false => change (String.eqb a b) with false
             end
         end;
  cbv beta match.

Ltac unfold_stages :=
  unfold Orchestration.stages, Task.start_terms, Task.start_audio,
    Task.start_materials, Task.generate_script, Task.generate_terms,
    Task.generate_audio, Task.generate_subtitle, Task.get_video_materials,
    Task.generate_final_videos, Task.save_script_data, Task.fail,
    Task.complete, Task.processing.

Section Calls.
Import Schema Task Orchestration.

Variable sv : Services.
Variable task_dir : string.

(** The output loop makes three kinds of call. *)
Lemma for_outputs_only (P : Event -> Prop) (params : VideoParams)
      (mode : ConcatModeField) (tm : option VideoTransitionMode) :
  (forall i, P (combine_videos i mode tm)) ->
  (forall i, P (generate_video i)) ->
  (forall p, P (update_task None (Some p) [])) ->
  forall todo i p0 finals combined,
    Forall P (fst (for_outputs sv task_dir params mode tm todo i p0
                               finals combined)).
Proof.
  intros Hc Hg Hu. induction todo as [|todo IH]; intros i p0 finals combined.
  - constructor.
  - cbn [for_outputs].
    trace_with ltac:(first [apply Hc|apply Hg|apply Hu]). apply IH.
Qed.

Lemma In_Forall_neq (e : Event) (tr : list Event) :
  Forall (fun x => x <> e) tr -> ~ In e tr.
Proof.
  intros H Hin. rewrite Forall_forall in H. now apply (H e Hin).
Qed.

Lemma stages_local_no_terms (params : VideoParams) (stop_at : string) :
  video_source params = "local"%string ->
  Forall (fun x => x <> llm_generate_terms)
         (fst (stages sv task_dir params stop_at)).
Proof.
  intro Hlocal. unfold_stages. rewrite Hlocal. literal_eqb. cbn [negb].
  trace_with ltac:(discriminate).
  all: apply for_outputs_only; intros; discriminate.
Qed.

Lemma stages_scripted_no_llm (params : VideoParams) (stop_at : string) :
  PyStr.strip (video_script params) <> ""%string ->
  Forall (fun x => x <> llm_generate_script)
         (fst (stages sv task_dir params stop_at)).
Proof.
  intro Hscript. apply String.eqb_neq in Hscript.
  unfold_stages. rewrite Hscript.
  trace_with ltac:(discriminate).
  all: apply for_outputs_only; intros; discriminate.
Qed.

Lemma stages_stop_early (params : VideoParams) (stop_at : string) :
  In stop_at ["script"; "terms"; "audio"; "subtitle"; "materials"]%string ->
  Forall (fun x => ~ is_assembly_call x)
         (fst (stages sv task_dir params stop_at)).
Proof.
  intro Hin. cbn [In] in Hin.
  destruct Hin as [<-|[<-|[<-|[<-|[<-|[]]]]]];
    unfold_stages; literal_eqb;
    trace_with ltac:(cbn; intros []).
Qed.

End Calls.

(** X17: a request whose material source is ["local"] never has search
    terms generated: no run of [start] on it calls [llm.generate_terms],
    whatever the services answer and wherever the run stops. *)
Theorem start_local_never_generates_terms
        (sv : Task.Services) (task_dir : string)
        (params : Schema.VideoParams) (stop_at : string) :
  Schema.video_source params = "local"%string ->
  ~ In Task.llm_generate_terms
       (fst (Task.run_start sv task_dir params stop_at)).
Proof.
  intro Hlocal. apply In_Forall_neq. unfold Task.run_start.
  apply start_all; [discriminate|]. intros params' Hconv.
  apply stages_local_no_terms.
  destruct (conversion_keeps params Hconv) as [Hs _]. now rewrite Hs.
Qed.

Lemma start_local_never_generates_terms_witness :
  Schema.video_source Requests.local_params = "local"%string
  /\ ~ In Task.llm_generate_terms
          (fst (Task.run_start Requests.services_local "/task"
                               Requests.local_params "video")).
Proof.
  assert (H : Schema.video_source Requests.local_params = "local"%string)
    by reflexivity.
  split; [exact H|].
  exact (@start_local_never_generates_terms Requests.services_local "/task"
           Requests.local_params "video" H).
Defined.

Lemma graphic_not_space (c : ascii) :
  PyStr.is_graphic c = true -> PyStr.is_space c = false.
Proof.
  destruct c as [[|] [|] [|] [|] [|] [|] [|] [|]];
    vm_compute; intro H; congruence.
Qed.

Lemma lstrip_keeps_graphic (s : string) :
  PyStr.has_graphic s = true -> PyStr.has_graphic (PyStr.lstrip s) = true.
Proof.
  induction s as [|c s IH]; [discriminate|]. intro H. cbn [PyStr.lstrip].
  destruct (PyStr.is_space c) eqn:E; [|exact H].
  cbn [PyStr.has_graphic] in H. apply orb_true_iff in H.
  destruct H as [H|H]; [|now apply IH].
  apply graphic_not_space in H. congruence.
Qed.

Lemma rstrip_keeps_graphic (s : string) :
  PyStr.has_graphic s = true -> PyStr.rstrip s <> ""%string.
Proof.
  induction s as [|c s IH]; [discriminate|]. intro H.
  cbn [PyStr.has_graphic] in H. cbn [PyStr.rstrip].
  destruct (PyStr.rstrip s) eqn:Er; [|discriminate].
  apply orb_true_iff in H. destruct H as [H|H].
  - apply graphic_not_space in H. rewrite H. discriminate.
  - now destruct (IH H).
Qed.

(** A script with a printed character in it is not blank. *)
Lemma strip_keeps_graphic (s : string) :
  PyStr.has_graphic s = true -> PyStr.strip s <> ""%string.
Proof.
  intro H. unfold PyStr.strip.
  now apply rstrip_keeps_graphic, lstrip_keeps_graphic.
Qed.



(** X19: a run of [start] told to stop at the script, the terms, the
    audio, the subtitle or the materials never reaches the assembly: it
    calls neither [video.combine_videos] nor [video.generate_video]. *)
Theorem start_stop_at_skips_assembly
        (sv : Task.Services) (task_dir : string)
        (params : Schema.VideoParams) (stop_at : string) :
  In stop_at ["script"; "terms"; "audio"; "subtitle"; "materials"]%string ->
  Forall (fun e => ~ Orchestration.is_assembly_call e)
         (fst (Task.run_start sv task_dir params stop_at)).
Proof.
  intro Hin. unfold Task.run_start.
  apply start_all; [cbn; intros []|]. intros params' _.
  now apply stages_stop_early.
Qed.

Lemma start_stop_at_skips_assembly_witness :
  In "materials"%string
     ["script"; "terms"; "audio"; "subtitle"; "materials"]%string
  /\ Forall (fun e => ~ Orchestration.is_assembly_call e)
            (fst (Task.run_start Examples.services_ok "/task"
                                 Examples.default_params "materials")).
Proof.
  assert (H : In "materials"%string
                 ["script"; "terms"; "audio"; "subtitle"; "materials"]%string)
    by (simpl; tauto).
  split; [exact H|].
  exact (@start_stop_at_skips_assembly Examples.services_ok "/task"
           Examples.default_params "materials" H).
Defined.

(** ** The output loop: the paths it hands back *)

Section Paths.
Import Schema Task Orchestration.

Variable sv : Services.
Variable task_dir : string.

Lemma for_outputs_paths (params : VideoParams) (mode : ConcatModeField)
      (tm : option VideoTransitionMode) :
  (0 < video_count params)%Z ->
  forall todo k p0 finals combined finals' combined',
    snd (for_outputs sv task_dir params mode tm todo (Z.of_nat k) p0
                     finals combined)
      = Returned (finals', combined') ->
    finals'
      = (finals ++ map (fun j => indexed_path task_dir "final" (Z.of_nat j))
                       (seq (S k) todo))%list
    /\ combined'
       = (combined
            ++ map (fun j => indexed_path task_dir "combined" (Z.of_nat j))
                   (seq (S k) todo))%list.
Proof.
  intros Hc. induction todo as [|todo IH];
    intros k p0 finals combined f' c' H.
  - cbn in H. inversion H; subst. cbn. now rewrite !app_nil_r.
  - rewrite (@for_outputs_step sv task_dir params mode tm todo (Z.of_nat k) p0
               finals combined Hc) in H.
    destruct (combine_answer sv (Z.of_nat k + 1) mode tm) as [[]|e|];
      try discriminate.
    destruct (render_answer sv (Z.of_nat k + 1)) as [[]|e|];
      try discriminate.
    cbn [snd] in H.
    replace (Z.of_nat k + 1)%Z with (Z.of_nat (S k)) in H by lia.
    apply IH in H. destruct H as [Hf Hcm]. subst f' c'.
    cbn [seq map]. now rewrite <- !app_assoc.
Qed.

End Paths.

(** X20: when [generate_final_videos] returns, it hands back one final
    and one combined path for every output asked for, named
    [final-1.mp4] ... [final-n.mp4] and [combined-1.mp4] ...
    [combined-n.mp4] in the task's directory, in that order; for a count
    of zero or less both lists are empty. *)
Theorem generate_final_videos_numbered_paths
        (sv : Task.Services) (task_dir : string)
        (params : Schema.VideoParams) (finals combined : list string) :
  snd (Task.generate_final_videos sv task_dir params)
    = Returned (finals, combined) ->
  finals = Orchestration.numbered_paths task_dir "final"
             (Z.to_nat (Schema.video_count params))
  /\ combined = Orchestration.numbered_paths task_dir "combined"
                  (Z.to_nat (Schema.video_count params)).
Proof.
  unfold Task.generate_final_videos, Orchestration.numbered_paths. intro H.
  destruct (Z_lt_le_dec 0 (Schema.video_count params)) as [Hc|Hc].
  - change 0%Z with (Z.of_nat 0) in H.
    now apply (for_outputs_paths sv task_dir params _ _ Hc) in H.
  - replace (Z.to_nat (Schema.video_count params)) with 0%nat in * by lia.
    cbn in H. inversion H; subst. now split.
Qed.

Lemma generate_final_videos_numbered_paths_witness :
  snd (Task.generate_final_videos Examples.services_ok "/task"
                                  (Examples.sequential_params 2))
  = Returned (["/task/final-1.mp4"; "/task/final-2.mp4"],
              ["/task/combined-1.mp4"; "/task/combined-2.mp4"])%string
  /\ ["/task/final-1.mp4"; "/task/final-2.mp4"]%string
     = Orchestration.numbered_paths "/task" "final"
         (Z.to_nat (Schema.video_count (Examples.sequential_params 2))).
Proof.
  assert (H : snd (Task.generate_final_videos Examples.services_ok "/task"
                                              (Examples.sequential_params 2))
              = Returned (["/task/final-1.mp4"; "/task/final-2.mp4"],
                          ["/task/combined-1.mp4"; "/task/combined-2.mp4"])%string)
    by (vm_compute; reflexivity).
  split; [exact H|].
  exact (proj1 (@generate_final_videos_numbered_paths Examples.services_ok
                  "/task" (Examples.sequential_params 2) _ _ H)).
Defined.

(** ** Local materials *)

(** X21: with the material source ["local"] and a request that lists
    materials, [get_video_materials] hands back one path for every
    material listed, in the order of the request: the url with [.mp4]
    appended for a material that has a url, is 480 pixels or more both
    ways and is an image, and the url as it is for every other, so that
    a material without a url or smaller than 480 pixels is passed over
    by the preprocessing but still handed back.  (The services of the
    embedding always read a material's size; a file that cannot be
    opened is outside it.) *)
Theorem local_materials_all_handed_back
        (sv : Task.Services) (params : Schema.VideoParams)
        (video_terms : list string) (audio_duration : Z)
        (materials : list Schema.MaterialInfo) :
  Schema.video_source params = "local"%string ->
  Schema.video_materials params = Some materials ->
  materials <> [] ->
  exists urls,
    snd (Task.get_video_materials sv params video_terms audio_duration)
      = Returned (Some urls)
    /\ Forall2 (Orchestration.handed_back sv) materials urls.
Proof.
  intros Hlocal Hlist Hsome. unfold Task.get_video_materials.
  rewrite Hlocal, Hlist. literal_eqb.
  exists (map Schema.url (map (Task.preprocess_material sv) materials)).
  split.
  - destruct materials as [|m l]; [contradiction|]. reflexivity.
  - clear. induction materials as [|m l IH]; [constructor|].
    cbn [map]. constructor; [|exact IH].
    unfold Orchestration.handed_back, Orchestration.rendered_from_image,
      Task.preprocess_material.
    destruct (String.eqb (Schema.url m) "") eqn:Eurl.
    { apply String.eqb_eq in Eurl. right. split; [|reflexivity].
      intros [H _]. contradiction. }
    apply String.eqb_neq in Eurl.
    destruct (Task.material_size sv (Schema.url m)) as [w h]. cbn [fst snd].
    destruct ((w <? 480)%Z || (h <? 480)%Z) eqn:Esmall.
    { right. split; [|reflexivity]. intros (_ & Hw & Hh & _).
      apply orb_true_iff in Esmall. destruct Esmall as [E|E];
        apply Z.ltb_lt in E; lia. }
    apply orb_false_iff in Esmall. destruct Esmall as [Ew Eh].
    apply Z.ltb_ge in Ew. apply Z.ltb_ge in Eh.
    destruct (Task.material_is_image sv (Schema.url m)) eqn:Eimg.
    + left. now repeat split.
    + right. split; [|reflexivity]. intros (_ & _ & _ & H). discriminate.
Qed.

Lemma local_materials_all_handed_back_witness :
  Schema.video_source Requests.local_params = "local"%string
  /\ Schema.video_materials Requests.local_params
     = Some [Requests.local_material "small.jpg";
             Requests.local_material "clip.mp4";
             Requests.local_material "photo.jpg"]
  /\ exists urls,
      snd (Task.get_video_materials Requests.services_local
                                    Requests.local_params [] 4)
        = Returned (Some urls)
      /\ Forall2 (Orchestration.handed_back Requests.services_local)
                 [Requests.local_material "small.jpg";
                  Requests.local_material "clip.mp4";
                  Requests.local_material "photo.jpg"] urls.
Proof.
  assert (H1 : Schema.video_source Requests.local_params = "local"%string)
    by reflexivity.
  assert (H2 : Schema.video_materials Requests.local_params
               = Some [Requests.local_material "small.jpg";
                       Requests.local_material "clip.mp4";
                       Requests.local_material "photo.jpg"])
    by reflexivity.
  assert (H3 : [Requests.local_material "small.jpg";
                Requests.local_material "clip.mp4";
                Requests.local_material "photo.jpg"] <> [])
    by discriminate.
  split; [exact H1|]. split; [exact H2|].
  exact (@local_materials_all_handed_back Requests.services_local
           Requests.local_params [] 4%Z _ H1 H2 H3).
Defined.

(** What the example gives: the small photograph and the clip keep
    their urls, the large photograph is rendered. *)
Example local_materials_example :
  snd (Task.get_video_materials Requests.services_local
                                Requests.local_params [] 4)
  = Returned (Some ["small.jpg"; "clip.mp4"; "photo.jpg.mp4"]%string).
Proof. reflexivity. Qed.

(** Without a list of materials (the default of [VideoParams]) the
    preprocessing raises, and no state is written. *)
Lemma local_materials_none_raises
      (sv : Task.Services) (params : Schema.VideoParams)
      (video_terms : list string) (audio_duration : Z) :
  Schema.video_source params = "local"%string ->
  Schema.video_materials params = None ->
  Task.get_video_materials sv params video_terms audio_duration
  = ([Task.preprocess_video None (Schema.video_clip_duration params)],
     Raised TypeError).
Proof.
  intros Hlocal Hnone.
  unfold Task.get_video_materials. rewrite Hlocal, Hnone. reflexivity.
Qed.

(** ** The orchestrator: nothing follows a failure *)

Section Halting.
Import Schema Task Orchestration.

Variable sv : Services.
Variable task_dir : string.

Lemma clean_halts (tr : list Event) : Forall not_failed_write tr -> halts tr.
Proof.
  induction 1 as [|e rest He _ IH]; [exact I|].
  split; [intro Hf; now destruct (He Hf)|exact IH].
Qed.

Lemma halts_app_clean (tr tr' : list Event) :
  Forall not_failed_write tr -> halts tr' -> halts (tr ++ tr').
Proof.
  induction 1 as [|e rest He _ IH]; intro H'; [exact H'|].
  split; [intro Hf; now destruct (He Hf)|now apply IH].
Qed.

Lemma halts_then_failed (tr : list Event) (pr : option Q)
      (fields : list string) :
  halts tr -> halts (tr ++ [update_task (Some TASK_STATE_FAILED) pr fields]).
Proof.
  induction tr as [|e rest IH]; intro H.
  - split; [intros _; constructor|exact I].
  - destruct H as [He Hrest]. split; [|now apply IH].
    intro Hf. apply Forall_app. split; [now apply He|].
    repeat constructor.
Qed.

(** A stage hands over when it has written no failure, and is followed
    by the failure exit when it has. *)
Lemma halts_handover {A : Type} (m : T (option A)) (k : option A -> T Result) :
  halts (fst m) ->
  (forall a, snd m = Returned (Some a) -> Forall not_failed_write (fst m)) ->
  k None = fail ->
  (forall a, snd m = Returned (Some a) -> halts (fst (k (Some a)))) ->
  halts (fst (bind m k)).
Proof.
  intros Hm Hclean Hnone Hsome. rewrite bind_events.
  destruct (snd m) as [[a|]|e|] eqn:E.
  - apply halts_app_clean; [now apply (Hclean a)|now apply Hsome].
  - rewrite Hnone. now apply halts_then_failed.
  - now rewrite app_nil_r.
  - now rewrite app_nil_r.
Qed.

Lemma halts_after_clean {A B : Type} (m : T A) (k : A -> T B) :
  Forall not_failed_write (fst m) ->
  (forall a, snd m = Returned a -> halts (fst (k a))) ->
  halts (fst (bind m k)).
Proof.
  intros Hm Hk. rewrite bind_events. apply halts_app_clean; [exact Hm|].
  destruct (snd m) as [a|e|]; [now apply Hk|exact I|exact I].
Qed.

Lemma processing_not_failed (p : Q) :
  Forall not_failed_write (fst (processing p)).
Proof. repeat constructor. intros []. Qed.

Lemma fail_halts : halts (fst fail).
Proof. split; [intros _; constructor|exact I]. Qed.

Lemma complete_halts (field : string) (r : Result) :
  halts (fst (complete field r)).
Proof. split; [intros []|exact I]. Qed.

Lemma generate_script_halts (params : VideoParams) :
  halts (fst (generate_script sv params)).
Proof.
  unfold generate_script.
  destruct (String.eqb (PyStr.strip (video_script params)) "") eqn:E;
    cbn [bind call ret fst snd app].
  - destruct (String.eqb (script_answer sv) ""); cbn; intuition.
  - rewrite E. exact I.
Qed.

Lemma generate_terms_halts (params : VideoParams) (video_script : string) :
  halts (fst (generate_terms sv params video_script)).
Proof.
  unfold generate_terms.
  destruct (video_terms params) as [|[|c s]|[|t l]];
    cbn [bind call ret fst snd app];
    match goal with
    | |- context [match ?x with [] => _ | _ :: _ => _ end] => destruct x
    end; cbn; intuition.
Qed.

Lemma generate_audio_halts (params : VideoParams) (video_script : string) :
  halts (fst (generate_audio sv task_dir params video_script)).
Proof. unfold generate_audio. destruct (tts_answer sv); cbn; intuition. Qed.

Lemma get_video_materials_halts (params : VideoParams)
      (video_terms : list string) (audio_duration : Z) :
  halts (fst (get_video_materials sv params video_terms audio_duration)).
Proof.
  unfold get_video_materials.
  destruct (String.eqb (video_source params) "local").
  - destruct (video_materials params) as [ms|]; [|cbn; intuition].
    destruct (map (preprocess_material sv) ms); cbn; intuition.
  - destruct (download_answer sv (video_concat_mode params)); cbn; intuition.
Qed.

Lemma start_materials_halts (params : VideoParams) (stop_at : string)
      (video_script : string) (video_terms : list string)
      (audio_file : string) (audio_duration : Z) (subtitle_path : string) :
  halts (fst (start_materials sv task_dir params stop_at video_script
                              video_terms audio_file audio_duration
                              subtitle_path)).
Proof.
  unfold start_materials.
  apply halts_handover;
    [apply get_video_materials_halts
    |intros l Hl; eapply get_video_materials_clean; exact Hl
    |reflexivity|intros l _].
  destruct (String.eqb stop_at "materials"); [apply complete_halts|].
  apply halts_after_clean; [apply processing_not_failed|intros _ _].
  apply halts_after_clean;
    [apply generate_final_videos_clean|intros [finals combined] _].
  destruct finals as [|f finals]; [apply fail_halts|].
  split; [intros []|exact I].
Qed.

Lemma start_audio_halts (params : VideoParams) (stop_at : string)
      (video_script : string) (video_terms : list string) :
  halts (fst (start_audio sv task_dir params stop_at video_script
                          video_terms)).
Proof.
  unfold start_audio.
  apply halts_handover;
    [apply generate_audio_halts
    |intros a Ha; eapply generate_audio_clean; exact Ha
    |reflexivity|intros [file dur] _].
  apply halts_after_clean; [apply processing_not_failed|intros _ _].
  destruct (String.eqb stop_at "audio"); [apply complete_halts|].
  apply halts_after_clean; [apply generate_subtitle_clean|intros path _].
  destruct (String.eqb stop_at "subtitle"); [apply complete_halts|].
  apply halts_after_clean; [apply processing_not_failed|intros _ _].
  apply start_materials_halts.
Qed.

Lemma start_terms_halts (params : VideoParams) (stop_at : string)
      (video_script : string) :
  halts (fst (start_terms sv task_dir params stop_at video_script)).
Proof.
  unfold start_terms.
  apply halts_handover; [| |reflexivity|intros terms _].
  - destruct (negb (String.eqb (video_source params) "local"));
      [apply generate_terms_halts|exact I].
  - intros terms Ht.
    destruct (negb (String.eqb (video_source params) "local"));
      [eapply generate_terms_clean; exact Ht|constructor].
  - apply halts_after_clean; [repeat constructor; intros []|intros _ _].
    destruct (String.eqb stop_at "terms"); [apply complete_halts|].
    apply halts_after_clean; [apply processing_not_failed|intros _ _].
    apply start_audio_halts.
Qed.

Lemma stages_halts (params : VideoParams) (stop_at : string) :
  halts (fst (stages sv task_dir params stop_at)).
Proof.
  unfold stages.
  apply halts_handover;
    [apply generate_script_halts
    |intros s Hs; eapply generate_script_clean; exact Hs
    |reflexivity|intros script _].
  destruct (PyStr.contains "Error: " script); [apply fail_halts|].
  apply halts_after_clean; [apply processing_not_failed|intros _ _].
  destruct (String.eqb stop_at "script"); [apply complete_halts|].
  apply start_terms_halts.
Qed.

End Halting.

(** X22: once a run of [start] has written state Failed it does nothing
    more than write Failed again: no service is called and no other
    state or progress is written after a failure. *)
Theorem start_stops_after_failure
        (sv : Task.Services) (task_dir : string)
        (params : Schema.VideoParams) (stop_at : string) :
  Orchestration.halts (fst (Task.run_start sv task_dir params stop_at)).
Proof.
  unfold Task.run_start. rewrite start_split.
  apply halts_after_clean; [apply processing_not_failed|intros _ _].
  apply halts_after_clean; [rewrite conversion_events; constructor|].
  intros params' _. apply stages_halts.
Qed.
